(** * usdb_syncer: the song loader pipeline ([song_loader.py])

    A shallow embedding of [usdb_syncer/song_loader.py] and statements about
    its download, tag-writing and commit stages.

    Python objects that the loader mutates in place ([Context], its
    [TempResourceFiles], [Locations]) are threaded explicitly; the outside
    world (file system, library store, log and notification bus) is a
    [World] value carried by a small state-and-exception monad.  Functions of
    other modules of the package ([utils], [sync_meta], [resource_dl],
    [usdb_scraper], ...) are collected in the [External] interface. *)

From Stdlib Require Import Ascii String List Bool Arith Lia.
Import ListNotations.
Local Open Scope string_scope.
Local Open Scope list_scope.

Infix "^^" := String.append (at level 30, right associativity).

(** ** Python truthiness *)

(** [bool(s)] for a [str]. *)
Definition str_truthy (s : string) : bool := negb (String.eqb s "").

(** [bool(o)] for a [str | None]. *)
Definition truthy (o : option string) : bool :=
  match o with
  | Some s => str_truthy s
  | None => false
  end.

(** [a or b] where [a] is an object that is always truthy when present
    (a [Path], an attrs instance). *)
Definition or_else {A : Type} (a b : option A) : option A :=
  match a with
  | Some _ => a
  | None => b
  end.

(** [a or b] on [str | None]. *)
Definition str_or (a b : option string) : option string :=
  if truthy a then a else b.

(** [o or ""] on [str | None]. *)
Definition or_empty (o : option string) : string :=
  match o with
  | Some s => s
  | None => ""
  end.

(** [o == s] for [o : str | None] and [s : str]. *)
Definition opt_eqb (o : option string) (s : string) : bool :=
  match o with
  | Some r => String.eqb r s
  | None => false
  end.

(** ** Paths *)

(** A [pathlib.Path] is the list of its components, outermost first.  File
    and folder names are single components. *)
Definition Path : Type := list string.

Definition path_eq_dec : forall p q : Path, {p = q} + {p <> q} :=
  list_eq_dec string_dec.

Definition path_eqb (p q : Path) : bool :=
  if path_eq_dec p q then true else false.

Definition joinpath (p : Path) (n : string) : Path := p ++ [n].

(** [p.name] *)
Definition name (p : Path) : string := last p "".

(** [p.parent] *)
Definition parent (p : Path) : Path := removelast p.

(** [p.with_name(n)] *)
Definition with_name (p : Path) (n : string) : Path := joinpath (parent p) n.

(** [rest] such that [q = p ++ rest], when [p] is an ancestor of (or equal
    to) [q]. *)
Fixpoint strip_prefix (p q : Path) : option Path :=
  match p, q with
  | [], _ => Some q
  | _ :: _, [] => None
  | a :: p', b :: q' => if String.eqb a b then strip_prefix p' q' else None
  end.

Definition is_under (p q : Path) : bool :=
  match strip_prefix p q with
  | Some _ => true
  | None => false
  end.

(** [str(p)] *)
Definition path_str (p : Path) : string := String.concat "/" p.

(** ** Identifiers and enumerations *)

Definition SongId : Type := nat.
Definition SyncMetaId : Type := nat.

Inductive DownloadStatus : Type :=
| NONE
| PENDING
| DOWNLOADING
| FAILED.

Module ImageKind.
Inductive t : Type :=
| COVER
| BACKGROUND.
End ImageKind.

(** The kinds of resource files of a song, in the order in which the sync
    meta and the staged files list them. *)
Module ResourceFileKind.
Inductive t : Type :=
| TXT
| AUDIO
| VIDEO
| COVER
| BACKGROUND.

Definition eq_dec : forall a b : t, {a = b} + {a <> b}.
Proof. decide equality. Defined.
End ResourceFileKind.

(** The exceptions [SongLoader.run] distinguishes. *)
Inductive Exn : Type :=
| UsdbLoginError
| UsdbNotFoundError
| OtherError (what : string).

(** ** Resource files and meta tags *)

(** Modelled from the spec: [ResourceFile], which is not part of the given
    sources: "a committed resource's identity -- a resource string (the
    remote origin, used as the unchanged/changed comparison key) and a
    filename on disk". *)
Module ResourceFile.
Record t : Type := mk {
  fname : string;
  resource : string
}.

  (** Modelled from the spec: [ResourceFile.new(path, resource)] records the
      file's name on disk and the resource it came from. *)
Definition new (path : Path) (resource : string) : t :=
  {| fname := name path; resource := resource |}.
End ResourceFile.

Module ImageMetaTags.
  (** The cover/background parameters of the [#VIDEO] tag; [source_url] is
      the URL the parameters resolve to. *)
Record t : Type := mk {
  source_url : string
}.
End ImageMetaTags.

Module MetaTags.
Record t : Type := mk {
  audio : option string;
  video : option string;
  cover : option ImageMetaTags.t;
  background : option ImageMetaTags.t
}.
End MetaTags.

(** ** Song data *)

Module Headers.
Record t : Type := mk {
  artist : string;
  title : string;
  language : option string;
  edition : option string;
  genre : option string;
  year : option string;
  creator : option string;
    mp3 : option string;
  video : option string;
  cover : option string;
  background : option string
}.

  (** Modelled from the spec: [artist_title_str()], the "artist - title"
      string the filename stem is derived from. *)
Definition artist_title_str (h : t) : string := artist h ^^ " - " ^^ title h.

Definition set_creator (c : option string) (h : t) : t :=
  mk (artist h) (title h) (language h) (edition h) (genre h) (year h) c
       (mp3 h) (video h) (cover h) (background h).
Definition set_mp3 (v : option string) (h : t) : t :=
  mk (artist h) (title h) (language h) (edition h) (genre h) (year h)
       (creator h) v (video h) (cover h) (background h).
Definition set_video (v : option string) (h : t) : t :=
  mk (artist h) (title h) (language h) (edition h) (genre h) (year h)
       (creator h) (mp3 h) v (cover h) (background h).
Definition set_cover (v : option string) (h : t) : t :=
  mk (artist h) (title h) (language h) (edition h) (genre h) (year h)
       (creator h) (mp3 h) (video h) v (background h).
Definition set_background (v : option string) (h : t) : t :=
  mk (artist h) (title h) (language h) (edition h) (genre h) (year h)
       (creator h) (mp3 h) (video h) (cover h) v.
End Headers.

Module SongTxt.
Record t : Type := mk {
  headers : Headers.t;
  meta_tags : MetaTags.t
}.

Definition set_headers (h : Headers.t) (x : t) : t := mk h (meta_tags x).
End SongTxt.

Module SongDetails.
Record t : Type := mk {
  song_id : SongId;
  artist : string;
  title : string;
  uploader : option string;
  cover_url : option string;
  golden_notes : bool;
  rating : nat;
  views : nat;
  (** what [all_comment_videos()] yields, in order *)
  all_comment_videos : list string
}.
End SongDetails.

(** ** Download options ([download_options.py], as far as used) *)

Module Options.
Record AudioOptions : Type := { embed_artwork : bool }.
Record VideoOptions : Type := { }.
Record CoverOptions : Type := { max_size : option nat }.
Record BackgroundOptions : Type := {
  (** the method [download_background(with_video)] of the options object *)
  download_background : bool -> bool
}.
Record TxtOptions : Type := { }.

Record t : Type := mk {
  song_dir : Path;
  txt_options : option TxtOptions;
  audio_options : option AudioOptions;
  video_options : option VideoOptions;
  cover : option CoverOptions;
  background_options : option BackgroundOptions
}.
End Options.

(** ** The file system and the calls made to collaborators *)

(** What a file holds, as far as the loader can tell files apart. *)
Inductive Content : Type :=
| Downloaded (resource : string)
| WrittenTxt (headers : Headers.t)
| WrittenSyncMeta (id : SyncMetaId)
| UserData (n : nat).

Inductive Node : Type :=
| Dir
| File (c : Content).

(** The file system: what is found at each path. *)
Definition FS : Type := Path -> option Node.

Definition fs_exists (fs : FS) (p : Path) : bool :=
  match fs p with
  | Some _ => true
  | None => false
  end.

Definition fs_write (fs : FS) (p : Path) (n : Node) : FS :=
  fun q => if path_eqb q p then Some n else fs q.

(** Remove [p] and everything below it. *)
Definition fs_remove (fs : FS) (p : Path) : FS :=
  fun q => if is_under p q then None else fs q.

(** Move [src], with everything below it, to [dst]. *)
Definition fs_rename (fs : FS) (src dst : Path) : FS :=
  fun q =>
    match strip_prefix dst q with
    | Some rest => fs (src ++ rest)
    | None => if is_under src q then None else fs q
    end.

(** [mkdir(parents=True, exist_ok=True)]: [p] and its missing ancestors
    become directories. *)
Definition fs_mkdir (fs : FS) (p : Path) : FS :=
  fun q =>
    match fs q with
    | Some n => Some n
    | None =>
        match q with
        | [] => None
        | _ :: _ => if is_under q p then Some Dir else None
        end
    end.

Inductive LogLevel : Type :=
| DEBUG
| INFO
| WARNING
| ERROR.

Inductive Notification : Type :=
| SongChanged (id : SongId)
| SongDeleted (id : SongId)
| DownloadFinished (id : SongId).

Inductive TagFormat : Type :=
| M4A
| MP3
| OGG.

(** Calls the loader makes to its collaborators, in the order made. *)
Inductive Event : Type :=
| Log (level : LogLevel) (msg : string)
| FetchAudio (resource : string)
| FetchVideo (resource : string)
| FetchImage (kind : ImageKind.t) (url : string)
| Trash (p : Path)
| Rename (src dst : Path)
| Mkdir (p : Path)
| WriteFile (p : Path) (c : Content)
| WriteTags (fmt : TagFormat) (p : Path)
| MkDtemp (p : Path)
| RmTree (p : Path)
| Post (n : Notification).

(** ** Collaborators from modules outside [song_loader.py] *)

Class External : Type := {
  (* utils *)
  sanitize_filename : string -> string;
  next_unique_directory : FS -> Path -> Path;
  is_name_maybe_with_suffix : string -> string -> bool;
  resource_file_ending : string -> string;
  (* sync_meta *)
  is_in_sync : FS -> ResourceFile.t -> Path -> bool;
  SyncMetaId_new : SyncMetaId;
  to_filename : SyncMetaId -> string;
  (* song_txt *)
  SongTxt_parse : string -> Exn + SongTxt.t;
  is_audio_only : MetaTags.t -> bool;
  minimum_song_length : SongTxt.t -> string;
  (* usdb_scraper *)
  get_usdb_details : SongId -> Exn + SongDetails.t;
  get_notes : SongId -> Exn + string;
  usdb_url : SongId -> string;
  (* resource_dl: the extension (audio, video) or path (images) of the
     downloaded file, or nothing *)
  download_audio : string -> option string;
  download_video : string -> option string;
  download_and_process_image : string -> Path -> ImageKind.t -> option Path;
  (* mutagen: does saving the tags succeed? *)
  tags_save : TagFormat -> Path -> bool;
  (* tempfile *)
  mkdtemp : FS -> Path
}.

(** ** Sync meta and songs *)

Module SyncMeta.
Record t : Type := mk {
  sync_meta_id : SyncMetaId;
  song_id : SongId;
  path : Path;
  mtime : nat;
  meta_tags : MetaTags.t;
  pinned : bool;
  txt : option ResourceFile.t;
  audio : option ResourceFile.t;
  video : option ResourceFile.t;
  cover : option ResourceFile.t;
  background : option ResourceFile.t
}.

(** [all_resource_files()]: every resource file, or its absence, with its
    kind. *)
Definition all_resource_files (m : t)
    : list (option ResourceFile.t * ResourceFileKind.t) :=
  [(txt m, ResourceFileKind.TXT);
   (audio m, ResourceFileKind.AUDIO);
   (video m, ResourceFileKind.VIDEO);
   (cover m, ResourceFileKind.COVER);
   (background m, ResourceFileKind.BACKGROUND)].

(** Modelled from the spec: [SyncMeta.new(song_id, folder, meta_tags)], which
    is not part of the given sources: a record with a newly minted id, its
    file inside [folder], not pinned and without resource files. *)
Definition new `{External} (song_id : SongId) (folder : Path)
    (meta_tags : MetaTags.t) : t :=
  mk SyncMetaId_new song_id (joinpath folder (to_filename SyncMetaId_new)) 0
     meta_tags false None None None None None.

Definition set_resource_files (x a v c b : option ResourceFile.t) (m : t) : t :=
  mk (sync_meta_id m) (song_id m) (path m) (mtime m) (meta_tags m) (pinned m)
     x a v c b.
End SyncMeta.

Module UsdbSong.
Record t : Type := mk {
  song_id : SongId;
  artist : string;
  title : string;
  language : string;
  edition : string;
  golden_notes : bool;
  rating : nat;
  views : nat;
  sync_meta : option SyncMeta.t;
  status : DownloadStatus
}.

Definition set_status (s : DownloadStatus) (x : t) : t :=
  mk (song_id x) (artist x) (title x) (language x) (edition x)
       (golden_notes x) (rating x) (views x) (sync_meta x) s.
Definition set_sync_meta (m : option SyncMeta.t) (x : t) : t :=
  mk (song_id x) (artist x) (title x) (language x) (edition x)
       (golden_notes x) (rating x) (views x) m (status x).
End UsdbSong.

(** ** The outside world *)

Record World : Type := mkWorld {
  fs : FS;
  db : SongId -> option UsdbSong.t;
  trace : list Event
}.

(** ** The loader monad: world state and exceptions *)

Definition M (A : Type) : Type := World -> (Exn + A) * World.

Definition ret {A : Type} (a : A) : M A := fun w => (inr a, w).

Definition raise {A : Type} (e : Exn) : M A := fun w => (inl e, w).

Definition bind {A B : Type} (c : M A) (k : A -> M B) : M B :=
  fun w =>
    match c w with
    | (inr a, w') => k a w'
    | (inl e, w') => (inl e, w')
    end.

Notation "x <- c ;; k" := (bind c (fun x => k))
  (at level 61, c at next level, right associativity).
Notation "' pat <- c ;; k" :=
  (bind c (fun x => match x with pat => k end))
  (at level 61, pat pattern, c at next level, right associativity).
Notation "c ;; k" := (bind c (fun _ => k))
  (at level 61, right associativity).

Definition emit (e : Event) : M unit :=
  fun w => (inr tt, mkWorld (fs w) (db w) (trace w ++ [e])).

Definition log (level : LogLevel) (msg : string) : M unit :=
  emit (Log level msg).

Definition post (n : Notification) : M unit := emit (Post n).

Definition get_fs : M FS := fun w => (inr (fs w), w).

Definition set_fs (f : FS) : M unit :=
  fun w => (inr tt, mkWorld f (db w) (trace w)).

Definition when (b : bool) (c : M unit) : M unit := if b then c else ret tt.

(** [path.exists()] *)
Definition exists_ (p : Path) : M bool :=
  f <- get_fs ;; ret (fs_exists f p).

(** Modelled from the spec: the trash facility, "[trash(path)], reversible,
    never raises on a missing path being a no-op". *)
Definition send2trash (p : Path) : M unit :=
  emit (Trash p) ;;
  f <- get_fs ;;
  set_fs (fs_remove f p).

(** [src.rename(dst)]; a missing source raises. *)
Definition rename (src dst : Path) : M unit :=
  f <- get_fs ;;
  if fs_exists f src then
    emit (Rename src dst) ;;
    set_fs (fs_rename f src dst)
  else raise (OtherError "FileNotFoundError").

(** [p.mkdir(parents=True, exist_ok=True)]; a file in the way raises. *)
Definition mkdir (p : Path) : M unit :=
  f <- get_fs ;;
  match f p with
  | Some (File _) => raise (OtherError "FileExistsError")
  | _ => emit (Mkdir p) ;; set_fs (fs_mkdir f p)
  end.

Definition write_file (p : Path) (c : Content) : M unit :=
  emit (WriteFile p c) ;;
  f <- get_fs ;;
  set_fs (fs_write f p (File c)).

(** [path.read_bytes()] and the like; a missing file raises. *)
Definition read_bytes (p : Path) : M unit :=
  f <- get_fs ;;
  match f p with
  | Some (File _) => ret tt
  | _ => raise (OtherError "FileNotFoundError")
  end.

(** [try: c except Exception: ...]: the outcome of [c] as a value. *)
Definition try {A : Type} (c : M A) : M (Exn + A) :=
  fun w => let (r, w') := c w in (inr r, w').

(** [for x in xs: body], where the body updates [s]. *)
Fixpoint for_ {X S : Type} (xs : list X) (body : X -> S -> M S) (s : S)
    : M S :=
  match xs with
  | [] => ret s
  | x :: rest => s' <- body x s ;; for_ rest body s'
  end.

(** Lift a collaborator's result that is a value or an exception. *)
Definition lift {A : Type} (r : Exn + A) : M A :=
  match r with
  | inl e => raise e
  | inr a => ret a
  end.

(** [with tempfile.TemporaryDirectory() as tempdir: body]: the directory
    is removed on every exit path. *)
Definition with_TemporaryDirectory `{External} {A : Type}
    (body : Path -> M A) : M A :=
  fun w =>
    let tempdir := mkdtemp (fs w) in
    let w1 :=
      mkWorld (fs_write (fs w) tempdir Dir) (db w)
        (trace w ++ [MkDtemp tempdir]) in
    let (r, w2) := body tempdir w1 in
    (r, mkWorld (fs_remove (fs w2) tempdir) (db w2)
          (trace w2 ++ [RmTree tempdir])).


(** Modelled from the spec: the library store, "[upsert(song)],
    [delete(songId)]"; [db.transaction()] makes each one atomic. *)
Definition upsert (song : UsdbSong.t) : M unit :=
  fun w =>
    (inr tt,
     mkWorld (fs w)
       (fun id => if Nat.eqb id (UsdbSong.song_id song) then Some song
                  else db w id)
       (trace w)).

Definition delete (song : UsdbSong.t) : M unit :=
  fun w =>
    (inr tt,
     mkWorld (fs w)
       (fun id => if Nat.eqb id (UsdbSong.song_id song) then None
                  else db w id)
       (trace w)).
(** ** [Locations] *)

Module Locations.
Record t : Type := mk {
  folder : Path;
  filename_stem : string;
  tempdir : Path
}.

Definition set_folder (f : Path) (l : t) : t :=
  mk f (filename_stem l) (tempdir l).

Section WithExternal.
Context `{External}.

(** [Locations.new]; the file system is the one [next_unique_directory]
    looks at. *)
Definition new (f : FS) (song : UsdbSong.t) (song_dir : Path)
    (headers : Headers.t) (tempdir : Path) : t :=
  let filename_stem := sanitize_filename (Headers.artist_title_str headers) in
  let folder :=
    match UsdbSong.sync_meta song with
    | Some sync_meta => parent (SyncMeta.path sync_meta)
    | None => next_unique_directory f (joinpath song_dir filename_stem)
    end in
  mk folder filename_stem tempdir.

Definition filename_with_ending (self : t) (filename : string) : string :=
  filename_stem self ^^ resource_file_ending filename.

End WithExternal.

(** The name both [file_path] and [temp_path] compute. *)
Definition generic_name (self : t) (file ext : string) : string :=
  let name := if str_truthy file then file else filename_stem self in
  if str_truthy ext then name ^^ "." ^^ ext else name.

Definition file_path (self : t) (file ext : string) : Path :=
  joinpath (folder self) (generic_name self file ext).

Definition temp_path (self : t) (file ext : string) : Path :=
  joinpath (tempdir self) (generic_name self file ext).
End Locations.

(** ** [TempResourceFile] and [TempResourceFiles] *)

Module TempResourceFile.
Record t : Type := mk {
  old_path : option Path;
  new_path : option Path;
  resource : option string
}.

(** The attrs defaults. *)
Definition empty : t := mk None None None.

Definition from_existing (old : ResourceFile.t) (folder : Path) : t :=
  mk (Some (joinpath folder (ResourceFile.fname old))) None
     (Some (ResourceFile.resource old)).

Definition path_and_resource (self : t) : option (Path * string) :=
  match or_else (new_path self) (old_path self), resource self with
  | Some path, Some r => if str_truthy r then Some (path, r) else None
  | _, _ => None
  end.

Definition path (self : t) : option Path :=
  or_else (new_path self) (old_path self).

Definition to_resource_file (self : t) : option ResourceFile.t :=
  match path_and_resource self with
  | Some (p, r) => Some (ResourceFile.new p r)
  | None => None
  end.
End TempResourceFile.

Module TempResourceFiles.
Record t : Type := mk {
  txt : TempResourceFile.t;
  audio : TempResourceFile.t;
  video : TempResourceFile.t;
  cover : TempResourceFile.t;
  background : TempResourceFile.t
}.

Definition empty : t :=
  mk TempResourceFile.empty TempResourceFile.empty TempResourceFile.empty
     TempResourceFile.empty TempResourceFile.empty.

(** [__iter__] yields the five staged files themselves, so that a loop
    over it can change them in place; here it yields their kinds, and [get]
    and [set] read and write the file of a kind. *)
Definition iter : list ResourceFileKind.t :=
  [ResourceFileKind.TXT; ResourceFileKind.AUDIO; ResourceFileKind.VIDEO;
   ResourceFileKind.COVER; ResourceFileKind.BACKGROUND].

Definition get (k : ResourceFileKind.t) (self : t) : TempResourceFile.t :=
  match k with
  | ResourceFileKind.TXT => txt self
  | ResourceFileKind.AUDIO => audio self
  | ResourceFileKind.VIDEO => video self
  | ResourceFileKind.COVER => cover self
  | ResourceFileKind.BACKGROUND => background self
  end.

Definition set_txt (x : TempResourceFile.t) (o : t) : t :=
  mk x (audio o) (video o) (cover o) (background o).
Definition set_audio (x : TempResourceFile.t) (o : t) : t :=
  mk (txt o) x (video o) (cover o) (background o).
Definition set_video (x : TempResourceFile.t) (o : t) : t :=
  mk (txt o) (audio o) x (cover o) (background o).
Definition set_cover (x : TempResourceFile.t) (o : t) : t :=
  mk (txt o) (audio o) (video o) x (background o).
Definition set_background (x : TempResourceFile.t) (o : t) : t :=
  mk (txt o) (audio o) (video o) (cover o) x.

Definition set (k : ResourceFileKind.t) (x : TempResourceFile.t) (o : t) : t :=
  match k with
  | ResourceFileKind.TXT => set_txt x o
  | ResourceFileKind.AUDIO => set_audio x o
  | ResourceFileKind.VIDEO => set_video x o
  | ResourceFileKind.COVER => set_cover x o
  | ResourceFileKind.BACKGROUND => set_background x o
  end.
End TempResourceFiles.

(** ** Candidate generators *)

(** What a Python generator does when it is resumed: yield the next
    candidate, or run a statement on the way to it. *)
Inductive GenItem : Type :=
| Yield (resource : string)
| Effect (e : Event).

(** The candidates a generator yields, in order. *)
Fixpoint yields (items : list GenItem) : list string :=
  match items with
  | [] => []
  | Yield r :: rest => r :: yields rest
  | Effect _ :: rest => yields rest
  end.

(** [itertools.islice(gen, n)]: the generator is not resumed once [n]
    candidates have been taken. *)
Fixpoint islice (items : list GenItem) (n : nat) : list GenItem :=
  match n, items with
  | 0, _ => []
  | _, [] => []
  | S n', Yield r :: rest => Yield r :: islice rest n'
  | S _, Effect e :: rest => Effect e :: islice rest n
  end.

(** ** Fetching the song's data from USDB *)

Section UsdbData.
Context `{External}.

Definition _get_usdb_data (song_id : SongId)
    : M (SongDetails.t * SongTxt.t) :=
  details <- lift (get_usdb_details song_id) ;;
  log INFO ("Found '" ^^ SongDetails.artist details ^^ " - "
            ^^ SongDetails.title details ^^ "' on USDB.") ;;
  txt_str <- lift (get_notes (SongDetails.song_id details)) ;;
  (* [SongTxt.parse] followed by [txt.sanitize()] *)
  txt <- lift (SongTxt_parse txt_str) ;;
  let creator :=
    str_or (str_or (Headers.creator (SongTxt.headers txt))
                   (SongDetails.uploader details))
           None in
  ret (details,
       SongTxt.set_headers (Headers.set_creator creator (SongTxt.headers txt))
         txt).

Definition _update_song_with_usdb_data (song : UsdbSong.t)
    (details : SongDetails.t) (txt : SongTxt.t) : UsdbSong.t :=
  UsdbSong.mk
    (UsdbSong.song_id song)
    (SongDetails.artist details)
    (SongDetails.title details)
    (or_empty (Headers.language (SongTxt.headers txt)))
    (or_empty (Headers.edition (SongTxt.headers txt)))
    (SongDetails.golden_notes details)
    (SongDetails.rating details)
    (SongDetails.views details)
    (UsdbSong.sync_meta song)
    (UsdbSong.status song).

End UsdbData.

(** ** [Context] *)

Module Context.
Record t : Type := mk {
  song : UsdbSong.t;
  details : SongDetails.t;
  options : Options.t;
  txt : SongTxt.t;
  locations : Locations.t;
  out : TempResourceFiles.t
}.

Definition set_out (o : TempResourceFiles.t) (c : t) : t :=
  mk (song c) (details c) (options c) (txt c) (locations c) o.
Definition set_locations (l : Locations.t) (c : t) : t :=
  mk (song c) (details c) (options c) (txt c) l (out c).
Definition set_txt (x : SongTxt.t) (c : t) : t :=
  mk (song c) (details c) (options c) x (locations c) (out c).
Definition set_song (s : UsdbSong.t) (c : t) : t :=
  mk s (details c) (options c) (txt c) (locations c) (out c).

Definition all_video_resources (self : t) : list GenItem :=
  (match MetaTags.video (SongTxt.meta_tags (txt self)) with
   | Some v => if str_truthy v then [Yield v] else []
   | None => []
   end)
  ++ map Yield (SongDetails.all_comment_videos (details self)).

Definition all_audio_resources (self : t) : list GenItem :=
  (match MetaTags.audio (SongTxt.meta_tags (txt self)) with
   | Some a => if str_truthy a then [Yield a] else []
   | None => []
   end)
  ++ (if truthy (MetaTags.video (SongTxt.meta_tags (txt self))) then []
      else [Effect (Log DEBUG
                      "No valid audio/video meta tag. Looking in comments.")])
  ++ all_video_resources self.

Definition cover_url (self : t) : M (option string) :=
  match MetaTags.cover (SongTxt.meta_tags (txt self)) with
  | Some tag =>
      let url := ImageMetaTags.source_url tag in
      log DEBUG ("downloading cover from #VIDEO params: " ^^ url) ;;
      ret (Some url)
  | None =>
      if truthy (SongDetails.cover_url (details self)) then
        log WARNING
          "no cover resource in #VIDEO tag, so fallback to small usdb cover!" ;;
        ret (SongDetails.cover_url (details self))
      else ret None
  end.

Definition background_url (self : t) : M (option string) :=
  match MetaTags.background (SongTxt.meta_tags (txt self)) with
  | Some tag =>
      let url := ImageMetaTags.source_url tag in
      log DEBUG ("downloading background from #VIDEO params: " ^^ url) ;;
      ret (Some url)
  | None => ret None
  end.

Section WithExternal.
Context `{External}.

(** One round of the loop in [__attrs_post_init__]. *)
Definition seed (f : FS) (locations : Locations.t)
    (old : option ResourceFile.t) (out : TempResourceFile.t)
    : TempResourceFile.t :=
  match old with
  | Some old =>
      if is_in_sync f old (Locations.folder locations) then
        TempResourceFile.mk
          (Some (Locations.file_path locations (ResourceFile.fname old) ""))
          (TempResourceFile.new_path out)
          (Some (ResourceFile.resource old))
      else out
  | None => out
  end.

(** [__attrs_post_init__]: reuse old resource files unless new ones are
    acquired later on; txt is always rewritten. *)
Definition __attrs_post_init__ (f : FS) (self : t) : t :=
  match UsdbSong.sync_meta (song self) with
  | Some sync_meta =>
      let o := out self in
      set_out
        (TempResourceFiles.mk
           (TempResourceFiles.txt o)
           (seed f (locations self) (SyncMeta.audio sync_meta)
              (TempResourceFiles.audio o))
           (seed f (locations self) (SyncMeta.video sync_meta)
              (TempResourceFiles.video o))
           (seed f (locations self) (SyncMeta.cover sync_meta)
              (TempResourceFiles.cover o))
           (seed f (locations self) (SyncMeta.background sync_meta)
              (TempResourceFiles.background o)))
        self
  | None => self
  end.

(** [Context.new]; [copy.deepcopy] is the identity on values. *)
Definition new (song : UsdbSong.t) (options : Options.t) (tempdir : Path)
    : M t :=
  '(details, txt) <- _get_usdb_data (UsdbSong.song_id song) ;;
  let song := _update_song_with_usdb_data song details txt in
  f <- get_fs ;;
  let paths :=
    Locations.new f song (Options.song_dir options) (SongTxt.headers txt)
      tempdir in
  let song :=
    match UsdbSong.sync_meta song with
    | Some _ => song
    | None =>
        UsdbSong.set_sync_meta
          (Some (SyncMeta.new (UsdbSong.song_id song)
                   (Locations.folder paths) (SongTxt.meta_tags txt)))
          song
    end in
  ret (__attrs_post_init__ f
         (mk song details options txt paths TempResourceFiles.empty)).

End WithExternal.
End Context.

(** ** The download stage *)

Section Download.
Context `{External}.

(** [resource_dl.download_audio(resource, options, browser, path_stem,
    logger)]: on success the file [path_stem.ext] has been written. *)
Definition resource_dl_download_audio (resource : string) (path_stem : Path)
    : M (option string) :=
  emit (FetchAudio resource) ;;
  match download_audio resource with
  | Some ext =>
      write_file (with_name path_stem (name path_stem ^^ "." ^^ ext))
        (Downloaded resource) ;;
      ret (Some ext)
  | None => ret None
  end.

Definition resource_dl_download_video (resource : string) (path_stem : Path)
    : M (option string) :=
  emit (FetchVideo resource) ;;
  match download_video resource with
  | Some ext =>
      write_file (with_name path_stem (name path_stem ^^ "." ^^ ext))
        (Downloaded resource) ;;
      ret (Some ext)
  | None => ret None
  end.

(** [resource_dl.download_and_process_image(url, target_stem, meta_tags,
    details, kind, max_width)]: on success the returned path has been
    written. *)
Definition resource_dl_download_and_process_image (url : string)
    (target_stem : Path) (kind : ImageKind.t) : M (option Path) :=
  emit (FetchImage kind url) ;;
  match download_and_process_image url target_stem kind with
  | Some path => write_file path (Downloaded url) ;; ret (Some path)
  | None => ret None
  end.

Definition staged (resource : string) (new_path : Path)
    (out : TempResourceFile.t) : TempResourceFile.t :=
  TempResourceFile.mk (TempResourceFile.old_path out) (Some new_path)
    (Some resource).

(** The [for] loop of [_maybe_download_audio]: the context it returned
    with, or nothing when the candidates are exhausted. *)
Fixpoint audio_loop (items : list GenItem) (ctx : Context.t)
    : M (option Context.t) :=
  match items with
  | [] => ret None
  | Effect e :: rest => emit e ;; audio_loop rest ctx
  | Yield resource :: rest =>
      let out := Context.out ctx in
      if opt_eqb (TempResourceFile.resource (TempResourceFiles.audio out))
           resource
      then
        log INFO "Audio resource is unchanged." ;;
        ret (Some ctx)
      else
        ext <- resource_dl_download_audio resource
                 (Locations.temp_path (Context.locations ctx) "" "") ;;
        if truthy ext then
          let new_path :=
            Locations.temp_path (Context.locations ctx) "" (or_empty ext) in
          log INFO "Success! Downloaded audio." ;;
          ret (Some (Context.set_out
                       (TempResourceFiles.set_audio
                          (staged resource new_path
                             (TempResourceFiles.audio out)) out) ctx))
        else audio_loop rest ctx
  end.

Definition _maybe_download_audio (ctx : Context.t) : M Context.t :=
  match Options.audio_options (Context.options ctx) with
  | None => ret ctx
  | Some options =>
      r <- audio_loop (islice (Context.all_audio_resources ctx) 10) ctx ;;
      match r with
      | Some ctx' => ret ctx'
      | None =>
          let keep :=
            if truthy (TempResourceFile.resource
                         (TempResourceFiles.audio (Context.out ctx)))
            then " Keeping last resource." else "" in
          let song_len := minimum_song_length (Context.txt ctx) in
          log ERROR ("Failed to download audio (song duration > "
                     ^^ song_len ^^ ")!" ^^ keep) ;;
          ret ctx
      end
  end.

Fixpoint video_loop (items : list GenItem) (ctx : Context.t)
    : M (option Context.t) :=
  match items with
  | [] => ret None
  | Effect e :: rest => emit e ;; video_loop rest ctx
  | Yield resource :: rest =>
      let out := Context.out ctx in
      if opt_eqb (TempResourceFile.resource (TempResourceFiles.video out))
           resource
      then
        log INFO "Video resource is unchanged." ;;
        ret (Some ctx)
      else
        ext <- resource_dl_download_video resource
                 (Locations.temp_path (Context.locations ctx) "" "") ;;
        if truthy ext then
          let new_path :=
            Locations.temp_path (Context.locations ctx) "" (or_empty ext) in
          log INFO "Success! Downloaded video." ;;
          ret (Some (Context.set_out
                       (TempResourceFiles.set_video
                          (staged resource new_path
                             (TempResourceFiles.video out)) out) ctx))
        else video_loop rest ctx
  end.

Definition _maybe_download_video (ctx : Context.t) : M Context.t :=
  match Options.video_options (Context.options ctx) with
  | None => ret ctx
  | Some options =>
      if is_audio_only (SongTxt.meta_tags (Context.txt ctx)) then ret ctx
      else
        r <- video_loop (islice (Context.all_video_resources ctx) 10) ctx ;;
        match r with
        | Some ctx' => ret ctx'
        | None =>
            let keep :=
              if truthy (TempResourceFile.resource
                           (TempResourceFiles.video (Context.out ctx)))
              then " Keeping last resource." else "" in
            log ERROR ("Failed to download video!" ^^ keep) ;;
            ret ctx
        end
  end.

Definition _maybe_download_cover (ctx : Context.t) : M Context.t :=
  match Options.cover (Context.options ctx) with
  | None => ret ctx
  | Some _ =>
      url <- Context.cover_url ctx ;;
      if negb (truthy url) then
        log WARNING "No cover resource found." ;;
        ret ctx
      else
        let url := or_empty url in
        let out := Context.out ctx in
        if opt_eqb (TempResourceFile.resource (TempResourceFiles.cover out))
             url
        then
          log INFO "Cover resource is unchanged." ;;
          ret ctx
        else
          path <- resource_dl_download_and_process_image url
                    (Locations.temp_path (Context.locations ctx) "" "")
                    ImageKind.COVER ;;
          match path with
          | Some path =>
              log INFO "Success! Downloaded cover." ;;
              ret (Context.set_out
                     (TempResourceFiles.set_cover
                        (staged url path (TempResourceFiles.cover out)) out)
                     ctx)
          | None =>
              let keep :=
                if truthy (TempResourceFile.resource
                             (TempResourceFiles.cover out))
                then " Keeping last resource." else "" in
              log ERROR ("Failed to download cover!" ^^ keep) ;;
              ret ctx
          end
  end.

Definition _maybe_download_background (ctx : Context.t) : M Context.t :=
  match Options.background_options (Context.options ctx) with
  | None => ret ctx
  | Some options =>
      if negb (Options.download_background options
                 (truthy (Headers.video (SongTxt.headers (Context.txt ctx)))))
      then ret ctx
      else
        url <- Context.background_url ctx ;;
        if negb (truthy url) then
          log WARNING "No background resource found." ;;
          ret ctx
        else
          let url := or_empty url in
          let out := Context.out ctx in
          if opt_eqb
               (TempResourceFile.resource (TempResourceFiles.background out))
               url
          then
            log INFO "Background resource is unchanged." ;;
            ret ctx
          else
            path <- resource_dl_download_and_process_image url
                      (Locations.temp_path (Context.locations ctx) "" "")
                      ImageKind.BACKGROUND ;;
            match path with
            | Some path =>
                log INFO "Success! Downloaded background." ;;
                ret (Context.set_out
                       (TempResourceFiles.set_background
                          (staged url path (TempResourceFiles.background out))
                          out)
                       ctx)
            | None =>
                let keep :=
                  if truthy (TempResourceFile.resource
                               (TempResourceFiles.cover out))
                  then " Keeping last resource." else "" in
                log ERROR ("Failed to download background!" ^^ keep) ;;
                ret ctx
            end
  end.

End Download.

(** ** Writing the txt and the audio tags *)

Section Writing.
Context `{External}.

Definition header_name (p : option Path) (current : option string)
    : option string :=
  match p with
  | Some path => Some (name path)
  | None => current
  end.

Definition _write_headers (ctx : Context.t) : Context.t :=
  let out := Context.out ctx in
  let h := SongTxt.headers (Context.txt ctx) in
  let h :=
    Headers.set_mp3
      (header_name (TempResourceFile.path (TempResourceFiles.audio out))
         (Headers.mp3 h)) h in
  let h :=
    Headers.set_video
      (header_name (TempResourceFile.path (TempResourceFiles.video out))
         (Headers.video h)) h in
  let h :=
    Headers.set_cover
      (header_name (TempResourceFile.path (TempResourceFiles.cover out))
         (Headers.cover h)) h in
  let h :=
    Headers.set_background
      (header_name (TempResourceFile.path (TempResourceFiles.background out))
         (Headers.background h)) h in
  Context.set_txt (SongTxt.set_headers h (Context.txt ctx)) ctx.

Definition _maybe_write_txt (ctx : Context.t) : M Context.t :=
  match Options.txt_options (Context.options ctx) with
  | None => ret ctx
  | Some options =>
      let ctx := _write_headers ctx in
      let path := Locations.temp_path (Context.locations ctx) "" "txt" in
      (* [ctx.txt.write_to_file(path, encoding, newline)] *)
      write_file path (WrittenTxt (SongTxt.headers (Context.txt ctx))) ;;
      log INFO "Success! Created song txt." ;;
      ret (Context.set_out
             (TempResourceFiles.set_txt
                (TempResourceFile.mk
                   (TempResourceFile.old_path
                      (TempResourceFiles.txt (Context.out ctx)))
                   (Some path)
                   (Some (usdb_url (UsdbSong.song_id (Context.song ctx)))))
                (Context.out ctx))
             ctx)
  end.

(** The three tag writers.  Which fields they set is left to mutagen; what
    is kept is which files they read and which file they save to. *)

Fixpoint read_images (images : list (option Path)) : M unit :=
  match images with
  | [] => ret tt
  | Some image :: rest => read_bytes image ;; read_images rest
  | None :: rest => read_images rest
  end.

(** [tags.save(path)] / [audio.save()] *)
Definition save_tags (fmt : TagFormat) (path : Path) : M unit :=
  if tags_save fmt path then emit (WriteTags fmt path)
  else raise (OtherError "MutagenError").

Definition _write_m4a_tags (path : Path) (resource : string) (ctx : Context.t)
    (embed_artwork : bool) : M unit :=
  let out := Context.out ctx in
  when embed_artwork
    (read_images [TempResourceFile.path (TempResourceFiles.cover out);
                  TempResourceFile.path (TempResourceFiles.background out)]) ;;
  save_tags M4A path.

Definition _write_mp3_tags (path : Path) (resource : string) (ctx : Context.t)
    (embed_artwork : bool) : M unit :=
  let out := Context.out ctx in
  match embed_artwork,
        TempResourceFile.path_and_resource (TempResourceFiles.cover out) with
  | true, Some path_resource => read_bytes (fst path_resource)
  | _, _ => ret tt
  end ;;
  save_tags MP3 path.

Definition _write_ogg_tags (path : Path) (ctx : Context.t)
    (embed_artwork : bool) : M unit :=
  let out := Context.out ctx in
  (* [mutagen.oggvorbis.OggVorbis(path)] opens the file *)
  read_bytes path ;;
  match embed_artwork, TempResourceFile.path (TempResourceFiles.cover out) with
  | true, Some cover_path => read_bytes cover_path
  | _, _ => ret tt
  end ;;
  save_tags OGG path.

Definition _maybe_write_audio_tags (ctx : Context.t) : M unit :=
  match Options.audio_options (Context.options ctx) with
  | None => ret tt
  | Some options =>
      match TempResourceFile.path_and_resource
              (TempResourceFiles.audio (Context.out ctx)) with
      | None => ret tt
      | Some path_resource =>
          let '(path, resource) := path_resource in
          r <- try
                 (* [match path_resource[1]:] *)
                 (if String.eqb (snd path_resource) ".m4a" then
                    _write_m4a_tags path resource ctx
                      (Options.embed_artwork options)
                  else if String.eqb (snd path_resource) ".mp3" then
                    _write_mp3_tags path resource ctx
                      (Options.embed_artwork options)
                  else if String.eqb (snd path_resource) ".ogg" then
                    _write_ogg_tags path ctx (Options.embed_artwork options)
                  else ret tt) ;;
          match r with
          | inl _ =>
              log DEBUG "traceback" ;;
              log ERROR ("Failed to write audio tags to file '"
                         ^^ path_str path ^^ "'!")
          | inr _ =>
              log DEBUG ("Audio tags written to file '"
                         ^^ path_str path ^^ "'.")
          end
      end
  end.

End Writing.

(** ** The commit stage *)

Section Commit.
Context `{External}.

(** One round of the loop in [_cleanup_exisiting_resource]. *)
Definition cleanup_slot (locations : Locations.t)
    (old : option ResourceFile.t) (out : TempResourceFile.t)
    : M TempResourceFile.t :=
  match old with
  | None => ret out
  | Some old =>
      match TempResourceFile.old_path out with
      | None =>
          (* out of sync *)
          let path := Locations.file_path locations (ResourceFile.fname old) "" in
          b <- exists_ path ;;
          when b
            (send2trash path ;;
             log DEBUG ("Trashed untracked file: '" ^^ path_str path ^^ "'.")) ;;
          ret out
      | Some old_path =>
          match TempResourceFile.new_path out with
          | Some _ =>
              send2trash old_path ;;
              log DEBUG ("Trashed existing file: '" ^^ path_str old_path
                         ^^ "'.") ;;
              ret out
          | None =>
              let path :=
                Locations.file_path locations ""
                  (resource_file_ending (ResourceFile.fname old)) in
              if path_eqb old_path path then ret out
              else
                (* no new file; keep existing one, but ensure correct name *)
                rename old_path path ;;
                ret (TempResourceFile.mk (Some path)
                       (TempResourceFile.new_path out)
                       (TempResourceFile.resource out))
          end
      end
  end.

(** Delete resources that are either out of sync or will be replaced with a
    new one, and ensure kept ones are correctly named. *)
Definition _cleanup_exisiting_resource (ctx : Context.t) : M Context.t :=
  match UsdbSong.sync_meta (Context.song ctx) with
  | None => ret ctx
  | Some sync_meta =>
      out <- for_
               (combine (SyncMeta.all_resource_files sync_meta)
                  TempResourceFiles.iter)
               (fun '((old, _), k) out =>
                  temp_file <- cleanup_slot (Context.locations ctx) old
                                 (TempResourceFiles.get k out) ;;
                  ret (TempResourceFiles.set k temp_file out))
               (Context.out ctx) ;;
      ret (Context.set_out out ctx)
  end.

(** Ensure the song folder exists and has the correct name. *)
Definition _ensure_correct_folder_name (locations : Locations.t)
    : M Locations.t :=
  mkdir (Locations.folder locations) ;;
  if is_name_maybe_with_suffix (name (Locations.folder locations))
       (Locations.filename_stem locations)
  then ret locations
  else
    f <- get_fs ;;
    let new :=
      next_unique_directory f
        (with_name (Locations.folder locations)
           (Locations.filename_stem locations)) in
    rename (Locations.folder locations) new ;;
    ret (Locations.set_folder new locations).

(** One round of the loop in [_persist_tempfiles]. *)
Definition persist_slot (locations : Locations.t)
    (temp_file : TempResourceFile.t) : M TempResourceFile.t :=
  match TempResourceFile.new_path temp_file with
  | None => ret temp_file
  | Some new_path =>
      let target := Locations.file_path locations (name new_path) "" in
      b <- exists_ target ;;
      when b
        (send2trash target ;;
         log DEBUG ("Trashed existing file: '" ^^ path_str target ^^ "'.")) ;;
      rename new_path target ;;
      ret (TempResourceFile.mk (TempResourceFile.old_path temp_file)
             (Some target) (TempResourceFile.resource temp_file))
  end.

Definition _persist_tempfiles (ctx : Context.t) : M Context.t :=
  out <- for_ TempResourceFiles.iter
           (fun k out =>
              temp_file <- persist_slot (Context.locations ctx)
                             (TempResourceFiles.get k out) ;;
              ret (TempResourceFiles.set k temp_file out))
           (Context.out ctx) ;;
  ret (Context.set_out out ctx).

Definition _write_sync_meta (ctx : Context.t) : M Context.t :=
  let old := UsdbSong.sync_meta (Context.song ctx) in
  let sync_meta_id :=
    match old with
    | Some old => SyncMeta.sync_meta_id old
    | None => SyncMetaId_new
    end in
  let out := Context.out ctx in
  let sync_meta :=
    SyncMeta.mk
      sync_meta_id
      (UsdbSong.song_id (Context.song ctx))
      (Locations.file_path (Context.locations ctx) (to_filename sync_meta_id)
         "")
      0
      (SongTxt.meta_tags (Context.txt ctx))
      (match old with
       | Some old => SyncMeta.pinned old
       | None => false
       end)
      (TempResourceFile.to_resource_file (TempResourceFiles.txt out))
      (TempResourceFile.to_resource_file (TempResourceFiles.audio out))
      (TempResourceFile.to_resource_file (TempResourceFiles.video out))
      (TempResourceFile.to_resource_file (TempResourceFiles.cover out))
      (TempResourceFile.to_resource_file (TempResourceFiles.background out)) in
  (* [ctx.song.sync_meta.synchronize_to_file()] *)
  write_file (SyncMeta.path sync_meta) (WrittenSyncMeta sync_meta_id) ;;
  ret (Context.set_song
         (UsdbSong.set_sync_meta (Some sync_meta) (Context.song ctx)) ctx).

End Commit.

(** ** [SongLoader] *)

Module SongLoader.
Section WithExternal.
Context `{External}.

(** The statements of [_run_inner] inside the [with] block, after the
    context is built: first the downloads and the audio tags, ... *)
Definition download_stage (ctx : Context.t) : M Context.t :=
  ctx <- _maybe_download_audio ctx ;;
  ctx <- _maybe_download_video ctx ;;
  ctx <- _maybe_download_cover ctx ;;
  ctx <- _maybe_download_background ctx ;;
  _maybe_write_audio_tags ctx ;;
  ret ctx.

(** ... then the commit. *)
Definition commit_stage (ctx : Context.t) : M Context.t :=
  ctx <- _cleanup_exisiting_resource ctx ;;
  locations <- _ensure_correct_folder_name (Context.locations ctx) ;;
  let ctx := Context.set_locations locations ctx in
  (* only here so filenames in header are up-to-date *)
  ctx <- _maybe_write_txt ctx ;;
  _persist_tempfiles ctx.

(** The body of the [with tempfile.TemporaryDirectory()] block. *)
Definition in_tempdir (song : UsdbSong.t) (options : Options.t)
    (tempdir : Path) : M Context.t :=
  ctx <- Context.new song options tempdir ;;
  ctx <- download_stage ctx ;;
  commit_stage ctx.

(** [_run_inner]; [song] is [self.song], whose status the first statement
    sets to [DOWNLOADING] before anything can raise. *)
Definition _run_inner (song : UsdbSong.t) (options : Options.t)
    : M UsdbSong.t :=
  let song := UsdbSong.set_status DOWNLOADING song in
  post (SongChanged (UsdbSong.song_id song)) ;;
  ctx <- with_TemporaryDirectory (in_tempdir song options) ;;
  ctx <- _write_sync_meta ctx ;;
  ret (Context.song ctx).

(** [run]; the result is [self.song] as the run leaves it. *)
Definition run (song : UsdbSong.t) (options : Options.t) : M UsdbSong.t :=
  let song_id := UsdbSong.song_id song in
  r <- try (_run_inner song options) ;;
  let song := UsdbSong.set_status DOWNLOADING song in
  '(song, change_event) <-
    match r with
    | inl UsdbLoginError =>
        log ERROR "Aborted; download requires login." ;;
        ret (UsdbSong.set_status FAILED song, SongChanged song_id)
    | inl UsdbNotFoundError =>
        log ERROR "Song has been deleted from USDB." ;;
        delete song ;;
        ret (song, SongDeleted song_id)
    | inl (OtherError _) =>
        log DEBUG "traceback" ;;
        log ERROR ("Failed to finish download due to an unexpected error. "
                   ^^ "See debug log for more information.") ;;
        ret (UsdbSong.set_status FAILED song, SongChanged song_id)
    | inr updated_song =>
        upsert (UsdbSong.set_status NONE updated_song) ;;
        log INFO "All done!" ;;
        ret (song, SongChanged song_id)
    end ;;
  post change_event ;;
  post (DownloadFinished song_id) ;;
  ret song.

End WithExternal.
End SongLoader.

(** * Properties *)

(** ** A concrete set of collaborators, for examples *)

Module Demo.

(** The part of a file name after its first dot. *)
Fixpoint extension (s : string) : string :=
  match s with
  | EmptyString => ""
  | String c rest => if Ascii.eqb c "."%char then rest else extension rest
  end.

Definition details : SongDetails.t :=
  SongDetails.mk 1 "Artist" "Title" (Some "uploader") None false 3 100
    ["https://video.example/c1"; "https://video.example/c2"].

Definition meta_tags : MetaTags.t :=
  MetaTags.mk (Some "https://audio.example/a") (Some "https://video.example/v")
    (Some (ImageMetaTags.mk "https://img.example/cover.jpg"))
    (Some (ImageMetaTags.mk "https://img.example/bg.jpg")).

Definition headers : Headers.t :=
  Headers.mk "Artist" "Title" (Some "English") None None None None
    None None None None.

Definition txt : SongTxt.t := SongTxt.mk headers meta_tags.

(** Collaborators with the given downloaders.  Song 404 is gone from USDB,
    song 403 needs a login, the notes of song 500 do not parse. *)
Definition make (dl_audio dl_video : string -> option string)
    (dl_image : string -> Path -> ImageKind.t -> option Path) : External := {|
  sanitize_filename := fun s => s;
  next_unique_directory := fun f p =>
    if fs_exists f p then with_name p (name p ^^ " (1)") else p;
  is_name_maybe_with_suffix := fun text stem => String.prefix stem text;
  resource_file_ending := extension;
  is_in_sync := fun f old folder =>
    fs_exists f (joinpath folder (ResourceFile.fname old));
  SyncMetaId_new := 7;
  to_filename := fun _ => "meta.usdb";
  SongTxt_parse := fun s =>
    if String.eqb s "notes" then inr txt else inl (OtherError "ParseError");
  is_audio_only := fun m => truthy (MetaTags.audio m)
                            && negb (truthy (MetaTags.video m));
  minimum_song_length := fun _ => "03:00";
  get_usdb_details := fun id =>
    if Nat.eqb id 404 then inl UsdbNotFoundError
    else if Nat.eqb id 403 then inl UsdbLoginError
    else inr (SongDetails.mk id "Artist" "Title" (Some "uploader") None false
                3 100
                ["https://video.example/c1"; "https://video.example/c2"]);
  get_notes := fun id => if Nat.eqb id 500 then inr "garbage" else inr "notes";
  usdb_url := fun _ => "https://usdb.example/song";
  download_audio := dl_audio;
  download_video := dl_video;
  download_and_process_image := dl_image;
  tags_save := fun _ _ => true;
  mkdtemp := fun _ => ["tmp"; "usdb"]
|}.

(** Only the second comment video can be downloaded (as audio and as video);
    both images can. *)
Definition external : External :=
  make
    (fun r => if String.eqb r "https://video.example/c2" then Some "m4a"
              else None)
    (fun r => if String.eqb r "https://video.example/c2" then Some "mp4"
              else None)
    (fun url stem kind =>
       Some (with_name stem
               (name stem ^^ match kind with
                             | ImageKind.COVER => ".cover.jpg"
                             | ImageKind.BACKGROUND => ".background.jpg"
                             end))).

(** Every download fails. *)
Definition offline : External :=
  make (fun _ => None) (fun _ => None) (fun _ _ _ => None).

Definition options : Options.t :=
  Options.mk ["songs"]
    (Some (Options.Build_TxtOptions))
    (Some (Options.Build_AudioOptions true))
    (Some (Options.Build_VideoOptions))
    (Some (Options.Build_CoverOptions None))
    (Some (Options.Build_BackgroundOptions (fun _ => true))).

Definition song (id : SongId) : UsdbSong.t :=
  UsdbSong.mk id "Artist" "Title" "" "" false 0 0 None PENDING.

(** A library with an empty song directory. *)
Definition world : World :=
  mkWorld (fun p => if path_eqb p ["songs"] then Some Dir else None)
    (fun _ => None) [].

Definition locations : Locations.t :=
  Locations.mk ["songs"; "Artist - Title"] "Artist - Title" ["tmp"; "usdb"].

(** A context as [Context.new] builds it for a song without sync meta. *)
Definition ctx : Context.t :=
  Context.mk (song 1) details options txt locations TempResourceFiles.empty.

End Demo.

(** ** Reasoning about the monad *)

Lemma bind_inr {A B : Type} (c : M A) (k : A -> M B) w b w' :
  bind c k w = (inr b, w') ->
  exists a w1, c w = (inr a, w1) /\ k a w1 = (inr b, w').
Proof.
  unfold bind. destruct (c w) as [[e | a] w1]; intros E.
  - discriminate.
  - exists a, w1. split; [reflexivity | exact E].
Qed.

Lemma bind_run {A B : Type} (c : M A) (k : A -> M B) w a w1 :
  c w = (inr a, w1) -> bind c k w = k a w1.
Proof. intros E. unfold bind. rewrite E. reflexivity. Qed.

(** Invert a successful run of a sequence of binds. *)
Ltac inv_bind H :=
  let a := fresh "a" in
  let w := fresh "w" in
  let E := fresh "E" in
  apply bind_inr in H; destruct H as (a & w & E & H).

Tactic Notation "inv_bind_as" hyp(H) ident(a) ident(w) ident(E) :=
  apply bind_inr in H; destruct H as (a & w & E & H).

Lemma for_ext {X S : Type} (xs : list X) (b1 b2 : X -> S -> M S) :
  (forall x s w, b1 x s w = b2 x s w) ->
  forall s w, for_ xs b1 s w = for_ xs b2 s w.
Proof.
  intros Hb. induction xs as [| x xs IH]; intros s w; simpl; [reflexivity |].
  unfold bind. rewrite Hb. destruct (b2 x s w) as [[e | s'] w1]; auto.
Qed.

(** ** Which calls a computation makes *)

(** What a call does to the file system. *)
Definition apply_event (e : Event) (f : FS) : FS :=
  match e with
  | Trash p => fs_remove f p
  | Rename src dst => fs_rename f src dst
  | Mkdir p => fs_mkdir f p
  | WriteFile p c => fs_write f p (File c)
  | MkDtemp p => fs_write f p Dir
  | RmTree p => fs_remove f p
  | _ => f
  end.

Fixpoint replay (evs : list Event) (f : FS) : FS :=
  match evs with
  | [] => f
  | e :: rest => replay rest (apply_event e f)
  end.

Lemma replay_app a b f : replay (a ++ b) f = replay b (replay a f).
Proof. revert f. induction a as [| e a IH]; intros f; simpl; auto. Qed.

(** Calls that leave the file system alone. *)
Definition neutral (e : Event) : bool :=
  match e with
  | Log _ _ | FetchAudio _ | FetchVideo _ | FetchImage _ _ | WriteTags _ _
  | Post _ => true
  | _ => false
  end.

Lemma neutral_apply e f : neutral e = true -> apply_event e f = f.
Proof. destruct e; simpl; intros; try reflexivity; discriminate. Qed.

(** [only p c]: whatever [c] does, the calls it adds to the trace satisfy
    [p], and they account for every change of the file system. *)
Definition only {A : Type} (p : Event -> bool) (c : M A) : Prop :=
  forall w, exists evs,
    trace (snd (c w)) = trace w ++ evs
    /\ fs (snd (c w)) = replay evs (fs w)
    /\ forallb p evs = true.

Section Only.
Variable p : Event -> bool.

Lemma only_ret {A : Type} (a : A) : only p (ret a).
Proof. intros w. exists []. simpl. rewrite app_nil_r. auto. Qed.

Lemma only_raise {A : Type} (e : Exn) : only p (@raise A e).
Proof. intros w. exists []. simpl. rewrite app_nil_r. auto. Qed.

Lemma only_bind {A B : Type} (c : M A) (k : A -> M B) :
  only p c -> (forall a, only p (k a)) -> only p (bind c k).
Proof.
  intros Hc Hk w. unfold bind.
  destruct (Hc w) as (evs & Et & Ef & Ep).
  destruct (c w) as [[e | a] w1]; simpl in *.
  - exists evs. auto.
  - destruct (Hk a w1) as (evs' & Et' & Ef' & Ep').
    exists (evs ++ evs').
    rewrite Et', Et, Ef', Ef, app_assoc, replay_app, forallb_app, Ep, Ep'.
    auto.
Qed.

Lemma only_emit (e : Event) :
  p e = true -> neutral e = true -> only p (emit e).
Proof.
  intros He Hn w. exists [e]. simpl. rewrite He, (neutral_apply e _ Hn). auto.
Qed.

Lemma only_get_fs : only p get_fs.
Proof. intros w. exists []. simpl. rewrite app_nil_r. auto. Qed.

Lemma only_lift {A : Type} (r : Exn + A) : only p (lift r).
Proof. destruct r; [apply only_raise | apply only_ret]. Qed.

Lemma only_try {A : Type} (c : M A) : only p c -> only p (try c).
Proof.
  intros Hc w. destruct (Hc w) as (evs & Et & Ef & Ep). exists evs.
  unfold try. destruct (c w). auto.
Qed.

Lemma only_upsert s : only p (upsert s).
Proof. intros w. exists []. simpl. rewrite app_nil_r. auto. Qed.

Lemma only_delete s : only p (delete s).
Proof. intros w. exists []. simpl. rewrite app_nil_r. auto. Qed.

Lemma only_exists_ q : only p (exists_ q).
Proof. intros w. exists []. simpl. rewrite app_nil_r. auto. Qed.

Lemma only_read_bytes q : only p (read_bytes q).
Proof.
  intros w. exists []. unfold read_bytes, bind, get_fs. simpl.
  destruct (fs w q) as [[| c] |]; simpl; rewrite app_nil_r; auto.
Qed.

Lemma only_send2trash q : p (Trash q) = true -> only p (send2trash q).
Proof. intros Hp w. exists [Trash q]. simpl. rewrite Hp. auto. Qed.

Lemma only_rename a b : p (Rename a b) = true -> only p (rename a b).
Proof.
  intros Hp w. unfold rename, bind, get_fs. simpl.
  destruct (fs_exists (fs w) a); simpl.
  - exists [Rename a b]. simpl. rewrite Hp. auto.
  - exists []. simpl. rewrite app_nil_r. auto.
Qed.

Lemma only_mkdir q : p (Mkdir q) = true -> only p (mkdir q).
Proof.
  intros Hp w. unfold mkdir, bind, get_fs. simpl.
  destruct (fs w q) as [[| c] |] eqn:Eq; simpl.
  - exists [Mkdir q]. simpl. rewrite Hp. auto.
  - exists []. simpl. rewrite app_nil_r. auto.
  - exists [Mkdir q]. simpl. rewrite Hp. auto.
Qed.

Lemma only_write_file q c : p (WriteFile q c) = true -> only p (write_file q c).
Proof. intros Hp w. exists [WriteFile q c]. simpl. rewrite Hp. auto. Qed.

Lemma only_with_TemporaryDirectory `{External} {A : Type} (body : Path -> M A) :
  (forall t, p (MkDtemp t) = true) -> (forall t, p (RmTree t) = true) ->
  (forall t, only p (body t)) -> only p (with_TemporaryDirectory body).
Proof.
  intros Hm Hr Hb w. unfold with_TemporaryDirectory.
  destruct (Hb (mkdtemp (fs w))
              (mkWorld (fs_write (fs w) (mkdtemp (fs w)) Dir) (db w)
                 (trace w ++ [MkDtemp (mkdtemp (fs w))])))
    as (evs & Et & Ef & Ep).
  exists (MkDtemp (mkdtemp (fs w)) :: evs ++ [RmTree (mkdtemp (fs w))]).
  destruct (body _ _). simpl in *.
  rewrite Et, Ef, replay_app, <- !app_assoc, Hm, forallb_app, Ep. simpl.
  rewrite Hr. auto.
Qed.

Lemma only_for_ {X S : Type} (xs : list X) (body : X -> S -> M S) (s : S) :
  (forall x s', only p (body x s')) -> only p (for_ xs body s).
Proof.
  intros Hb. revert s. induction xs as [| x xs IH]; intros s; simpl.
  - apply only_ret.
  - apply only_bind; [apply Hb | intros; apply IH].
Qed.

End Only.

Lemma only_weaken {A : Type} (p q : Event -> bool) (c : M A) :
  (forall e, p e = true -> q e = true) -> only p c -> only q c.
Proof.
  intros Hpq Hc w. destruct (Hc w) as (evs & Et & Ef & Ep). exists evs.
  split; [exact Et |]. split; [exact Ef |]. rewrite forallb_forall in *. auto.
Qed.

(** Take a computation apart along its binds and branches; what is left are
    the conditions [p e = true] on the calls it makes. *)
Ltac only_step :=
  match goal with
  | |- only _ (bind _ _) => apply only_bind; [| intros]
  | |- only _ (ret _) => apply only_ret
  | |- only _ (raise _) => apply only_raise
  | |- only _ (emit _) => apply only_emit
  | |- only _ (log _ _) => apply only_emit
  | |- only _ (post _) => apply only_emit
  | |- only _ get_fs => apply only_get_fs
  | |- only _ (lift _) => apply only_lift
  | |- only _ (try _) => apply only_try
  | |- only _ (upsert _) => apply only_upsert
  | |- only _ (delete _) => apply only_delete
  | |- only _ (exists_ _) => apply only_exists_
  | |- only _ (read_bytes _) => apply only_read_bytes
  | |- only _ (send2trash _) => apply only_send2trash
  | |- only _ (rename _ _) => apply only_rename
  | |- only _ (mkdir _) => apply only_mkdir
  | |- only _ (write_file _ _) => apply only_write_file
  | |- only _ (when ?b _) => destruct b; unfold when
  | |- only _ (if ?b then _ else _) => destruct b
  | |- only _ (match ?x with _ => _ end) => destruct x
  | |- only _ (let '(_, _) := ?x in _) => destruct x
  end.

Ltac only_tac := repeat only_step; auto.

(** The kinds of events. *)
Definition is_log (e : Event) : bool :=
  match e with Log _ _ => true | _ => false end.
Definition is_fetch (e : Event) : bool :=
  match e with
  | FetchAudio _ | FetchVideo _ | FetchImage _ _ => true
  | _ => false
  end.
Definition is_file_op (e : Event) : bool :=
  match e with
  | Trash _ | Rename _ _ | Mkdir _ | WriteFile _ _ | WriteTags _ _ => true
  | _ => false
  end.
Definition is_post (e : Event) : bool :=
  match e with Post _ => true | _ => false end.

(** The statements a generator runs between its candidates. *)
Definition effects_ok (p : Event -> bool) (items : list GenItem) : bool :=
  forallb
    (fun it =>
       match it with
       | Effect e => p e && neutral e
       | Yield _ => true
       end) items.

Lemma effects_ok_islice p items n :
  effects_ok p items = true -> effects_ok p (islice items n) = true.
Proof.
  revert n. induction items as [| [r | e] items IH]; intros n Hi.
  - destruct n; reflexivity.
  - destruct n; [reflexivity |]. simpl in *. auto.
  - destruct n; [reflexivity |]. simpl in *.
    apply andb_true_iff in Hi. destruct Hi as [He Hi].
    rewrite He. simpl. apply (IH (S n)). exact Hi.
Qed.

Lemma effects_ok_app p a b :
  effects_ok p (a ++ b) = effects_ok p a && effects_ok p b.
Proof. apply forallb_app. Qed.

Lemma effects_ok_yields p l : effects_ok p (map Yield l) = true.
Proof. induction l; simpl; auto. Qed.

Section OnlyStages.
Context `{External}.
Variable p : Event -> bool.
Hypothesis p_log : forall l m, p (Log l m) = true.
Hypothesis p_file_op : forall e, is_file_op e = true -> p e = true.

Lemma effects_ok_video ctx : effects_ok p (Context.all_video_resources ctx) = true.
Proof.
  unfold Context.all_video_resources. rewrite effects_ok_app, effects_ok_yields.
  destruct (MetaTags.video _) as [v |]; [destruct (str_truthy v) |]; reflexivity.
Qed.

Lemma effects_ok_audio ctx : effects_ok p (Context.all_audio_resources ctx) = true.
Proof.
  unfold Context.all_audio_resources.
  rewrite !effects_ok_app, effects_ok_video.
  destruct (MetaTags.audio _) as [a |]; [destruct (str_truthy a) |];
    destruct (truthy _); simpl; rewrite ?p_log; reflexivity.
Qed.

Lemma only_get_usdb_data id : only p (_get_usdb_data id).
Proof. unfold _get_usdb_data. only_tac. Qed.

Lemma only_Context_new song options tempdir :
  only p (Context.new song options tempdir).
Proof.
  unfold Context.new. apply only_bind; [apply only_get_usdb_data |].
  intros [details txt]. only_tac.
Qed.

Lemma only_cover_url ctx : only p (Context.cover_url ctx).
Proof. unfold Context.cover_url. only_tac. Qed.

Lemma only_background_url ctx : only p (Context.background_url ctx).
Proof. unfold Context.background_url. only_tac. Qed.

Lemma only_maybe_write_txt ctx : only p (_maybe_write_txt ctx).
Proof. unfold _maybe_write_txt. only_tac. Qed.

Lemma only_read_images l : only p (read_images l).
Proof.
  induction l as [| [i |] l IH]; simpl; only_tac.
Qed.

Lemma only_save_tags fmt path : only p (save_tags fmt path).
Proof. unfold save_tags. only_tac. Qed.

Lemma only_maybe_write_audio_tags ctx : only p (_maybe_write_audio_tags ctx).
Proof.
  unfold _maybe_write_audio_tags, _write_m4a_tags, _write_mp3_tags,
    _write_ogg_tags.
  only_tac; first [apply only_read_images | apply only_save_tags].
Qed.

Lemma only_cleanup_slot l old out : only p (cleanup_slot l old out).
Proof.
  unfold cleanup_slot. only_tac.
Qed.

Lemma only_cleanup_exisiting_resource ctx :
  only p (_cleanup_exisiting_resource ctx).
Proof.
  unfold _cleanup_exisiting_resource.
  destruct (UsdbSong.sync_meta _); [| apply only_ret].
  apply only_bind; [| intros; apply only_ret].
  apply only_for_. intros [[old kind] k] out.
  apply only_bind; [apply only_cleanup_slot | intros; apply only_ret].
Qed.

Lemma only_ensure_correct_folder_name l :
  only p (_ensure_correct_folder_name l).
Proof.
  unfold _ensure_correct_folder_name. only_tac.
Qed.

Lemma only_persist_slot l t : only p (persist_slot l t).
Proof.
  unfold persist_slot. only_tac.
Qed.

Lemma only_persist_tempfiles ctx : only p (_persist_tempfiles ctx).
Proof.
  unfold _persist_tempfiles.
  apply only_bind; [| intros; apply only_ret].
  apply only_for_. intros k out.
  apply only_bind; [apply only_persist_slot | intros; apply only_ret].
Qed.

Lemma only_commit_stage ctx : only p (SongLoader.commit_stage ctx).
Proof.
  unfold SongLoader.commit_stage.
  apply only_bind; [apply only_cleanup_exisiting_resource | intros].
  apply only_bind; [apply only_ensure_correct_folder_name | intros].
  apply only_bind; [apply only_maybe_write_txt | intros].
  apply only_persist_tempfiles.
Qed.

Lemma only_write_sync_meta ctx : only p (_write_sync_meta ctx).
Proof.
  unfold _write_sync_meta. only_tac.
Qed.

(** The download stage also fetches. *)
Hypothesis p_fetch : forall e, is_fetch e = true -> p e = true.

Lemma only_resource_dl_download_audio r s :
  only p (resource_dl_download_audio r s).
Proof.
  unfold resource_dl_download_audio. only_tac.
Qed.

Lemma only_resource_dl_download_video r s :
  only p (resource_dl_download_video r s).
Proof.
  unfold resource_dl_download_video. only_tac.
Qed.

Lemma only_resource_dl_download_and_process_image u s k :
  only p (resource_dl_download_and_process_image u s k).
Proof.
  unfold resource_dl_download_and_process_image. only_tac.
Qed.

Lemma only_audio_loop items ctx :
  effects_ok p items = true -> only p (audio_loop items ctx).
Proof.
  induction items as [| [r | e] items IH]; simpl; intros Hi.
  - apply only_ret.
  - destruct (opt_eqb _ r); [only_tac |].
    apply only_bind; [apply only_resource_dl_download_audio | intros ext].
    destruct (truthy ext); [only_tac | auto].
  - apply andb_true_iff in Hi. destruct Hi as [He Hi].
    apply andb_true_iff in He. destruct He as [He Hn].
    apply only_bind; [apply only_emit; assumption | auto].
Qed.

Lemma only_video_loop items ctx :
  effects_ok p items = true -> only p (video_loop items ctx).
Proof.
  induction items as [| [r | e] items IH]; simpl; intros Hi.
  - apply only_ret.
  - destruct (opt_eqb _ r); [only_tac |].
    apply only_bind; [apply only_resource_dl_download_video | intros ext].
    destruct (truthy ext); [only_tac | auto].
  - apply andb_true_iff in Hi. destruct Hi as [He Hi].
    apply andb_true_iff in He. destruct He as [He Hn].
    apply only_bind; [apply only_emit; assumption | auto].
Qed.

Lemma only_maybe_download_audio ctx : only p (_maybe_download_audio ctx).
Proof.
  unfold _maybe_download_audio. destruct (Options.audio_options _);
    [| apply only_ret].
  apply only_bind.
  - apply only_audio_loop, effects_ok_islice, effects_ok_audio.
  - intros [c |]; only_tac.
Qed.

Lemma only_maybe_download_video ctx : only p (_maybe_download_video ctx).
Proof.
  unfold _maybe_download_video. destruct (Options.video_options _);
    [| apply only_ret].
  destruct (is_audio_only _); [apply only_ret |].
  apply only_bind.
  - apply only_video_loop, effects_ok_islice, effects_ok_video.
  - intros [c |]; only_tac.
Qed.

Lemma only_maybe_download_cover ctx : only p (_maybe_download_cover ctx).
Proof.
  unfold _maybe_download_cover. destruct (Options.cover _); [| apply only_ret].
  apply only_bind; [apply only_cover_url | intros url].
  destruct (negb (truthy url)); [only_tac |].
  destruct (opt_eqb _ _); [only_tac |].
  apply only_bind; [apply only_resource_dl_download_and_process_image |].
  intros [path |]; only_tac.
Qed.

Lemma only_maybe_download_background ctx :
  only p (_maybe_download_background ctx).
Proof.
  unfold _maybe_download_background.
  destruct (Options.background_options _); [| apply only_ret].
  destruct (negb _); [apply only_ret |].
  apply only_bind; [apply only_background_url | intros url].
  destruct (negb (truthy url)); [only_tac |].
  destruct (opt_eqb _ _); [only_tac |].
  apply only_bind; [apply only_resource_dl_download_and_process_image |].
  intros [path |]; only_tac.
Qed.

Lemma only_download_stage ctx : only p (SongLoader.download_stage ctx).
Proof.
  unfold SongLoader.download_stage.
  apply only_bind; [apply only_maybe_download_audio | intros].
  apply only_bind; [apply only_maybe_download_video | intros].
  apply only_bind; [apply only_maybe_download_cover | intros].
  apply only_bind; [apply only_maybe_download_background | intros].
  apply only_bind; [apply only_maybe_write_audio_tags | intros].
  apply only_ret.
Qed.

Lemma only_in_tempdir song options tempdir :
  only p (SongLoader.in_tempdir song options tempdir).
Proof.
  unfold SongLoader.in_tempdir.
  apply only_bind; [apply only_Context_new | intros].
  apply only_bind; [apply only_download_stage | intros].
  apply only_commit_stage.
Qed.

End OnlyStages.

(** ** The orchestrator: notifications and the deletion path *)

(** The notifications posted, in order. *)
Fixpoint posts (t : list Event) : list Notification :=
  match t with
  | [] => []
  | Post n :: rest => n :: posts rest
  | _ :: rest => posts rest
  end.

Definition not_post (e : Event) : bool := negb (is_post e).

Lemma posts_app a b : posts (a ++ b) = posts a ++ posts b.
Proof.
  induction a as [| e a IH]; simpl; [reflexivity |].
  destruct e; simpl; rewrite ?IH; reflexivity.
Qed.

Lemma posts_not_post evs : forallb not_post evs = true -> posts evs = [].
Proof.
  induction evs as [| e evs IH]; simpl; [reflexivity |].
  intros Hp. apply andb_true_iff in Hp. destruct Hp as [He Hp].
  destruct e; simpl; auto; discriminate.
Qed.

Lemma not_post_file_op e : is_file_op e = true -> not_post e = true.
Proof. destruct e; simpl; intros; try reflexivity; discriminate. Qed.

Lemma not_post_fetch e : is_fetch e = true -> not_post e = true.
Proof. destruct e; simpl; intros; try reflexivity; discriminate. Qed.

Lemma is_under_refl p : is_under p p = true.
Proof.
  unfold is_under. induction p as [| a p IH]; simpl; [reflexivity |].
  rewrite String.eqb_refl. exact IH.
Qed.

Section Run.
Context `{External}.

(** Apart from the notification on entering [DOWNLOADING], [_run_inner]
    posts nothing. *)
Lemma run_inner_posts song options w :
  exists evs,
    trace (snd (SongLoader._run_inner song options w))
    = trace w ++ Post (SongChanged (UsdbSong.song_id song)) :: evs
    /\ forallb not_post evs = true.
Proof.
  assert (Hrest : only not_post
            (ctx <- with_TemporaryDirectory
                      (SongLoader.in_tempdir
                         (UsdbSong.set_status DOWNLOADING song) options) ;;
             ctx <- _write_sync_meta ctx ;;
             ret (Context.song ctx))).
  { apply only_bind.
    - apply only_with_TemporaryDirectory; try reflexivity. intros t.
      apply only_in_tempdir;
        [reflexivity | apply not_post_file_op | apply not_post_fetch].
    - intros ctx. apply only_bind; [| intros; apply only_ret].
      apply only_write_sync_meta. apply not_post_file_op. }
  unfold SongLoader._run_inner.
  rewrite (bind_run _ _ w tt
             (mkWorld (fs w) (db w)
                (trace w ++ [Post (SongChanged (UsdbSong.song_id song))])));
    [| reflexivity].
  destruct (Hrest (mkWorld (fs w) (db w)
                     (trace w ++ [Post (SongChanged (UsdbSong.song_id song))])))
    as (evs & Et & _ & Ep).
  exists evs. simpl in *. rewrite Et, <- app_assoc. auto.
Qed.

(** The terminal notification of a run, given how [_run_inner] ended. *)
Definition terminal_event (id : SongId) (r : Exn + UsdbSong.t) : Notification :=
  match r with
  | inl UsdbNotFoundError => SongDeleted id
  | _ => SongChanged id
  end.

(** [_get_usdb_data] only logs; it leaves files and library alone. *)
Lemma get_usdb_data_world id w :
  exists evs,
    snd (_get_usdb_data id w) = mkWorld (fs w) (db w) (trace w ++ evs)
    /\ forallb is_log evs = true.
Proof.
  unfold _get_usdb_data, bind, lift, log, emit, ret, raise.
  destruct (get_usdb_details id) as [e | d]; simpl.
  - exists []. rewrite app_nil_r. destruct w; auto.
  - destruct (get_notes _) as [e | s]; simpl.
    + eexists [_]. split; reflexivity.
    + destruct (SongTxt_parse s) as [e | t]; simpl;
        eexists [_]; split; reflexivity.
Qed.

End Run.

Section RunClaims.
Context `{External}.

(** C9.  Every run returns normally, whatever [_run_inner] did (returned a
    song, or raised a login, not-found or any other error), and after the
    notification that the song entered [DOWNLOADING] it posts exactly one
    terminal song notification ([SongDeleted] on the deletion path,
    [SongChanged] otherwise) followed by exactly one [DownloadFinished]. *)
Theorem run_posts_one_terminal_event song options w :
  exists song' w',
    SongLoader.run song options w = (inr song', w')
    /\ posts (trace w')
       = posts (trace w)
         ++ [SongChanged (UsdbSong.song_id song);
             terminal_event (UsdbSong.song_id song)
               (fst (SongLoader._run_inner song options w));
             DownloadFinished (UsdbSong.song_id song)].
Proof.
  destruct (run_inner_posts song options w) as (evs & Et & Ep).
  unfold SongLoader.run, bind, try.
  destruct (SongLoader._run_inner song options w) as [r w1]. simpl in Et.
  destruct r as [[| | what] | updated]; simpl; eexists; eexists;
    (split; [reflexivity |]); simpl; rewrite Et;
    repeat (rewrite posts_app; simpl);
    rewrite (posts_not_post evs Ep); rewrite <- ?app_assoc; reflexivity.
Qed.

(** The file system outside the scratch directory, the library and the
    trace after a run whose metadata fetch reports the song gone. *)
Lemma run_inner_gone song options w :
  (forall w0, fst (_get_usdb_data (UsdbSong.song_id song) w0)
              = inl UsdbNotFoundError) ->
  exists evs,
    SongLoader._run_inner song options w
    = (inl UsdbNotFoundError,
       mkWorld
         (fs_remove (fs_write (fs w) (mkdtemp (fs w)) Dir) (mkdtemp (fs w)))
         (db w)
         (trace w
          ++ Post (SongChanged (UsdbSong.song_id song))
             :: MkDtemp (mkdtemp (fs w)) :: evs ++ [RmTree (mkdtemp (fs w))]))
    /\ forallb is_log evs = true.
Proof.
  intros Hgone.
  unfold SongLoader._run_inner, bind at 1, post, emit.
  unfold bind at 1, with_TemporaryDirectory.
  cbn [fs db trace].
  unfold SongLoader.in_tempdir, bind at 1, Context.new, bind at 1.
  cbn [UsdbSong.song_id UsdbSong.set_status].
  set (w1 := mkWorld _ _ _).
  pose proof (Hgone w1) as Hg.
  destruct (get_usdb_data_world (UsdbSong.song_id song) w1) as (evs & Ew & El).
  destruct (_get_usdb_data (UsdbSong.song_id song) w1) as [r w2].
  simpl in Hg, Ew. subst r w2. exists evs. simpl.
  rewrite <- !app_assoc. auto.
Qed.

(** C6.  When the metadata fetch reports that the song is gone from USDB,
    the run leaves every path outside its scratch directory as it was, makes
    no file operation and no resource fetch, removes the song from the
    library, and posts [SongDeleted] (not [SongChanged]) as its terminal
    notification. *)
Theorem run_deleted_song_touches_no_file song options w :
  (forall w0, fst (_get_usdb_data (UsdbSong.song_id song) w0)
              = inl UsdbNotFoundError) ->
  exists song' w' evs,
    SongLoader.run song options w = (inr song', w')
    /\ (forall p, is_under (mkdtemp (fs w)) p = false -> fs w' p = fs w p)
    /\ trace w' = trace w ++ evs
    /\ forallb (fun e => negb (is_file_op e) && negb (is_fetch e)) evs = true
    /\ posts evs = [SongChanged (UsdbSong.song_id song);
                    SongDeleted (UsdbSong.song_id song);
                    DownloadFinished (UsdbSong.song_id song)]
    /\ db w' (UsdbSong.song_id song) = None
    /\ (forall id, id <> UsdbSong.song_id song -> db w' id = db w id).
Proof.
  intros Hgone.
  destruct (run_inner_gone song options w Hgone) as (evs & Er & El).
  unfold SongLoader.run, bind at 1, try. rewrite Er.
  eexists. eexists.
  exists (Post (SongChanged (UsdbSong.song_id song))
          :: MkDtemp (mkdtemp (fs w)) :: evs
          ++ [RmTree (mkdtemp (fs w));
              Log ERROR "Song has been deleted from USDB.";
              Post (SongDeleted (UsdbSong.song_id song));
              Post (DownloadFinished (UsdbSong.song_id song))]).
  split; [reflexivity |]. cbn [fs db trace UsdbSong.song_id UsdbSong.set_status].
  repeat split.
  - intros p Hp. unfold fs_remove, fs_write. rewrite Hp.
    unfold path_eqb. destruct (path_eq_dec p (mkdtemp (fs w))) as [-> |];
      [| reflexivity].
    rewrite is_under_refl in Hp. discriminate.
  - simpl. repeat (rewrite <- app_assoc; simpl). reflexivity.
  - simpl. rewrite forallb_app. simpl. rewrite andb_true_r.
    rewrite forallb_forall in *. intros e He. specialize (El e He).
    destruct e; simpl in *; congruence.
  - simpl. rewrite posts_app. simpl.
    assert (Hp : posts evs = []).
    { apply posts_not_post. rewrite forallb_forall in *. intros e He.
      specialize (El e He). destruct e; simpl in *; try reflexivity;
        discriminate. }
    rewrite Hp. reflexivity.
  - rewrite Nat.eqb_refl. reflexivity.
  - intros id Hid. apply Nat.eqb_neq in Hid. rewrite Hid. reflexivity.
Qed.

End RunClaims.

(** ** Candidates, tag dispatch, the failure log and the record id *)

Lemma yields_app a b : yields (a ++ b) = yields a ++ yields b.
Proof.
  induction a as [| [r | e] a IH]; simpl; rewrite ?IH; reflexivity.
Qed.

Lemma yields_map_Yield l : yields (map Yield l) = l.
Proof. induction l as [| r l IH]; simpl; rewrite ?IH; reflexivity. Qed.

(** The declared URL of a meta tag, as a candidate list. *)
Definition declared (url : option string) : list string :=
  match url with
  | Some u => if str_truthy u then [u] else []
  | None => []
  end.

Lemma video_candidates ctx :
  yields (Context.all_video_resources ctx)
  = declared (MetaTags.video (SongTxt.meta_tags (Context.txt ctx)))
    ++ SongDetails.all_comment_videos (Context.details ctx).
Proof.
  unfold Context.all_video_resources, declared.
  rewrite yields_app, yields_map_Yield.
  destruct (MetaTags.video _) as [v |]; [destruct (str_truthy v) |];
    reflexivity.
Qed.

(** C7, as the spec states it: when an audio URL is declared, the audio
    candidates are that URL alone. *)
Definition audio_url_alone (ctx : Context.t) : Prop :=
  forall a,
    MetaTags.audio (SongTxt.meta_tags (Context.txt ctx)) = Some a ->
    str_truthy a = true ->
    yields (Context.all_audio_resources ctx) = [a].

(** C7 fails for a song that declares both an audio and a video URL: the
    video candidates follow the audio URL. *)
Lemma audio_url_alone_fails : ~ audio_url_alone Demo.ctx.
Proof.
  intros Hc. specialize (Hc "https://audio.example/a" eq_refl eq_refl).
  vm_compute in Hc. discriminate.
Qed.

(** C7, amended.  The audio candidates are the declared audio URL, when
    there is one, followed in every case by the video candidates: the
    declared video URL, when there is one, then the comment videos. *)
Theorem audio_candidates_then_video_candidates ctx :
  yields (Context.all_audio_resources ctx)
  = declared (MetaTags.audio (SongTxt.meta_tags (Context.txt ctx)))
    ++ yields (Context.all_video_resources ctx)
  /\ yields (Context.all_video_resources ctx)
     = declared (MetaTags.video (SongTxt.meta_tags (Context.txt ctx)))
       ++ SongDetails.all_comment_videos (Context.details ctx).
Proof.
  split; [| apply video_candidates].
  unfold Context.all_audio_resources, declared.
  rewrite !yields_app.
  destruct (MetaTags.audio _) as [a |]; [destruct (str_truthy a) |];
    destruct (truthy _); reflexivity.
Qed.

(** [s.endswith(suffix)] *)
Definition ends_with (s suffix : string) : bool :=
  String.eqb
    (substring (String.length s - String.length suffix) (String.length suffix) s)
    suffix
  && Nat.leb (String.length suffix) (String.length s).

Definition tag_writes (t : list Event) : list Event :=
  filter (fun e => match e with WriteTags _ _ => true | _ => false end) t.

(** The demo context with a staged audio file [path] from [resource]. *)
Definition with_audio (path : Path) (resource : string) : Context.t :=
  Context.set_out
    (TempResourceFiles.set_audio
       (TempResourceFile.mk None (Some path) (Some resource))
       TempResourceFiles.empty)
    Demo.ctx.

(** A world in which the staged audio file exists. *)
Definition world_with (path : Path) : World :=
  mkWorld (fs_write (fs Demo.world) path (File (Downloaded "audio")))
    (db Demo.world) [].

(** C1 on the code: the writer is chosen by the resource string, not by the
    file's extension.  For an [.m4a] file downloaded from a URL no writer
    runs although tagging is enabled (and success is logged); a file whose
    resource string happens to be [".m4a"] gets the m4a writer whatever its
    extension. *)
Theorem audio_tags_dispatch_on_resource :
  let m4a := ["tmp"; "usdb"; "Artist - Title.m4a"] in
  let ogg := ["tmp"; "usdb"; "Artist - Title.ogg"] in
  ends_with (name m4a) ".m4a" = true
  /\ trace (snd (@_maybe_write_audio_tags Demo.external
                   (with_audio m4a "https://video.example/c2")
                   (world_with m4a)))
     = [Log DEBUG "Audio tags written to file 'tmp/usdb/Artist - Title.m4a'."]
  /\ tag_writes
       (trace (snd (@_maybe_write_audio_tags Demo.external
                      (with_audio ogg ".m4a") (world_with ogg))))
     = [WriteTags M4A ogg].
Proof. vm_compute. auto. Qed.

(** The demo context with previous cover and background resources. *)
Definition with_images (cover background : option string) : Context.t :=
  Context.set_out
    (TempResourceFiles.mk TempResourceFile.empty TempResourceFile.empty
       TempResourceFile.empty
       (TempResourceFile.mk
          (match cover with
           | Some _ => Some ["songs"; "Artist - Title"; "Artist - Title.cover.jpg"]
           | None => None
           end) None cover)
       (TempResourceFile.mk
          (match background with
           | Some _ =>
               Some ["songs"; "Artist - Title"; "Artist - Title.background.jpg"]
           | None => None
           end) None background))
    Demo.ctx.

Definition errors (t : list Event) : list string :=
  flat_map (fun e => match e with Log ERROR m => [m] | _ => [] end) t.

(** C8 on the code: when the background download fails, whether the log
    says that the last resource is kept depends on the cover slot.  With a
    previous background and no cover the message lacks it; with a previous
    cover and no background the message has it. *)
Theorem background_failure_log_looks_at_cover :
  errors (trace (snd (@_maybe_download_background Demo.offline
                        (with_images None (Some "https://img.example/old.jpg"))
                        Demo.world)))
  = ["Failed to download background!"]
  /\ errors (trace (snd (@_maybe_download_background Demo.offline
                           (with_images (Some "https://img.example/old.jpg")
                              None)
                           Demo.world)))
     = ["Failed to download background! Keeping last resource."].
Proof. vm_compute. auto. Qed.

(** C10.  [_write_sync_meta] always returns, and the record it writes has
    the id and the pinned flag of the record the song had before, when it
    had one; otherwise it has a newly minted id and is not pinned. *)
Theorem write_sync_meta_reuses_id_and_pinned `{External} ctx w :
  exists ctx' w' m,
    _write_sync_meta ctx w = (inr ctx', w')
    /\ UsdbSong.sync_meta (Context.song ctx') = Some m
    /\ match UsdbSong.sync_meta (Context.song ctx) with
       | Some old =>
           SyncMeta.sync_meta_id m = SyncMeta.sync_meta_id old
           /\ SyncMeta.pinned m = SyncMeta.pinned old
       | None =>
           SyncMeta.sync_meta_id m = SyncMetaId_new
           /\ SyncMeta.pinned m = false
       end.
Proof.
  unfold _write_sync_meta.
  eexists. eexists. eexists. split; [reflexivity |].
  split; [reflexivity |].
  destruct (UsdbSong.sync_meta (Context.song ctx)); simpl; auto.
Qed.

(** ** The four downloadable slots *)

Inductive Slot : Type :=
| AudioSlot
| VideoSlot
| CoverSlot
| BackgroundSlot.

Definition kind_of (k : Slot) : ResourceFileKind.t :=
  match k with
  | AudioSlot => ResourceFileKind.AUDIO
  | VideoSlot => ResourceFileKind.VIDEO
  | CoverSlot => ResourceFileKind.COVER
  | BackgroundSlot => ResourceFileKind.BACKGROUND
  end.

Definition slot_of (k : Slot) (o : TempResourceFiles.t) : TempResourceFile.t :=
  TempResourceFiles.get (kind_of k) o.

Definition file_of (k : Slot) (m : SyncMeta.t) : option ResourceFile.t :=
  match k with
  | AudioSlot => SyncMeta.audio m
  | VideoSlot => SyncMeta.video m
  | CoverSlot => SyncMeta.cover m
  | BackgroundSlot => SyncMeta.background m
  end.

(** The URL [cover_url] / [background_url] returns. *)
Definition cover_candidate (ctx : Context.t) : option string :=
  match MetaTags.cover (SongTxt.meta_tags (Context.txt ctx)) with
  | Some tag => Some (ImageMetaTags.source_url tag)
  | None =>
      if truthy (SongDetails.cover_url (Context.details ctx))
      then SongDetails.cover_url (Context.details ctx)
      else None
  end.

Definition background_candidate (ctx : Context.t) : option string :=
  match MetaTags.background (SongTxt.meta_tags (Context.txt ctx)) with
  | Some tag => Some (ImageMetaTags.source_url tag)
  | None => None
  end.

Lemma cover_url_value ctx w url w' :
  Context.cover_url ctx w = (inr url, w') -> url = cover_candidate ctx.
Proof.
  unfold Context.cover_url, cover_candidate.
  destruct (MetaTags.cover _); [intros E; inversion E; reflexivity |].
  destruct (truthy _); intros E; inversion E; reflexivity.
Qed.

Lemma background_url_value ctx w url w' :
  Context.background_url ctx w = (inr url, w') ->
  url = background_candidate ctx.
Proof.
  unfold Context.background_url, background_candidate.
  destruct (MetaTags.background _); intros E; inversion E; reflexivity.
Qed.

Section Slots.
Context `{External}.

(** The candidates of a slot, as the download stage walks them. *)
Definition candidates (k : Slot) (ctx : Context.t) : list string :=
  match k with
  | AudioSlot => yields (islice (Context.all_audio_resources ctx) 10)
  | VideoSlot => yields (islice (Context.all_video_resources ctx) 10)
  | CoverSlot => declared (cover_candidate ctx)
  | BackgroundSlot => declared (background_candidate ctx)
  end.

(** What fetching candidate [r] of slot [k] gives: the path of the
    downloaded file in the temporary directory, or nothing. *)
Definition fetch (k : Slot) (ctx : Context.t) (r : string) : option Path :=
  let l := Context.locations ctx in
  match k with
  | AudioSlot =>
      match download_audio r with
      | Some ext =>
          if str_truthy ext then Some (Locations.temp_path l "" ext) else None
      | None => None
      end
  | VideoSlot =>
      match download_video r with
      | Some ext =>
          if str_truthy ext then Some (Locations.temp_path l "" ext) else None
      | None => None
      end
  | CoverSlot =>
      download_and_process_image r (Locations.temp_path l "" "") ImageKind.COVER
  | BackgroundSlot =>
      download_and_process_image r (Locations.temp_path l "" "") ImageKind.BACKGROUND
  end.

(** Slot [k] went from [a] to [a'] in the download stage: nothing happened
    to it, or a candidate was fetched and staged. *)
Definition downloaded (k : Slot) (ctx : Context.t)
    (a a' : TempResourceFile.t) : Prop :=
  a' = a
  \/ exists r p,
       In r (candidates k ctx) /\ fetch k ctx r = Some p /\ a' = staged r p a.

End Slots.

(** ** What the download stage does to the staged slots *)

Section DownloadLemmas.
Context `{External}.

Lemma resource_dl_download_audio_run r s w :
  exists w', resource_dl_download_audio r s w = (inr (download_audio r), w').
Proof.
  unfold resource_dl_download_audio, bind, emit, write_file, bind, get_fs,
    set_fs, emit, ret.
  destruct (download_audio r); simpl; eexists; reflexivity.
Qed.

Lemma resource_dl_download_video_run r s w :
  exists w', resource_dl_download_video r s w = (inr (download_video r), w').
Proof.
  unfold resource_dl_download_video, bind, emit, write_file, bind, get_fs,
    set_fs, emit, ret.
  destruct (download_video r); simpl; eexists; reflexivity.
Qed.

Lemma resource_dl_download_and_process_image_run u s k w :
  exists w',
    resource_dl_download_and_process_image u s k w
    = (inr (download_and_process_image u s k), w').
Proof.
  unfold resource_dl_download_and_process_image, bind, emit, write_file, bind,
    get_fs, set_fs, emit, ret.
  destruct (download_and_process_image u s k); simpl; eexists; reflexivity.
Qed.

Lemma log_run l m w : log l m w = (inr tt, mkWorld (fs w) (db w) (trace w ++ [Log l m])).
Proof. reflexivity. Qed.

(** How the audio loop can end: candidates exhausted, a candidate equal to
    the slot's resource, or a successful download, which stages the file. *)
Lemma audio_loop_spec items ctx w res w' :
  audio_loop items ctx w = (inr res, w') ->
  res = None
  \/ res = Some ctx
  \/ exists r ext,
       In r (yields items)
       /\ download_audio r = Some ext /\ str_truthy ext = true
       /\ res = Some (Context.set_out
                        (TempResourceFiles.set_audio
                           (staged r
                              (Locations.temp_path (Context.locations ctx) ""
                                 ext)
                              (TempResourceFiles.audio (Context.out ctx)))
                           (Context.out ctx))
                        ctx).
Proof.
  revert w. induction items as [| [r | e] items IH]; intros w; simpl.
  - intros E. inversion E. auto.
  - destruct (opt_eqb _ r).
    + intros E. inversion E. auto.
    + intros E. inv_bind E.
      destruct (resource_dl_download_audio_run r
                  (Locations.temp_path (Context.locations ctx) "" "") w)
        as (w2 & E2).
      rewrite E2 in E0. inversion E0; subst a w0. clear E0.
      destruct (download_audio r) as [ext |] eqn:Ed; simpl in E.
      * destruct (str_truthy ext) eqn:Et.
        -- inversion E. right. right. exists r, ext. simpl. auto.
        -- apply IH in E. destruct E as [-> | [-> | (r' & ext' & Hin & ?)]];
             auto.
           right. right. exists r', ext'. simpl. tauto.
      * apply IH in E. destruct E as [-> | [-> | (r' & ext' & Hin & ?)]];
          auto.
        right. right. exists r', ext'. simpl. tauto.
  - intros E. inv_bind E. apply IH in E.
    destruct E as [-> | [-> | (r' & ext' & Hin & ?)]]; auto.
    right. right. exists r', ext'. tauto.
Qed.

Lemma video_loop_spec items ctx w res w' :
  video_loop items ctx w = (inr res, w') ->
  res = None
  \/ res = Some ctx
  \/ exists r ext,
       In r (yields items)
       /\ download_video r = Some ext /\ str_truthy ext = true
       /\ res = Some (Context.set_out
                        (TempResourceFiles.set_video
                           (staged r
                              (Locations.temp_path (Context.locations ctx) ""
                                 ext)
                              (TempResourceFiles.video (Context.out ctx)))
                           (Context.out ctx))
                        ctx).
Proof.
  revert w. induction items as [| [r | e] items IH]; intros w; simpl.
  - intros E. inversion E. auto.
  - destruct (opt_eqb _ r).
    + intros E. inversion E. auto.
    + intros E. inv_bind E.
      destruct (resource_dl_download_video_run r
                  (Locations.temp_path (Context.locations ctx) "" "") w)
        as (w2 & E2).
      rewrite E2 in E0. inversion E0; subst a w0. clear E0.
      destruct (download_video r) as [ext |] eqn:Ed; simpl in E.
      * destruct (str_truthy ext) eqn:Et.
        -- inversion E. right. right. exists r, ext. simpl. auto.
        -- apply IH in E. destruct E as [-> | [-> | (r' & ext' & Hin & ?)]];
             auto.
           right. right. exists r', ext'. simpl. tauto.
      * apply IH in E. destruct E as [-> | [-> | (r' & ext' & Hin & ?)]];
          auto.
        right. right. exists r', ext'. simpl. tauto.
  - intros E. inv_bind E. apply IH in E.
    destruct E as [-> | [-> | (r' & ext' & Hin & ?)]]; auto.
    right. right. exists r', ext'. tauto.
Qed.

Lemma truthy_declared (o : option string) :
  truthy o = true -> declared o = [or_empty o].
Proof.
  destruct o as [u |]; simpl; [| discriminate]. intros ->. reflexivity.
Qed.

Lemma set_audio_same ctx :
  Context.set_out
    (TempResourceFiles.set_audio (TempResourceFiles.audio (Context.out ctx))
       (Context.out ctx)) ctx = ctx.
Proof. destruct ctx as [s d o t l [x a v c b]]. reflexivity. Qed.

Lemma set_video_same ctx :
  Context.set_out
    (TempResourceFiles.set_video (TempResourceFiles.video (Context.out ctx))
       (Context.out ctx)) ctx = ctx.
Proof. destruct ctx as [s d o t l [x a v c b]]. reflexivity. Qed.

Lemma set_cover_same ctx :
  Context.set_out
    (TempResourceFiles.set_cover (TempResourceFiles.cover (Context.out ctx))
       (Context.out ctx)) ctx = ctx.
Proof. destruct ctx as [s d o t l [x a v c b]]. reflexivity. Qed.

Lemma set_background_same ctx :
  Context.set_out
    (TempResourceFiles.set_background
       (TempResourceFiles.background (Context.out ctx)) (Context.out ctx)) ctx
  = ctx.
Proof. destruct ctx as [s d o t l [x a v c b]]. reflexivity. Qed.

(** Each download function changes its own slot only, and only by staging a
    fetched candidate. *)
Lemma maybe_download_audio_spec ctx w ctx' w' :
  _maybe_download_audio ctx w = (inr ctx', w') ->
  exists a',
    downloaded AudioSlot ctx (TempResourceFiles.audio (Context.out ctx)) a'
    /\ ctx' = Context.set_out
                (TempResourceFiles.set_audio a' (Context.out ctx)) ctx.
Proof.
  assert (Hsame : exists a',
             downloaded AudioSlot ctx (TempResourceFiles.audio (Context.out ctx)) a'
             /\ ctx = Context.set_out
                        (TempResourceFiles.set_audio a' (Context.out ctx)) ctx).
  { eexists. split; [left; reflexivity | symmetry; apply set_audio_same]. }
  unfold _maybe_download_audio.
  destruct (Options.audio_options _); [| intros E; inversion E; subst; auto].
  intros E. inv_bind E. apply audio_loop_spec in E0.
  destruct E0 as [-> | [-> | (r & ext & Hin & Hd & Ht & ->)]].
  - inversion E; subst; auto.
  - inversion E; subst; auto.
  - inversion E. eexists. split; [| reflexivity].
    right. exists r, (Locations.temp_path (Context.locations ctx) "" ext).
    simpl. rewrite Hd, Ht. auto.
Qed.

Lemma maybe_download_video_spec ctx w ctx' w' :
  _maybe_download_video ctx w = (inr ctx', w') ->
  exists a',
    downloaded VideoSlot ctx (TempResourceFiles.video (Context.out ctx)) a'
    /\ ctx' = Context.set_out
                (TempResourceFiles.set_video a' (Context.out ctx)) ctx.
Proof.
  assert (Hsame : exists a',
             downloaded VideoSlot ctx (TempResourceFiles.video (Context.out ctx)) a'
             /\ ctx = Context.set_out
                        (TempResourceFiles.set_video a' (Context.out ctx)) ctx).
  { eexists. split; [left; reflexivity | symmetry; apply set_video_same]. }
  unfold _maybe_download_video.
  destruct (Options.video_options _); [| intros E; inversion E; subst; auto].
  destruct (is_audio_only _); [intros E; inversion E; subst; auto |].
  intros E. inv_bind E. apply video_loop_spec in E0.
  destruct E0 as [-> | [-> | (r & ext & Hin & Hd & Ht & ->)]].
  - inversion E; subst; auto.
  - inversion E; subst; auto.
  - inversion E. eexists. split; [| reflexivity].
    right. exists r, (Locations.temp_path (Context.locations ctx) "" ext).
    simpl. rewrite Hd, Ht. auto.
Qed.

Lemma maybe_download_cover_spec ctx w ctx' w' :
  _maybe_download_cover ctx w = (inr ctx', w') ->
  exists a',
    downloaded CoverSlot ctx (TempResourceFiles.cover (Context.out ctx)) a'
    /\ ctx' = Context.set_out
                (TempResourceFiles.set_cover a' (Context.out ctx)) ctx.
Proof.
  assert (Hsame : exists a',
             downloaded CoverSlot ctx (TempResourceFiles.cover (Context.out ctx)) a'
             /\ ctx = Context.set_out
                        (TempResourceFiles.set_cover a' (Context.out ctx)) ctx).
  { eexists. split; [left; reflexivity | symmetry; apply set_cover_same]. }
  unfold _maybe_download_cover.
  destruct (Options.cover _); [| intros E; inversion E; subst; auto].
  intros E. inv_bind E. apply cover_url_value in E0. subst a.
  destruct (truthy (cover_candidate ctx)) eqn:Hu; simpl in E;
    [| inversion E; subst; auto].
  destruct (opt_eqb _ _); [inversion E; subst; auto |].
  inv_bind E.
  destruct (resource_dl_download_and_process_image_run
              (or_empty (cover_candidate ctx))
              (Locations.temp_path (Context.locations ctx) "" "") ImageKind.COVER w0)
    as (w2 & E2).
  rewrite E2 in E0. inversion E0; subst a w1.
  destruct (download_and_process_image _ _ _) as [path |] eqn:Ed.
  - inversion E. eexists. split; [| reflexivity].
    right. exists (or_empty (cover_candidate ctx)), path. simpl.
    rewrite (truthy_declared _ Hu). simpl. auto.
  - inversion E; subst; auto.
Qed.

Lemma maybe_download_background_spec ctx w ctx' w' :
  _maybe_download_background ctx w = (inr ctx', w') ->
  exists a',
    downloaded BackgroundSlot ctx
      (TempResourceFiles.background (Context.out ctx)) a'
    /\ ctx' = Context.set_out
                (TempResourceFiles.set_background a' (Context.out ctx)) ctx.
Proof.
  assert (Hsame : exists a',
             downloaded BackgroundSlot ctx
               (TempResourceFiles.background (Context.out ctx)) a'
             /\ ctx = Context.set_out
                        (TempResourceFiles.set_background a' (Context.out ctx))
                        ctx).
  { eexists. split; [left; reflexivity | symmetry; apply set_background_same]. }
  unfold _maybe_download_background.
  destruct (Options.background_options _); [| intros E; inversion E; subst; auto].
  destruct (negb (Options.download_background _ _));
    [intros E; inversion E; subst; auto |].
  intros E. inv_bind E. apply background_url_value in E0. subst a.
  destruct (truthy (background_candidate ctx)) eqn:Hu; simpl in E;
    [| inversion E; subst; auto].
  destruct (opt_eqb _ _); [inversion E; subst; auto |].
  inv_bind E.
  destruct (resource_dl_download_and_process_image_run
              (or_empty (background_candidate ctx))
              (Locations.temp_path (Context.locations ctx) "" "") ImageKind.BACKGROUND w0)
    as (w2 & E2).
  rewrite E2 in E0. inversion E0; subst a w1.
  destruct (download_and_process_image _ _ _) as [path |] eqn:Ed.
  - inversion E. eexists. split; [| reflexivity].
    right. exists (or_empty (background_candidate ctx)), path. simpl.
    rewrite (truthy_declared _ Hu). simpl. auto.
  - inversion E; subst; auto.
Qed.

Lemma maybe_write_audio_tags_run ctx w :
  exists w', _maybe_write_audio_tags ctx w = (inr tt, w').
Proof.
  unfold _maybe_write_audio_tags.
  destruct (Options.audio_options _); [| eexists; reflexivity].
  destruct (TempResourceFile.path_and_resource _) as [[path resource] |];
    [| eexists; reflexivity].
  unfold bind at 1, try.
  match goal with |- context [let (_, _) := ?c w in _] => destruct (c w) as [[e | []] w1] end;
    eexists; reflexivity.
Qed.

(** The download stage as a whole: the txt slot and everything but the
    staged files stay as they are, and each of the four slots is untouched
    or holds a freshly fetched candidate. *)
Lemma download_stage_spec ctx w c1 w1 :
  SongLoader.download_stage ctx w = (inr c1, w1) ->
  exists o1,
    c1 = Context.set_out o1 ctx
    /\ TempResourceFiles.txt o1 = TempResourceFiles.txt (Context.out ctx)
    /\ forall k,
         downloaded k ctx (slot_of k (Context.out ctx)) (slot_of k o1).
Proof.
  unfold SongLoader.download_stage. intros E.
  inv_bind E. apply maybe_download_audio_spec in E0.
  destruct E0 as (a' & Ha & ->).
  inv_bind E. apply maybe_download_video_spec in E0.
  destruct E0 as (v' & Hv & ->).
  inv_bind E. apply maybe_download_cover_spec in E0.
  destruct E0 as (c' & Hc & ->).
  inv_bind E. apply maybe_download_background_spec in E0.
  destruct E0 as (b' & Hb & ->).
  inv_bind E. inversion E. subst c1 w1. clear E E0.
  eexists. split; [reflexivity |]. split; [reflexivity |].
  intros [| | |]; simpl; assumption.
Qed.

End DownloadLemmas.

(** ** What the commit stage does to the staged slots *)

(** Cleanup may rename a kept file; nothing else about a slot changes. *)
Definition cleaned (a a' : TempResourceFile.t) : Prop :=
  TempResourceFile.resource a' = TempResourceFile.resource a
  /\ TempResourceFile.new_path a' = TempResourceFile.new_path a
  /\ (TempResourceFile.old_path a = None -> TempResourceFile.old_path a' = None)
  /\ (TempResourceFile.old_path a <> None ->
      TempResourceFile.old_path a' <> None)
  /\ (TempResourceFile.new_path a <> None ->
      TempResourceFile.old_path a' = TempResourceFile.old_path a).

Lemma cleaned_refl a : cleaned a a.
Proof. unfold cleaned. tauto. Qed.

(** Persisting moves a staged file to its place in the song folder. *)
Definition persisted (l : Locations.t) (a a' : TempResourceFile.t) : Prop :=
  TempResourceFile.resource a' = TempResourceFile.resource a
  /\ TempResourceFile.old_path a' = TempResourceFile.old_path a
  /\ TempResourceFile.new_path a'
     = match TempResourceFile.new_path a with
       | Some new_path => Some (Locations.file_path l (name new_path) "")
       | None => None
       end.

Section CommitLemmas.
Context `{External}.

Lemma exists_run p w : exists_ p w = (inr (fs_exists (fs w) p), w).
Proof. reflexivity. Qed.

Lemma send2trash_run p w :
  send2trash p w
  = (inr tt, mkWorld (fs_remove (fs w) p) (db w) (trace w ++ [Trash p])).
Proof. reflexivity. Qed.

Lemma rename_inr a b w u w' :
  rename a b w = (inr u, w') ->
  fs_exists (fs w) a = true
  /\ w' = mkWorld (fs_rename (fs w) a b) (db w) (trace w ++ [Rename a b]).
Proof.
  unfold rename, bind, get_fs. simpl.
  destruct (fs_exists (fs w) a); intros E; inversion E. auto.
Qed.

Lemma cleanup_slot_spec l old out w out' w' :
  cleanup_slot l old out w = (inr out', w') -> cleaned out out'.
Proof.
  unfold cleanup_slot.
  destruct old as [old |]; [| intros E; inversion E; apply cleaned_refl].
  destruct (TempResourceFile.old_path out) as [old_path |] eqn:Eo.
  - destruct (TempResourceFile.new_path out) as [new_path |] eqn:En.
    + intros E. inv_bind E. inv_bind E. inversion E. apply cleaned_refl.
    + destruct (path_eqb _ _); intros E.
      * inversion E. apply cleaned_refl.
      * inv_bind E. inversion E. unfold cleaned. simpl.
        rewrite Eo, En. repeat split; congruence.
  - intros E. inv_bind E. inv_bind E. inversion E. apply cleaned_refl.
Qed.

Lemma get_set_same k a o :
  TempResourceFiles.get k (TempResourceFiles.set k a o) = a.
Proof. destruct k; reflexivity. Qed.

Lemma get_set_other k j a o :
  j <> k -> TempResourceFiles.get j (TempResourceFiles.set k a o)
            = TempResourceFiles.get j o.
Proof. destruct k, j; intros Hn; try reflexivity; congruence. Qed.

(** A loop that puts each listed file through [step] once: the files it
    lists are related by what [step] does, the others are untouched. *)
Lemma for_slots_spec {X : Type} (R : TempResourceFile.t -> TempResourceFile.t -> Prop)
    (step : X -> TempResourceFile.t -> M TempResourceFile.t)
    (ref : X -> ResourceFileKind.t) (xs : list X) :
  (forall x a w a' w', step x a w = (inr a', w') -> R a a') ->
  NoDup (map ref xs) ->
  forall o w o' w',
    for_ xs
      (fun x out =>
         temp_file <- step x (TempResourceFiles.get (ref x) out) ;;
         ret (TempResourceFiles.set (ref x) temp_file out)) o w
    = (inr o', w') ->
    forall k,
      (In k (map ref xs) ->
       R (TempResourceFiles.get k o) (TempResourceFiles.get k o'))
      /\ (~ In k (map ref xs) ->
          TempResourceFiles.get k o' = TempResourceFiles.get k o).
Proof.
  intros Hstep. induction xs as [| x xs IH]; intros Hnd o w o' w' E k.
  - inversion E. subst. simpl. tauto.
  - simpl in E. inversion Hnd as [| ? ? Hnotin Hnd']. subst.
    inv_bind_as E o1 w1 E1. inv_bind_as E1 a w2 Ea. inversion E1. subst o1 w2.
    apply Hstep in Ea.
    destruct (IH Hnd' _ _ _ _ E k) as [Hin Hout].
    simpl. split.
    + intros [Hk | Hk].
      * subst k. rewrite (Hout Hnotin), get_set_same. exact Ea.
      * rewrite <- (get_set_other (ref x) k a o).
        -- apply Hin, Hk.
        -- intros ->. contradiction.
    + intros Hk. rewrite Hout by tauto.
      apply get_set_other. intros ->. tauto.
Qed.

Lemma iter_all k : In k TempResourceFiles.iter.
Proof. destruct k; simpl; tauto. Qed.

Lemma iter_NoDup : NoDup TempResourceFiles.iter.
Proof.
  unfold TempResourceFiles.iter.
  repeat constructor; simpl; intuition discriminate.
Qed.

Lemma cleanup_exisiting_resource_spec ctx w ctx' w' :
  _cleanup_exisiting_resource ctx w = (inr ctx', w') ->
  exists o',
    ctx' = Context.set_out o' ctx
    /\ forall k,
         cleaned (TempResourceFiles.get k (Context.out ctx))
           (TempResourceFiles.get k o').
Proof.
  unfold _cleanup_exisiting_resource.
  destruct (UsdbSong.sync_meta _) as [m |].
  - intros E. inv_bind_as E o' w1 Ef. inversion E. subst.
    exists o'. split; [reflexivity |]. intros k.
    rewrite (for_ext _ _
               (fun x out =>
                  temp_file <- cleanup_slot (Context.locations ctx)
                                 (fst (fst x))
                                 (TempResourceFiles.get (snd x) out) ;;
                  ret (TempResourceFiles.set (snd x) temp_file out)))
      in Ef by (intros [[old kind] j] s w0; reflexivity).
    pose proof (for_slots_spec cleaned
                  (fun x => cleanup_slot (Context.locations ctx) (fst (fst x)))
                  snd
                  (combine (SyncMeta.all_resource_files m)
                     TempResourceFiles.iter)) as Hloop.
    simpl in Hloop.
    apply (Hloop (fun x a w0 a' w0' => cleanup_slot_spec _ _ _ _ _ _)
             iter_NoDup _ _ _ _ Ef k).
    destruct k; simpl; tauto.
  - intros E. inversion E. subst. exists (Context.out ctx').
    split; [destruct ctx'; reflexivity |]. intros k. apply cleaned_refl.
Qed.

Lemma ensure_correct_folder_name_spec l w l' w' :
  _ensure_correct_folder_name l w = (inr l', w') ->
  Locations.filename_stem l' = Locations.filename_stem l
  /\ Locations.tempdir l' = Locations.tempdir l
  /\ (l' = l
      /\ is_name_maybe_with_suffix (name (Locations.folder l))
           (Locations.filename_stem l) = true
      \/ exists f,
           l' = Locations.set_folder
                  (next_unique_directory f
                     (with_name (Locations.folder l)
                        (Locations.filename_stem l))) l
           /\ is_name_maybe_with_suffix (name (Locations.folder l))
                (Locations.filename_stem l) = false).
Proof.
  unfold _ensure_correct_folder_name. intros E. inv_bind E.
  destruct (is_name_maybe_with_suffix _ _) eqn:En.
  - inversion E. subst. auto.
  - inv_bind E. inv_bind E. inversion E. simpl.
    split; [reflexivity |]. split; [reflexivity |]. right. eauto.
Qed.

Lemma maybe_write_txt_spec ctx w ctx' w' :
  _maybe_write_txt ctx w = (inr ctx', w') ->
  exists t' x',
    ctx' = Context.set_out (TempResourceFiles.set_txt t' (Context.out ctx))
             (Context.set_txt x' ctx)
    /\ SongTxt.meta_tags x' = SongTxt.meta_tags (Context.txt ctx).
Proof.
  unfold _maybe_write_txt.
  destruct (Options.txt_options _).
  - intros E. inv_bind E. inv_bind E. inversion E.
    eexists. eexists. split; reflexivity.
  - intros E. inversion E. subst.
    exists (TempResourceFiles.txt (Context.out ctx')), (Context.txt ctx').
    split; [| reflexivity].
    destruct ctx' as [s d o t l [x a v c b]]. reflexivity.
Qed.

Lemma persist_slot_spec l a w a' w' :
  persist_slot l a w = (inr a', w') -> persisted l a a'.
Proof.
  unfold persist_slot, persisted.
  destruct (TempResourceFile.new_path a) eqn:En.
  - intros E. inv_bind E. inv_bind E. inv_bind E. inversion E. simpl. auto.
  - intros E. inversion E. subst. auto.
Qed.

Lemma persist_tempfiles_spec ctx w ctx' w' :
  _persist_tempfiles ctx w = (inr ctx', w') ->
  exists o',
    ctx' = Context.set_out o' ctx
    /\ forall k,
         persisted (Context.locations ctx)
           (TempResourceFiles.get k (Context.out ctx))
           (TempResourceFiles.get k o').
Proof.
  unfold _persist_tempfiles. intros E.
  inv_bind_as E o' w1 Ef. inversion E. subst.
  exists o'. split; [reflexivity |]. intros k.
  pose proof (for_slots_spec (persisted (Context.locations ctx))
                (fun _ => persist_slot (Context.locations ctx))
                (fun j => j) TempResourceFiles.iter) as Hloop.
  rewrite map_id in Hloop.
  apply (Hloop (fun x a w0 a' w0' => persist_slot_spec _ _ _ _ _) iter_NoDup
           _ _ _ _ Ef k).
  apply iter_all.
Qed.

(** A slot across the whole commit stage. *)
Definition committed (l : Locations.t) (a a' : TempResourceFile.t) : Prop :=
  exists b, cleaned a b /\ persisted l b a'.

Lemma commit_stage_spec ctx w ctx' w' :
  SongLoader.commit_stage ctx w = (inr ctx', w') ->
  exists l' x' o',
    ctx' = Context.set_out o'
             (Context.set_txt x' (Context.set_locations l' ctx))
    /\ SongTxt.meta_tags x' = SongTxt.meta_tags (Context.txt ctx)
    /\ Locations.filename_stem l'
       = Locations.filename_stem (Context.locations ctx)
    /\ Locations.tempdir l' = Locations.tempdir (Context.locations ctx)
    /\ (l' = Context.locations ctx
        /\ is_name_maybe_with_suffix (name (Locations.folder l'))
             (Locations.filename_stem l') = true
        \/ exists f,
             l' = Locations.set_folder
                    (next_unique_directory f
                       (with_name (Locations.folder (Context.locations ctx))
                          (Locations.filename_stem (Context.locations ctx))))
                    (Context.locations ctx)
             /\ is_name_maybe_with_suffix
                  (name (Locations.folder (Context.locations ctx)))
                  (Locations.filename_stem (Context.locations ctx)) = false)
    /\ forall k, committed l' (slot_of k (Context.out ctx)) (slot_of k o').
Proof.
  unfold SongLoader.commit_stage. intros E.
  inv_bind E. apply cleanup_exisiting_resource_spec in E0.
  destruct E0 as (o1 & -> & Hk1).
  inv_bind_as E l' w2 El. apply ensure_correct_folder_name_spec in El.
  destruct El as (Hstem & Htmp & Hfolder).
  inv_bind E. apply maybe_write_txt_spec in E0.
  destruct E0 as (t2 & x2 & -> & Hm2).
  apply persist_tempfiles_spec in E.
  destruct E as (o3 & -> & Hk3).
  simpl in *.
  exists l', x2, o3. split; [reflexivity |].
  split; [exact Hm2 |]. split; [exact Hstem |]. split; [exact Htmp |].
  split.
  - destruct Hfolder as [[-> Hn] | (f & -> & Hn)]; [left; auto |].
    right. exists f. auto.
  - intros k. exists (slot_of k o1). split; [apply Hk1 |].
    specialize (Hk3 (kind_of k)). destruct k; exact Hk3.
Qed.

Lemma write_sync_meta_spec ctx w ctx' w' :
  _write_sync_meta ctx w = (inr ctx', w') ->
  exists m,
    UsdbSong.sync_meta (Context.song ctx') = Some m
    /\ SyncMeta.path m
       = Locations.file_path (Context.locations ctx)
           (to_filename (SyncMeta.sync_meta_id m)) ""
    /\ SyncMeta.txt m
       = TempResourceFile.to_resource_file
           (TempResourceFiles.txt (Context.out ctx))
    /\ forall k,
         file_of k m
         = TempResourceFile.to_resource_file (slot_of k (Context.out ctx)).
Proof.
  unfold _write_sync_meta. intros E. inv_bind E. inversion E.
  eexists. split; [reflexivity |]. simpl.
  split; [reflexivity |]. split; [reflexivity |].
  intros [| | |]; reflexivity.
Qed.

End CommitLemmas.

(** ** Keeping the last resource when every fetch fails *)

Section KeepOnFailure.
Context `{External}.

Lemma post_init_slot f ctx0 m k :
  UsdbSong.sync_meta (Context.song ctx0) = Some m ->
  slot_of k (Context.out (Context.__attrs_post_init__ f ctx0))
  = Context.seed f (Context.locations ctx0) (file_of k m)
      (slot_of k (Context.out ctx0)).
Proof.
  intros Hm. unfold Context.__attrs_post_init__. rewrite Hm.
  destruct k; reflexivity.
Qed.

Lemma post_init_frame f ctx0 :
  exists o,
    Context.__attrs_post_init__ f ctx0 = Context.set_out o ctx0
    /\ TempResourceFiles.txt o = TempResourceFiles.txt (Context.out ctx0).
Proof.
  unfold Context.__attrs_post_init__.
  destruct (UsdbSong.sync_meta _).
  - eexists. split; reflexivity.
  - exists (Context.out ctx0). split; [destruct ctx0 |]; reflexivity.
Qed.

(** A slot that holds a resource and a file converts to a resource file
    with that resource. *)
Lemma to_resource_file_kept a r :
  TempResourceFile.resource a = Some r ->
  str_truthy r = true ->
  TempResourceFile.path a <> None ->
  exists rf,
    TempResourceFile.to_resource_file a = Some rf
    /\ ResourceFile.resource rf = r.
Proof.
  intros Hr Ht Hp.
  unfold TempResourceFile.to_resource_file, TempResourceFile.path_and_resource.
  unfold TempResourceFile.path in Hp.
  destruct (or_else _ _) as [p |]; [| congruence].
  rewrite Hr, Ht. eexists. split; reflexivity.
Qed.

(** C4.  Take a slot that was seeded from the song's sync meta: the old
    resource file is in sync and names a resource.  If no candidate of the
    slot can be fetched, the download stage leaves the slot as seeded, and
    the record written after the commit stage has a resource file in that
    slot with the old resource. *)
Theorem failed_fetches_keep_resource (k : Slot) f ctx0 m old
    w c1 w1 c2 w2 w3 c3 w4 :
  Context.out ctx0 = TempResourceFiles.empty ->
  UsdbSong.sync_meta (Context.song ctx0) = Some m ->
  file_of k m = Some old ->
  is_in_sync f old (Locations.folder (Context.locations ctx0)) = true ->
  str_truthy (ResourceFile.resource old) = true ->
  (forall r, In r (candidates k (Context.__attrs_post_init__ f ctx0)) ->
             fetch k (Context.__attrs_post_init__ f ctx0) r = None) ->
  SongLoader.download_stage (Context.__attrs_post_init__ f ctx0) w
  = (inr c1, w1) ->
  SongLoader.commit_stage c1 w1 = (inr c2, w2) ->
  _write_sync_meta c2 w3 = (inr c3, w4) ->
  slot_of k (Context.out c1)
  = TempResourceFile.mk
      (Some (Locations.file_path (Context.locations ctx0)
               (ResourceFile.fname old) ""))
      None (Some (ResourceFile.resource old))
  /\ exists m' rf,
       UsdbSong.sync_meta (Context.song c3) = Some m'
       /\ file_of k m' = Some rf
       /\ ResourceFile.resource rf = ResourceFile.resource old.
Proof.
  intros Hempty Hm Hold Hsync Htruthy Hfail Ed Ec Ew.
  pose proof (post_init_slot f ctx0 m k Hm) as Hseed.
  rewrite Hold in Hseed. unfold Context.seed in Hseed.
  rewrite Hsync, Hempty in Hseed.
  assert (Hnew : TempResourceFile.new_path
                   (slot_of k TempResourceFiles.empty) = None)
    by (destruct k; reflexivity).
  rewrite Hnew in Hseed. clear Hnew.
  apply download_stage_spec in Ed. destruct Ed as (o1 & -> & _ & Hd).
  specialize (Hd k). destruct Hd as [Hd | (r & p & Hin & Hf & _)];
    [| rewrite (Hfail r Hin) in Hf; discriminate].
  simpl. rewrite Hd, Hseed. split; [reflexivity |].
  apply commit_stage_spec in Ec.
  destruct Ec as (l' & x' & o2 & -> & _ & _ & _ & _ & Hc).
  specialize (Hc k). simpl in Hc. rewrite Hd, Hseed in Hc.
  destruct Hc as (b & (Hb1 & Hb2 & _ & Hb4 & _) & (Hp1 & Hp2 & Hp3)).
  simpl in *.
  apply write_sync_meta_spec in Ew.
  destruct Ew as (m' & Hm' & _ & _ & Hfiles).
  specialize (Hfiles k). simpl in Hfiles.
  destruct (to_resource_file_kept (slot_of k o2) (ResourceFile.resource old))
    as (rf & Hrf & Hres).
  - congruence.
  - exact Htruthy.
  - unfold TempResourceFile.path. rewrite Hp3, Hb2, Hp2. simpl.
    apply Hb4. discriminate.
  - exists m', rf. rewrite Hfiles. auto.
Qed.

End KeepOnFailure.

(** A song that was loaded before, with an audio file from a resource that
    is no longer among the candidates, in a library that holds that file. *)
Module KeepDemo.
Import Demo.

Definition old_audio : ResourceFile.t :=
  ResourceFile.mk "Artist - Title.m4a" "https://video.example/old".

Definition sync_meta : SyncMeta.t :=
  SyncMeta.mk 7 1 ["songs"; "Artist - Title"; "meta.usdb"] 0 meta_tags true
    None (Some old_audio) None None None.

Definition ctx0 : Context.t :=
  Context.mk (UsdbSong.set_sync_meta (Some sync_meta) (song 1)) details
    options txt locations TempResourceFiles.empty.

Definition library : World :=
  mkWorld
    (fun p =>
       if path_eqb p ["songs"] then Some Dir
       else if path_eqb p ["songs"; "Artist - Title"] then Some Dir
       else if path_eqb p ["songs"; "Artist - Title"; "Artist - Title.m4a"]
       then Some (File (Downloaded "https://video.example/old"))
       else if path_eqb p ["tmp"; "usdb"] then Some Dir
       else None)
    (fun _ => None) [].

(** The value a computation returned, or a default. *)
Definition value {A : Type} (default : A) (r : (Exn + A) * World) : A :=
  match fst r with
  | inr a => a
  | inl _ => default
  end.

Definition ctx : Context.t :=
  @Context.__attrs_post_init__ offline (fs library) ctx0.
Definition after_download : (Exn + Context.t) * World :=
  @SongLoader.download_stage offline ctx library.
Definition after_commit : (Exn + Context.t) * World :=
  @SongLoader.commit_stage offline (value ctx after_download)
    (snd after_download).
Definition after_write : (Exn + Context.t) * World :=
  @_write_sync_meta offline (value ctx after_commit) (snd after_commit).

End KeepDemo.

Lemma failed_fetches_keep_resource_witness :
  exists m' rf,
    UsdbSong.sync_meta (Context.song (KeepDemo.value KeepDemo.ctx KeepDemo.after_write))
    = Some m'
    /\ file_of AudioSlot m' = Some rf
    /\ ResourceFile.resource rf = "https://video.example/old".
Proof.
  apply (@failed_fetches_keep_resource Demo.offline AudioSlot
           (fs KeepDemo.library) KeepDemo.ctx0 KeepDemo.sync_meta
           KeepDemo.old_audio
           KeepDemo.library
           (KeepDemo.value KeepDemo.ctx KeepDemo.after_download)
           (snd KeepDemo.after_download)
           (KeepDemo.value KeepDemo.ctx KeepDemo.after_commit)
           (snd KeepDemo.after_commit)
           (snd KeepDemo.after_commit)
           (KeepDemo.value KeepDemo.ctx KeepDemo.after_write)
           (snd KeepDemo.after_write)).
  - reflexivity.
  - reflexivity.
  - reflexivity.
  - reflexivity.
  - reflexivity.
  - intros r _. reflexivity.
  - vm_compute. reflexivity.
  - vm_compute. reflexivity.
  - vm_compute. reflexivity.
Defined.

(** ** The song folder *)

Lemma name_joinpath p n : name (joinpath p n) = n.
Proof. apply last_last. Qed.



Section Folder.
Context `{External}.

(** What [_get_usdb_data] returns does not depend on the world. *)
Definition usdb_data (id : SongId) : Exn + SongDetails.t * SongTxt.t :=
  fst (_get_usdb_data id (mkWorld (fun _ => None) (fun _ => None) [])).

Lemma get_usdb_data_value id w : fst (_get_usdb_data id w) = usdb_data id.
Proof.
  unfold usdb_data, _get_usdb_data, bind, lift, log, emit, ret, raise.
  destruct (get_usdb_details id) as [e | d]; simpl; [reflexivity |].
  destruct (get_notes _) as [e | s]; simpl; [reflexivity |].
  destruct (SongTxt_parse s) as [e | t]; reflexivity.
Qed.


Lemma with_TemporaryDirectory_inr {A : Type} (body : Path -> M A) w a w' :
  with_TemporaryDirectory body w = (inr a, w') ->
  exists tempdir w0 w1, body tempdir w0 = (inr a, w1).
Proof.
  unfold with_TemporaryDirectory.
  destruct (body _ _) as [r w1] eqn:Eb. intros E. inversion E. subst r.
  eauto.
Qed.

Lemma run_inner_inr song options w song' w' :
  SongLoader._run_inner song options w = (inr song', w') ->
  exists tempdir w0 ctx0 w1 c1 w2 c2 w3 w4 c3,
    Context.new (UsdbSong.set_status DOWNLOADING song) options tempdir w0
    = (inr ctx0, w1)
    /\ SongLoader.download_stage ctx0 w1 = (inr c1, w2)
    /\ SongLoader.commit_stage c1 w2 = (inr c2, w3)
    /\ _write_sync_meta c2 w4 = (inr c3, w')
    /\ song' = Context.song c3.
Proof.
  unfold SongLoader._run_inner. intros E.
  inv_bind_as E u wp Ep. inv_bind_as E c2 w4 Et. inv_bind_as E c3 w5 Ew.
  inversion E. subst.
  apply with_TemporaryDirectory_inr in Et.
  destruct Et as (tempdir & w0 & w3 & Et).
  unfold SongLoader.in_tempdir in Et.
  inv_bind_as Et ctx0 w1 En. inv_bind_as Et c1 w2 Ed.
  exists tempdir, w0, ctx0, w1, c1, w2, c2, w3, w4, c3. auto.
Qed.



End Folder.

(** ** Paths and what calls do to them *)

Lemma path_eqb_refl p : path_eqb p p = true.
Proof. unfold path_eqb. destruct (path_eq_dec p p); congruence. Qed.

Lemma path_eqb_eq p q : path_eqb p q = true <-> p = q.
Proof.
  unfold path_eqb. destruct (path_eq_dec p q); split; congruence.
Qed.

Lemma path_eqb_neq p q : path_eqb p q = false <-> p <> q.
Proof.
  unfold path_eqb. destruct (path_eq_dec p q); split; congruence.
Qed.

Lemma strip_prefix_app p q rest : strip_prefix p q = Some rest -> q = p ++ rest.
Proof.
  revert q. induction p as [| a p IH]; intros q; simpl.
  - intros E. inversion E. reflexivity.
  - destruct q as [| b q]; [discriminate |].
    destruct (String.eqb a b) eqn:Eab; [| discriminate].
    apply String.eqb_eq in Eab. subst b. intros E. apply IH in E.
    subst q. reflexivity.
Qed.

Lemma strip_prefix_of_app p rest : strip_prefix p (p ++ rest) = Some rest.
Proof.
  induction p as [| a p IH]; simpl; [reflexivity |].
  rewrite String.eqb_refl. exact IH.
Qed.

Lemma is_under_app p rest : is_under p (p ++ rest) = true.
Proof. unfold is_under. rewrite strip_prefix_of_app. reflexivity. Qed.

Lemma is_under_inv p q : is_under p q = true -> exists rest, q = p ++ rest.
Proof.
  unfold is_under. destruct (strip_prefix p q) as [rest |] eqn:E;
    [| discriminate].
  intros _. exists rest. apply strip_prefix_app. exact E.
Qed.

Lemma is_under_trans p q r :
  is_under p q = true -> is_under q r = true -> is_under p r = true.
Proof.
  intros Hpq Hqr. apply is_under_inv in Hpq. apply is_under_inv in Hqr.
  destruct Hpq as (a & ->). destruct Hqr as (b & ->).
  rewrite <- app_assoc. apply is_under_app.
Qed.

Lemma path_eqb_neq_sym q p :
  negb (path_eqb q p) = true -> path_eqb p q = false.
Proof.
  intros Hn. apply negb_true_iff in Hn. apply path_eqb_neq in Hn.
  apply path_eqb_neq. congruence.
Qed.

(** [q] is neither [p] nor above [p]. *)
Definition apart (q p : Path) : bool := negb (is_under q p).

Lemma apart_neq q p : apart q p = true -> q <> p.
Proof.
  unfold apart. intros Ha ->. rewrite is_under_refl in Ha. discriminate.
Qed.

Lemma apart_child p n : apart (joinpath p n) p = true.
Proof.
  unfold apart. destruct (is_under (joinpath p n) p) eqn:E; [| reflexivity].
  apply is_under_inv in E. destruct E as (rest & E).
  apply (f_equal (@List.length string)) in E.
  unfold joinpath in E. rewrite !length_app in E. simpl in E. lia.
Qed.

(** Below something that is apart from [p] nothing is [p] or above it. *)
Lemma apart_below d q p :
  apart d p = true -> is_under d q = true -> apart q p = true.
Proof.
  unfold apart. intros Hd Hq.
  destruct (is_under q p) eqn:E; [| reflexivity].
  rewrite (is_under_trans d q p Hq E) in Hd. discriminate.
Qed.

(** The calls after which a path that holds nothing still holds nothing. *)
Definition keeps_absent (p : Path) (e : Event) : bool :=
  match e with
  | Rename src dst => apart dst p || path_eqb src dst
  | Mkdir q => apart p q
  | WriteFile q _ | MkDtemp q => negb (path_eqb q p)
  | _ => true
  end.

(** The calls that leave what lies at a path there. *)
Definition keeps (p : Path) (e : Event) : bool :=
  match e with
  | Trash q | RmTree q => apart q p
  | Rename src dst => apart src p && apart dst p
  | WriteFile q _ | MkDtemp q => negb (path_eqb q p)
  | _ => true
  end.

Lemma fs_rename_same f x q : fs_rename f x x q = f q.
Proof.
  unfold fs_rename, is_under.
  destruct (strip_prefix x q) as [rest |] eqn:E; [| reflexivity].
  apply strip_prefix_app in E. congruence.
Qed.

Lemma apply_keeps_absent e f p :
  keeps_absent p e = true -> f p = None -> apply_event e f p = None.
Proof.
  destruct e; simpl; intros Hk Hf; try exact Hf.
  - unfold fs_remove. destruct (is_under p0 p); auto.
  - apply orb_true_iff in Hk. destruct Hk as [Hk | Hk].
    + unfold fs_rename, is_under. unfold apart, is_under in Hk.
      destruct (strip_prefix dst p); [discriminate |].
      destruct (strip_prefix src p); auto.
    + apply path_eqb_eq in Hk. subst dst. rewrite fs_rename_same. exact Hf.
  - unfold fs_mkdir. rewrite Hf. destruct p as [| a p]; [reflexivity |].
    unfold apart in Hk. destruct (is_under (a :: p) p0); [discriminate |].
    reflexivity.
  - unfold fs_write. rewrite path_eqb_neq_sym by exact Hk. exact Hf.
  - unfold fs_write. rewrite path_eqb_neq_sym by exact Hk. exact Hf.
  - unfold fs_remove. destruct (is_under p0 p); auto.
Qed.

Lemma apply_keeps e f p n :
  keeps p e = true -> f p = Some n -> apply_event e f p = Some n.
Proof.
  destruct e; simpl; intros Hk Hf; try exact Hf.
  - unfold fs_remove. unfold apart in Hk.
    destruct (is_under p0 p); [discriminate | exact Hf].
  - apply andb_true_iff in Hk. destruct Hk as [Hs Hd].
    unfold fs_rename, is_under. unfold apart, is_under in Hs, Hd.
    destruct (strip_prefix dst p); [discriminate |].
    destruct (strip_prefix src p); [discriminate | exact Hf].
  - unfold fs_mkdir. rewrite Hf. reflexivity.
  - unfold fs_write. rewrite path_eqb_neq_sym by exact Hk. exact Hf.
  - unfold fs_write. rewrite path_eqb_neq_sym by exact Hk. exact Hf.
  - unfold fs_remove. unfold apart in Hk.
    destruct (is_under p0 p); [discriminate | exact Hf].
Qed.

Lemma replay_keeps_absent evs f p :
  forallb (keeps_absent p) evs = true -> f p = None -> replay evs f p = None.
Proof.
  revert f. induction evs as [| e evs IH]; intros f Hk Hf; simpl; [exact Hf |].
  simpl in Hk. apply andb_true_iff in Hk. destruct Hk as [He Hk].
  apply IH; [exact Hk |]. apply apply_keeps_absent; assumption.
Qed.

Lemma replay_keeps evs f p n :
  forallb (keeps p) evs = true -> f p = Some n -> replay evs f p = Some n.
Proof.
  revert f. induction evs as [| e evs IH]; intros f Hk Hf; simpl; [exact Hf |].
  simpl in Hk. apply andb_true_iff in Hk. destruct Hk as [He Hk].
  apply IH; [exact Hk |]. apply apply_keeps; assumption.
Qed.

(** How often [p] is sent to the trash. *)
Definition is_trash (p : Path) (e : Event) : bool :=
  match e with
  | Trash q => path_eqb q p
  | _ => false
  end.

Definition trashed (p : Path) (evs : list Event) : nat :=
  List.length (filter (is_trash p) evs).

Lemma trashed_app p a b : trashed p (a ++ b) = trashed p a + trashed p b.
Proof. unfold trashed. rewrite filter_app, length_app. reflexivity. Qed.

Lemma trashed_none p evs :
  forallb (fun e => negb (is_trash p e)) evs = true -> trashed p evs = 0.
Proof.
  unfold trashed. induction evs as [| e evs IH]; simpl; [reflexivity |].
  intros Hn. apply andb_true_iff in Hn. destruct Hn as [He Hn].
  apply negb_true_iff in He. rewrite He. auto.
Qed.

(** Calls that neither trash [p] nor put anything there. *)
Definition spares (p : Path) (e : Event) : bool :=
  negb (is_trash p e) && keeps_absent p e.

Lemma spares_trashed p evs :
  forallb (spares p) evs = true -> trashed p evs = 0.
Proof.
  intros Hs. apply trashed_none. rewrite forallb_forall in *.
  intros e He. specialize (Hs e He). unfold spares in Hs.
  apply andb_true_iff in Hs. tauto.
Qed.

Lemma spares_absent p evs f :
  forallb (spares p) evs = true -> f p = None -> replay evs f p = None.
Proof.
  intros Hs. apply replay_keeps_absent. rewrite forallb_forall in *.
  intros e He. specialize (Hs e He). unfold spares in Hs.
  apply andb_true_iff in Hs. tauto.
Qed.

(** What a run that is known to satisfy [only p] did. *)
Lemma only_run {A : Type} (p : Event -> bool) (c : M A) w r w' :
  only p c -> c w = (r, w') ->
  exists evs,
    trace w' = trace w ++ evs /\ fs w' = replay evs (fs w)
    /\ forallb p evs = true.
Proof.
  intros Hc E. destruct (Hc w) as (evs & Et & Ef & Ep).
  rewrite E in Et, Ef. eauto.
Qed.

(** ** The loops over the staged files, one file at a time *)

(** The file of a kind in the sync meta. *)
Definition resource_file (k : ResourceFileKind.t) (m : SyncMeta.t)
    : option ResourceFile.t :=
  match k with
  | ResourceFileKind.TXT => SyncMeta.txt m
  | ResourceFileKind.AUDIO => SyncMeta.audio m
  | ResourceFileKind.VIDEO => SyncMeta.video m
  | ResourceFileKind.COVER => SyncMeta.cover m
  | ResourceFileKind.BACKGROUND => SyncMeta.background m
  end.

Definition mem (q : Path) (paths : list Path) : bool := existsb (path_eqb q) paths.

Lemma mem_In q paths : mem q paths = true <-> In q paths.
Proof.
  unfold mem. rewrite existsb_exists. split.
  - intros (x & Hin & Hx). apply path_eqb_eq in Hx. congruence.
  - intros Hin. exists q. split; [exact Hin | apply path_eqb_refl].
Qed.

Section SlotLoops.
Context `{External}.

(** The one path the cleanup of a file trashes or renames it to, if any. *)
Definition cleanup_paths (l : Locations.t) (old : option ResourceFile.t)
    (out : TempResourceFile.t) : list Path :=
  match old with
  | None => []
  | Some old =>
      match TempResourceFile.old_path out with
      | None => [Locations.file_path l (ResourceFile.fname old) ""]
      | Some old_path =>
          match TempResourceFile.new_path out with
          | Some _ => [old_path]
          | None =>
              [Locations.file_path l ""
                 (resource_file_ending (ResourceFile.fname old))]
          end
      end
  end.

Definition cleanup_allowed (l : Locations.t) (old : option ResourceFile.t)
    (out : TempResourceFile.t) (e : Event) : bool :=
  match e with
  | Log _ _ => true
  | Trash q => mem q (cleanup_paths l old out)
  | Rename _ dst => mem dst (cleanup_paths l old out)
  | _ => false
  end.

Lemma only_cleanup_slot_allowed l old out :
  only (cleanup_allowed l old out) (cleanup_slot l old out).
Proof.
  unfold cleanup_slot.
  destruct old as [old |]; [| apply only_ret].
  destruct (TempResourceFile.old_path out) as [old_path |] eqn:Eo.
  - destruct (TempResourceFile.new_path out) as [new_path |] eqn:En.
    + only_tac; simpl; unfold cleanup_paths; rewrite Eo, En; simpl;
        rewrite path_eqb_refl; reflexivity.
    + only_tac; simpl; unfold cleanup_paths; rewrite Eo, En; simpl;
        rewrite path_eqb_refl; reflexivity.
  - only_tac; simpl; unfold cleanup_paths; rewrite Eo; simpl;
      rewrite path_eqb_refl; reflexivity.
Qed.

(** Where persisting puts a staged file. *)
Definition persist_target (l : Locations.t) (temp_file : TempResourceFile.t)
    : list Path :=
  match TempResourceFile.new_path temp_file with
  | Some new_path => [Locations.file_path l (name new_path) ""]
  | None => []
  end.

Definition persist_allowed (l : Locations.t) (temp_file : TempResourceFile.t)
    (e : Event) : bool :=
  match e with
  | Log _ _ => true
  | Trash q => mem q (persist_target l temp_file)
  | Rename src dst =>
      match TempResourceFile.new_path temp_file with
      | Some new_path => path_eqb src new_path
      | None => false
      end
      && mem dst (persist_target l temp_file)
  | _ => false
  end.

Lemma only_persist_slot_allowed l temp_file :
  only (persist_allowed l temp_file) (persist_slot l temp_file).
Proof.
  unfold persist_slot.
  destruct (TempResourceFile.new_path temp_file) as [new_path |] eqn:En;
    [| apply only_ret].
  only_tac; simpl; unfold persist_target; rewrite En; simpl;
    rewrite ?path_eqb_refl; reflexivity.
Qed.

End SlotLoops.

Lemma NoDup_app_disjoint {A : Type} (a b : list A) :
  NoDup (a ++ b) -> forall z, In z a -> In z b -> False.
Proof.
  induction a as [| x a IH]; simpl; intros Hnd z Ha Hb; [contradiction |].
  inversion Hnd as [| ? ? Hnotin Hnd']. subst.
  destruct Ha as [-> | Ha].
  - apply Hnotin, in_or_app. auto.
  - exact (IH Hnd' z Ha Hb).
Qed.

Lemma for_app {X S : Type} (a b : list X) (body : X -> S -> M S) s w :
  for_ (a ++ b) body s w = bind (for_ a body s) (for_ b body) w.
Proof.
  revert s w. induction a as [| x a IH]; intros s w; simpl.
  - unfold bind, ret. reflexivity.
  - unfold bind. destruct (body x s w) as [[e | s'] w1]; [reflexivity |].
    rewrite IH. reflexivity.
Qed.

(** The body of a loop that puts the file of kind [ref x] through [step]. *)
Definition on_slot {X : Type}
    (step : X -> TempResourceFile.t -> M TempResourceFile.t)
    (ref : X -> ResourceFileKind.t) (x : X) (out : TempResourceFiles.t)
    : M TempResourceFiles.t :=
  temp_file <- step x (TempResourceFiles.get (ref x) out) ;;
  ret (TempResourceFiles.set (ref x) temp_file out).

Section OnSlot.
Context {X : Type}.
Variable step : X -> TempResourceFile.t -> M TempResourceFile.t.
Variable ref : X -> ResourceFileKind.t.
Variable P : X -> TempResourceFile.t -> Event -> bool.
Hypothesis step_only : forall x a, only (P x a) (step x a).

(** Some listed file, as it was in [out], allows the call. *)
Definition some_allows (xs : list X) (out : TempResourceFiles.t) (e : Event)
    : bool :=
  existsb (fun x => P x (TempResourceFiles.get (ref x) out) e) xs.

Lemma some_allows_other xs x a out e :
  ~ In (ref x) (map ref xs) ->
  some_allows xs (TempResourceFiles.set (ref x) a out) e
  = some_allows xs out e.
Proof.
  intros Hnotin. unfold some_allows.
  induction xs as [| y xs IH]; simpl; [reflexivity |].
  simpl in Hnotin. rewrite IH by tauto.
  rewrite get_set_other; [reflexivity |]. intros E. apply Hnotin. auto.
Qed.

Lemma only_on_slots xs :
  NoDup (map ref xs) ->
  forall out, only (some_allows xs out) (for_ xs (on_slot step ref) out).
Proof.
  induction xs as [| x xs IH]; intros Hnd out; simpl; [apply only_ret |].
  inversion Hnd as [| ? ? Hnotin Hnd']. subst.
  intros w.
  destruct (step_only x (TempResourceFiles.get (ref x) out) w)
    as (evs1 & Et1 & Ef1 & Ep1).
  destruct (step x (TempResourceFiles.get (ref x) out) w) as [[e | a] w1]
    eqn:Es; simpl in Et1, Ef1.
  - assert (Hrun : bind (on_slot step ref x out)
                     (fun s' => for_ xs (on_slot step ref) s') w
                   = (inl e, w1))
      by (unfold bind, on_slot, bind; rewrite Es; reflexivity).
    rewrite Hrun. simpl.
    exists evs1. split; [exact Et1 |]. split; [exact Ef1 |].
    rewrite forallb_forall in *. intros e' He'.
    unfold some_allows. simpl. rewrite (Ep1 e' He'). reflexivity.
  - assert (Hrun : bind (on_slot step ref x out)
                     (fun s' => for_ xs (on_slot step ref) s') w
                   = for_ xs (on_slot step ref)
                       (TempResourceFiles.set (ref x) a out) w1)
      by (unfold bind, on_slot, bind; rewrite Es; reflexivity).
    rewrite Hrun.
    destruct (IH Hnd' (TempResourceFiles.set (ref x) a out) w1)
      as (evs2 & Et2 & Ef2 & Ep2).
    exists (evs1 ++ evs2).
    rewrite Et2, Et1, Ef2, Ef1, app_assoc, replay_app.
    split; [reflexivity |]. split; [reflexivity |].
    rewrite forallb_app. apply andb_true_iff. split.
    + rewrite forallb_forall in *. intros e' He'.
      unfold some_allows. simpl. rewrite (Ep1 e' He'). reflexivity.
    + rewrite forallb_forall in *. intros e' He'.
      specialize (Ep2 e' He'). rewrite some_allows_other in Ep2 by exact Hnotin.
      unfold some_allows in *. simpl. rewrite Ep2. apply orb_true_r.
Qed.

(** A loop over [pre ++ x :: post], seen from [x]: the files before it are
    done, then [x] itself as it was at the start, then the files after
    it. *)
Lemma on_slots_focus pre x post out w out' w' :
  NoDup (map ref (pre ++ x :: post)) ->
  for_ (pre ++ x :: post) (on_slot step ref) out w = (inr out', w') ->
  exists w1 a w2 before after,
    step x (TempResourceFiles.get (ref x) out) w1 = (inr a, w2)
    /\ TempResourceFiles.get (ref x) out' = a
    /\ trace w1 = trace w ++ before /\ fs w1 = replay before (fs w)
    /\ forallb (some_allows pre out) before = true
    /\ trace w' = trace w2 ++ after /\ fs w' = replay after (fs w2)
    /\ forallb (some_allows post out) after = true.
Proof.
  intros Hnd E. rewrite for_app in E.
  inv_bind_as E out1 w1 Epre. simpl in E.
  inv_bind_as E out2 w2 Ex. unfold on_slot in Ex.
  inv_bind_as Ex a w2' Estep. inversion Ex. subst out2 w2'. clear Ex.
  rewrite map_app in Hnd. simpl in Hnd.
  pose proof (NoDup_remove_1 _ _ _ Hnd) as Hnd'.
  pose proof (NoDup_remove_2 _ _ _ Hnd) as Hnotin.
  assert (Hpre : NoDup (map ref pre)) by (eapply NoDup_app_remove_r; eauto).
  assert (Hpost : NoDup (map ref post)) by (eapply NoDup_app_remove_l; eauto).
  assert (Hnpre : ~ In (ref x) (map ref pre))
    by (intros Hin; apply Hnotin, in_or_app; auto).
  assert (Hnpost : ~ In (ref x) (map ref post))
    by (intros Hin; apply Hnotin, in_or_app; auto).
  (* the files of [pre] *)
  destruct (only_run _ _ _ _ _ (only_on_slots pre Hpre out) Epre)
    as (before & Etb & Efb & Epb).
  pose proof (for_slots_spec (fun _ _ => True) step ref pre
                (fun _ _ _ _ _ _ => I) Hpre out w out1 w1 Epre) as Hspec1.
  assert (Hx1 : TempResourceFiles.get (ref x) out1
                = TempResourceFiles.get (ref x) out)
    by (apply Hspec1; exact Hnpre).
  rewrite Hx1 in Estep.
  (* the files of [post] *)
  destruct (only_run _ _ _ _ _
              (only_on_slots post Hpost
                 (TempResourceFiles.set (ref x) a out1)) E)
    as (after & Eta & Efa & Epa).
  pose proof (for_slots_spec (fun _ _ => True) step ref post
                (fun _ _ _ _ _ _ => I) Hpost _ _ _ _ E) as Hspec2.
  exists w1, a, w2, before, after.
  split; [exact Estep |].
  split; [rewrite (proj2 (Hspec2 (ref x)) Hnpost); apply get_set_same |].
  split; [exact Etb |]. split; [exact Efb |]. split; [exact Epb |].
  split; [exact Eta |]. split; [exact Efa |].
  rewrite forallb_forall in *. intros e He. specialize (Epa e He).
  rewrite some_allows_other in Epa by exact Hnpost.
  unfold some_allows in *. rewrite existsb_exists in *.
  destruct Epa as (y & Hy & Hp). exists y. split; [exact Hy |].
  rewrite <- Hp. f_equal. symmetry. apply Hspec1.
  intros Hin. apply (NoDup_app_disjoint _ _ Hnd' (ref y)); [exact Hin |].
  apply in_map. exact Hy.
Qed.

End OnSlot.

(** ** Replacing a resource file *)

Section Replace.
Context `{External}.

Lemma cleanup_list_split m j :
  exists pre post,
    combine (SyncMeta.all_resource_files m) TempResourceFiles.iter
    = pre ++ ((resource_file j m, j), j) :: post
    /\ forall y, In y (pre ++ post) ->
                 snd y <> j /\ fst (fst y) = resource_file (snd y) m.
Proof.
  destruct j; simpl.
  - exists []. eexists. split; [reflexivity |]. simpl.
    intuition (subst; simpl; (discriminate || reflexivity)).
  - eexists [_]. eexists. split; [reflexivity |]. simpl.
    intuition (subst; simpl; (discriminate || reflexivity)).
  - eexists [_; _]. eexists. split; [reflexivity |]. simpl.
    intuition (subst; simpl; (discriminate || reflexivity)).
  - eexists [_; _; _]. eexists. split; [reflexivity |]. simpl.
    intuition (subst; simpl; (discriminate || reflexivity)).
  - eexists [_; _; _; _]. exists []. split; [reflexivity |]. simpl.
    intuition (subst; simpl; (discriminate || reflexivity)).
Qed.

Lemma iter_split j :
  exists pre post,
    TempResourceFiles.iter = pre ++ j :: post
    /\ forall y, In y (pre ++ post) -> y <> j.
Proof.
  destruct j; unfold TempResourceFiles.iter.
  - exists []. eexists. split; [reflexivity |]. simpl.
    intuition (subst; discriminate).
  - eexists [_]. eexists. split; [reflexivity |]. simpl.
    intuition (subst; discriminate).
  - eexists [_; _]. eexists. split; [reflexivity |]. simpl.
    intuition (subst; discriminate).
  - eexists [_; _; _]. eexists. split; [reflexivity |]. simpl.
    intuition (subst; discriminate).
  - eexists [_; _; _; _]. exists []. split; [reflexivity |]. simpl.
    intuition (subst; discriminate).
Qed.

Lemma cleanup_allowed_spares l old a op e :
  (forall q, In q (cleanup_paths l old a) -> apart q op = true) ->
  cleanup_allowed l old a e = true -> spares op e = true.
Proof.
  intros Hq. unfold spares. destruct e; simpl; try discriminate; auto.
  - intros Hm. apply mem_In in Hm. specialize (Hq _ Hm).
    apply apart_neq in Hq. apply path_eqb_neq in Hq. rewrite Hq. reflexivity.
  - intros Hm. apply mem_In in Hm. rewrite (Hq _ Hm). reflexivity.
Qed.

Lemma persist_allowed_spares l a op e :
  (forall q, In q (persist_target l a) -> apart q op = true) ->
  persist_allowed l a e = true -> spares op e = true.
Proof.
  intros Hq. unfold spares. destruct e; simpl; try discriminate; auto.
  - intros Hm. apply mem_In in Hm. specialize (Hq _ Hm).
    apply apart_neq in Hq. apply path_eqb_neq in Hq. rewrite Hq. reflexivity.
  - intros Hm. apply andb_true_iff in Hm. destruct Hm as [_ Hm].
    apply mem_In in Hm. rewrite (Hq _ Hm). reflexivity.
Qed.

Lemma persist_allowed_keeps l a t e :
  (forall q, In q (persist_target l a) -> apart q t = true) ->
  (forall p, TempResourceFile.new_path a = Some p -> apart p t = true) ->
  persist_allowed l a e = true -> keeps t e = true.
Proof.
  intros Hq Hp. destruct e; simpl; try discriminate; auto.
  - intros Hm. apply mem_In in Hm. exact (Hq _ Hm).
  - intros Hm. apply andb_true_iff in Hm. destruct Hm as [Hs Hm].
    apply mem_In in Hm. rewrite (Hq _ Hm).
    destruct (TempResourceFile.new_path a) as [p |]; [| discriminate].
    apply path_eqb_eq in Hs. subst src. rewrite (Hp p eq_refl). reflexivity.
Qed.

(** What [_ensure_correct_folder_name] does to the file system. *)
Lemma ensure_correct_folder_name_events l w l' w' :
  _ensure_correct_folder_name l w = (inr l', w') ->
  exists evs,
    trace w' = trace w ++ evs /\ fs w' = replay evs (fs w)
    /\ (evs = [Mkdir (Locations.folder l)]
        \/ evs = [Mkdir (Locations.folder l);
                  Rename (Locations.folder l) (Locations.folder l')]).
Proof.
  unfold _ensure_correct_folder_name. intros E.
  inv_bind_as E u w1 Em.
  assert (Hm : w1 = mkWorld (fs_mkdir (fs w) (Locations.folder l)) (db w)
                      (trace w ++ [Mkdir (Locations.folder l)])).
  { unfold mkdir, bind, get_fs in Em. simpl in Em.
    destruct (fs w (Locations.folder l)) as [[| c] |]; inversion Em;
      reflexivity. }
  subst w1.
  destruct (is_name_maybe_with_suffix _ _).
  - inversion E. subst. exists [Mkdir (Locations.folder l')]. simpl. auto.
  - inv_bind_as E f w2 Ef. inversion Ef. subst f w2.
    inv_bind_as E u2 w3 Er. inversion E. subst l' w3. clear E.
    apply rename_inr in Er. destruct Er as [_ ->]. simpl.
    eexists. rewrite <- app_assoc. simpl.
    split; [reflexivity |]. split; [reflexivity |]. right. reflexivity.
Qed.

Definition txt_allowed (l : Locations.t) (e : Event) : bool :=
  match e with
  | Log _ _ => true
  | WriteFile q _ => path_eqb q (Locations.temp_path l "" "txt")
  | _ => false
  end.

Lemma only_maybe_write_txt_allowed ctx :
  only (txt_allowed (Context.locations ctx)) (_maybe_write_txt ctx).
Proof.
  unfold _maybe_write_txt. only_tac. simpl. apply path_eqb_refl.
Qed.

Lemma maybe_write_txt_slot ctx w ctx' w' :
  _maybe_write_txt ctx w = (inr ctx', w') ->
  Context.locations ctx' = Context.locations ctx
  /\ (forall j, j <> ResourceFileKind.TXT ->
                TempResourceFiles.get j (Context.out ctx')
                = TempResourceFiles.get j (Context.out ctx))
  /\ (TempResourceFile.new_path
        (TempResourceFiles.get ResourceFileKind.TXT (Context.out ctx'))
      = TempResourceFile.new_path
          (TempResourceFiles.get ResourceFileKind.TXT (Context.out ctx))
      \/ TempResourceFile.new_path
           (TempResourceFiles.get ResourceFileKind.TXT (Context.out ctx'))
         = Some (Locations.temp_path (Context.locations ctx) "" "txt")).
Proof.
  unfold _maybe_write_txt.
  destruct (Options.txt_options _).
  - intros E. inv_bind E. inv_bind E. inversion E. simpl.
    split; [reflexivity |]. split; [| right; reflexivity].
    intros j Hj. destruct j; try reflexivity. congruence.
  - intros E. inversion E. subst. auto.
Qed.

(** The cleanup of a file that is being replaced: its old file goes to the
    trash. *)
Lemma cleanup_slot_replaced l old a op np w :
  TempResourceFile.old_path a = Some op ->
  TempResourceFile.new_path a = Some np ->
  cleanup_slot l (Some old) a w
  = (inr a,
     mkWorld (fs_remove (fs w) op) (db w)
       (trace w
        ++ [Trash op;
            Log DEBUG ("Trashed existing file: '" ^^ path_str op ^^ "'.")])).
Proof.
  intros Ho En. unfold cleanup_slot. rewrite Ho, En.
  unfold bind, send2trash, bind, emit, get_fs, set_fs, log, emit, ret. simpl.
  rewrite <- app_assoc. reflexivity.
Qed.

(** Persisting a staged file: whatever lies at the target goes to the
    trash, then the file is moved there. *)
Lemma fs_rename_at_dst f src dst : fs_rename f src dst dst = f src.
Proof.
  unfold fs_rename.
  replace (strip_prefix dst dst) with (Some (@nil string)).
  - rewrite app_nil_r. reflexivity.
  - symmetry. rewrite <- (app_nil_r dst) at 2. apply strip_prefix_of_app.
Qed.

Lemma persist_slot_staged l a np w a' w' :
  TempResourceFile.new_path a = Some np ->
  persist_slot l a w = (inr a', w') ->
  exists evs,
    trace w' = trace w ++ evs ++ [Rename np (Locations.file_path l (name np) "")]
    /\ (evs = [] /\ fs w (Locations.file_path l (name np) "") = None
        \/ fs w (Locations.file_path l (name np) "") <> None
           /\ exists msg,
                evs = [Trash (Locations.file_path l (name np) "");
                       Log DEBUG msg])
    /\ fs w' (Locations.file_path l (name np) "") = replay evs (fs w) np
    /\ replay evs (fs w) np <> None
    /\ TempResourceFile.new_path a' = Some (Locations.file_path l (name np) "").
Proof.
  intros En E. unfold persist_slot in E. rewrite En in E.
  remember (Locations.file_path l (name np) "") as target eqn:Ht.
  inv_bind_as E b w1 Eb. inversion Eb. subst b w1. clear Eb.
  inv_bind_as E u w2 Ew.
  inv_bind_as E u2 w3 Er. inversion E. subst a' w3. clear E.
  apply rename_inr in Er. destruct Er as [Hex ->].
  unfold fs_exists in Hex.
  destruct (fs_exists (fs w) target) eqn:Et; cbn [when] in Ew.
  - inv_bind_as Ew u3 w4 Es. rewrite send2trash_run in Es.
    inversion Es. subst u3 w4. clear Es.
    rewrite log_run in Ew. inversion Ew. subst w2. clear Ew.
    cbn [fs db trace] in *.
    eexists [_; _]. split; [rewrite <- !app_assoc; reflexivity |].
    split; [right; split; [| eexists; reflexivity] |].
    { unfold fs_exists in Et. destruct (fs w target); congruence. }
    cbn [replay apply_event].
    split; [apply fs_rename_at_dst |]. split; [| reflexivity].
    destruct (fs_remove (fs w) target np); congruence.
  - inversion Ew. subst w2. clear Ew. exists []. cbn [replay app fs trace].
    split; [reflexivity |].
    split; [left; split; [reflexivity |] |].
    + unfold fs_exists in Et. destruct (fs w target); congruence.
    + split; [apply fs_rename_at_dst |]. split; [| reflexivity].
      destruct (fs w np); congruence.
Qed.

Lemma str_truthy_with_ext stem ext : str_truthy (stem ^^ "." ^^ ext) = true.
Proof. destruct stem; reflexivity. Qed.

End Replace.

Section ReplaceClaim.
Context `{External}.

Lemma resource_file_kind_of k m : resource_file (kind_of k) m = file_of k m.
Proof. destruct k; reflexivity. Qed.

Lemma kind_of_not_txt k : kind_of k <> ResourceFileKind.TXT.
Proof. destruct k; discriminate. Qed.

(** The cleanup loop, seen from the file that is being replaced. *)
Lemma cleanup_replaced (k : Slot) ctx w ctx1 w1 m old op np :
  UsdbSong.sync_meta (Context.song ctx) = Some m ->
  file_of k m = Some old ->
  TempResourceFile.old_path (slot_of k (Context.out ctx)) = Some op ->
  TempResourceFile.new_path (slot_of k (Context.out ctx)) = Some np ->
  (forall j q, j <> kind_of k ->
     In q (cleanup_paths (Context.locations ctx) (resource_file j m)
             (TempResourceFiles.get j (Context.out ctx))) ->
     apart q op = true) ->
  _cleanup_exisiting_resource ctx w = (inr ctx1, w1) ->
  exists o1 before msg after,
    ctx1 = Context.set_out o1 ctx
    /\ slot_of k o1 = slot_of k (Context.out ctx)
    /\ (forall j, cleaned (TempResourceFiles.get j (Context.out ctx))
                    (TempResourceFiles.get j o1))
    /\ trace w1 = trace w ++ before ++ [Trash op; Log DEBUG msg] ++ after
    /\ fs w1 = replay (before ++ [Trash op; Log DEBUG msg] ++ after) (fs w)
    /\ forallb (spares op) before = true
    /\ forallb (spares op) after = true.
Proof.
  intros Hm Hold Hop Hnp Hothers E.
  pose proof (cleanup_exisiting_resource_spec _ _ _ _ E) as (o0 & Hc0 & Hcl).
  unfold _cleanup_exisiting_resource in E. rewrite Hm in E.
  inv_bind_as E o1 w1' Eloop. rewrite Hc0 in E. injection E as Heq Hw.
  subst w1' ctx1 o0.
  rewrite (for_ext _ _
             (on_slot (fun x => cleanup_slot (Context.locations ctx) (fst (fst x)))
                snd))
    in Eloop by (intros [[o kind] j] s w0; reflexivity).
  destruct (cleanup_list_split m (kind_of k)) as (pre & post & Hsplit & Hrest).
  assert (Hnd : NoDup (map snd (pre ++ (resource_file (kind_of k) m, kind_of k,
                                        kind_of k) :: post))).
  { rewrite <- Hsplit. exact iter_NoDup. }
  rewrite Hsplit in Eloop.
  destruct (on_slots_focus _ _
              (fun x a => cleanup_allowed (Context.locations ctx) (fst (fst x)) a)
              (fun x a => only_cleanup_slot_allowed _ _ _)
              _ _ _ _ _ _ _ Hnd Eloop)
    as (wa & a & wb & before & after & Estep & Hget & Etb & Efb & Epb
        & Eta & Efa & Epa).
  cbn [fst snd] in Estep, Hget.
  rewrite resource_file_kind_of, Hold in Estep.
  rewrite (cleanup_slot_replaced _ _ _ op np _ Hop Hnp) in Estep.
  injection Estep as Ha Hw. rewrite <- Ha in Hget. subst wb. clear Ha.
  cbn [fs trace] in Eta, Efa.
  assert (Hsp : forall ys evs,
            (forall y, In y ys -> In y (pre ++ post)) ->
            forallb (some_allows snd
                       (fun x a => cleanup_allowed (Context.locations ctx)
                                     (fst (fst x)) a) ys (Context.out ctx)) evs
            = true ->
            forallb (spares op) evs = true).
  { intros ys evs Hys Hall. rewrite forallb_forall in *. intros e He.
    specialize (Hall e He). unfold some_allows in Hall.
    apply existsb_exists in Hall. destruct Hall as (y & Hy & Hallow).
    destruct (Hrest y (Hys y Hy)) as [Hne Hfile].
    apply (cleanup_allowed_spares (Context.locations ctx) (fst (fst y))
             (TempResourceFiles.get (snd y) (Context.out ctx))); [| exact Hallow].
    intros q Hq. apply (Hothers (snd y) q Hne). rewrite <- Hfile. exact Hq. }
  eexists o1, before, _, after.
  split; [reflexivity |]. split; [exact Hget |]. split; [exact Hcl |].
  split; [rewrite Eta, Etb, <- !app_assoc; reflexivity |].
  split; [rewrite Efa, Efb, !replay_app; reflexivity |].
  split.
  - apply (Hsp pre); [intros y Hy; apply in_or_app; auto | exact Epb].
  - apply (Hsp post); [intros y Hy; apply in_or_app; auto | exact Epa].
Qed.

(** The persist loop, seen from a staged file whose target is not the place
    of any other. *)
Lemma persist_replaced (k : Slot) ctx3 w3 c2 w2 np op :
  TempResourceFile.new_path (slot_of k (Context.out ctx3)) = Some np ->
  fs w3 op = None ->
  (forall j q, j <> kind_of k ->
     TempResourceFile.new_path (TempResourceFiles.get j (Context.out c2))
     = Some q ->
     apart q op = true
     /\ apart q (Locations.file_path (Context.locations ctx3) (name np) "")
        = true) ->
  (forall j p, j <> kind_of k ->
     TempResourceFile.new_path (TempResourceFiles.get j (Context.out ctx3))
     = Some p ->
     apart p (Locations.file_path (Context.locations ctx3) (name np) "")
     = true) ->
  _persist_tempfiles ctx3 w3 = (inr c2, w2) ->
  exists before after,
    Context.locations c2 = Context.locations ctx3
    /\ trace w2
       = trace w3
         ++ before
         ++ Rename np (Locations.file_path (Context.locations ctx3) (name np) "")
            :: after
    /\ trashed op before = 0 /\ trashed op after = 0
    /\ TempResourceFile.new_path (slot_of k (Context.out c2))
       = Some (Locations.file_path (Context.locations ctx3) (name np) "")
    /\ fs w2 (Locations.file_path (Context.locations ctx3) (name np) "")
       = replay before (fs w3) np
    /\ replay before (fs w3) np <> None.
Proof.
  intros Hnp Habsent Htargets Hsources E.
  remember (Locations.file_path (Context.locations ctx3) (name np) "") as t
    eqn:Ht.
  pose proof (persist_tempfiles_spec _ _ _ _ E) as (o4 & Hc2 & Hpersisted).
  unfold _persist_tempfiles in E.
  inv_bind_as E o4' w4 Eloop. inversion E. subst c2 w4. clear E.
  assert (o4' = o4) by (destruct ctx3; inversion H1; reflexivity).
  subst o4'. clear H1.
  change (for_ TempResourceFiles.iter
            (on_slot (fun _ : ResourceFileKind.t =>
                        persist_slot (Context.locations ctx3))
               (fun j => j)) (Context.out ctx3) w3 = (inr o4, w2)) in Eloop.
  destruct (iter_split (kind_of k)) as (pre & post & Hsplit & Hrest).
  assert (Hnd : NoDup (map (fun j : ResourceFileKind.t => j)
                         (pre ++ kind_of k :: post))).
  { rewrite map_id, <- Hsplit. exact iter_NoDup. }
  rewrite Hsplit in Eloop.
  destruct (on_slots_focus _ _
              (fun (_ : ResourceFileKind.t) a =>
                 persist_allowed (Context.locations ctx3) a)
              (fun _ a => only_persist_slot_allowed _ _)
              _ _ _ _ _ _ _ Hnd Eloop)
    as (wa & a & wb & before & after & Estep & Hget & Etb & Efb & Epb
        & Eta & Efa & Epa).
  fold (slot_of k (Context.out ctx3)) in Estep.
  assert (Hallowed : forall ys e,
            (forall y, In y ys -> In y (pre ++ post)) ->
            some_allows (fun j : ResourceFileKind.t => j)
              (fun (_ : ResourceFileKind.t) a =>
                 persist_allowed (Context.locations ctx3) a)
              ys (Context.out ctx3) e = true ->
            spares op e = true /\ keeps t e = true).
  { intros ys e Hys Hall. unfold some_allows in Hall.
    apply existsb_exists in Hall. destruct Hall as (j & Hj & Hallow).
    pose proof (Hrest j (Hys j Hj)) as Hne.
    destruct (Hpersisted j) as (_ & _ & Hnew). cbn [Context.out Context.set_out] in *.
    assert (Hq : forall q,
              In q (persist_target (Context.locations ctx3)
                      (TempResourceFiles.get j (Context.out ctx3))) ->
              apart q op = true /\ apart q t = true).
    { intros q Hq. apply (Htargets j q Hne). cbn [Context.out Context.set_out].
      rewrite Hnew. unfold persist_target in Hq.
      destruct (TempResourceFile.new_path
                  (TempResourceFiles.get j (Context.out ctx3))) as [npj |];
        cbn [In] in Hq; [| contradiction].
      destruct Hq as [<- | []]. reflexivity. }
    split.
    - apply (persist_allowed_spares _ _ _ _ (fun q Hin => proj1 (Hq q Hin))
               Hallow).
    - apply (persist_allowed_keeps _ _ _ _ (fun q Hin => proj2 (Hq q Hin))
               (fun p Hp => Hsources j p Hne Hp) Hallow). }
  assert (Hsb : forallb (spares op) before = true).
  { rewrite forallb_forall in *. intros e He.
    apply (Hallowed pre e); [intros y Hy; apply in_or_app; auto |].
    exact (Epb e He). }
  assert (Hsa : forallb (spares op) after = true).
  { rewrite forallb_forall in *. intros e He.
    apply (Hallowed post e); [intros y Hy; apply in_or_app; auto |].
    exact (Epa e He). }
  assert (Hka : forallb (keeps t) after = true).
  { rewrite forallb_forall in *. intros e He.
    apply (Hallowed post e); [intros y Hy; apply in_or_app; auto |].
    exact (Epa e He). }
  assert (Hwa : fs wa op = None).
  { rewrite Efb. apply spares_absent; assumption. }
  destruct (persist_slot_staged _ _ _ _ _ _ Hnp Estep)
    as (evs & Etk & Hevs & Hmoved & Hthere & Hnew).
  rewrite <- Ht in *.
  assert (Htk : trashed op evs = 0).
  { destruct Hevs as [[-> _] | (Hex & msg & ->)]; [reflexivity |].
    unfold trashed. cbn [filter is_trash].
    assert (Hne : path_eqb t op = false).
    { apply path_eqb_neq. intros ->. contradiction. }
    rewrite Hne. reflexivity. }
  exists (before ++ evs), after.
  split; [reflexivity |].
  split; [rewrite Eta, Etk, Etb, <- !app_assoc; reflexivity |].
  split; [rewrite trashed_app, (spares_trashed _ _ Hsb), Htk; reflexivity |].
  split; [apply spares_trashed; exact Hsa |].
  split; [unfold slot_of; cbn [Context.out Context.set_out]; rewrite Hget;
          exact Hnew |].
  rewrite replay_app, <- Efb.
  destruct (replay evs (fs wa) np) as [n |] eqn:En; [| congruence].
  split; [| discriminate].
  rewrite Efa. apply replay_keeps; [exact Hka | congruence].
Qed.

(** C3.  Take a file of the song that is in sync (the staged slot points at
    the old file in the song folder) and for which a new file was staged.
    Suppose the other files keep out of its way: what their cleanup trashes
    or renames to and where their staged files end up is neither the old
    file's path nor the new file's target, their staged files lie in the
    temporary directory, which holds neither the old file nor the target,
    and a renamed song folder does not hold the old file's path.  Then a
    successful commit sends the old file's path to the trash exactly once
    and moves the staged file to its name inside the final song folder,
    where it still lies afterwards; for a file staged as
    [temp_path(ext=ext)] that name is the stem plus the extension. *)
Theorem replaced_file_trashed_once_and_renamed (k : Slot) ctx w c2 w2 m old np :
  let l := Context.locations ctx in
  let l' := Context.locations c2 in
  let op := Locations.file_path l (ResourceFile.fname old) "" in
  let t := Locations.file_path l' (name np) "" in
  UsdbSong.sync_meta (Context.song ctx) = Some m ->
  file_of k m = Some old ->
  TempResourceFile.old_path (slot_of k (Context.out ctx)) = Some op ->
  TempResourceFile.new_path (slot_of k (Context.out ctx)) = Some np ->
  SongLoader.commit_stage ctx w = (inr c2, w2) ->
  (forall j q, j <> kind_of k ->
     In q (cleanup_paths l (resource_file j m)
             (TempResourceFiles.get j (Context.out ctx))) ->
     apart q op = true) ->
  (forall j q, j <> kind_of k ->
     TempResourceFile.new_path (TempResourceFiles.get j (Context.out c2))
     = Some q ->
     apart q op = true /\ apart q t = true) ->
  (forall j p, j <> kind_of k ->
     TempResourceFile.new_path (TempResourceFiles.get j (Context.out ctx))
     = Some p ->
     is_under (Locations.tempdir l) p = true) ->
  apart (Locations.tempdir l) op = true ->
  apart (Locations.tempdir l) t = true ->
  Locations.folder l' = Locations.folder l
  \/ apart (Locations.folder l') op = true ->
  exists before after,
    trace w2 = trace w ++ before ++ Rename np t :: after
    /\ trashed op (before ++ Rename np t :: after) = 1
    /\ TempResourceFile.new_path (slot_of k (Context.out c2)) = Some t
    /\ fs w2 t = replay before (fs w) np
    /\ fs w2 t <> None
    /\ (forall ext,
          str_truthy ext = true -> np = Locations.temp_path l "" ext ->
          t = Locations.file_path l' "" ext).
Proof.
  intros l l' op t Hm Hold Hop Hnp Hrun Hcleanup Htargets Hstaged
    Htmp_op Htmp_t Hfolder.
  unfold SongLoader.commit_stage in Hrun.
  inv_bind_as Hrun ctx1 w1 E1.
  destruct (cleanup_replaced k ctx w ctx1 w1 m old op np Hm Hold Hop Hnp
              Hcleanup E1)
    as (o1 & cb & msg & ca & -> & Hslot1 & Hcl & Et1 & Ef1 & Hcb & Hca).
  inv_bind_as Hrun lx wE E2. cbn [Context.locations Context.set_out] in E2.
  fold l in E2.
  destruct (ensure_correct_folder_name_spec _ _ _ _ E2) as (Hstem & Htmp & _).
  destruct (ensure_correct_folder_name_events _ _ _ _ E2)
    as (evsE & EtE & EfE & HevsE).
  inv_bind_as Hrun ctx3 w3 E3.
  destruct (maybe_write_txt_slot _ _ _ _ E3) as (Hloc3 & Hother3 & Htxt3).
  destruct (only_run _ _ _ _ _ (only_maybe_write_txt_allowed _) E3)
    as (evsT & EtT & EfT & HpT).
  cbn [Context.locations Context.set_locations Context.out Context.set_out]
    in Hloc3, Hother3, Htxt3, HpT.
  assert (Hl' : l' = lx).
  { destruct (persist_tempfiles_spec _ _ _ _ Hrun) as (o4 & Hc2 & _).
    unfold l'. rewrite Hc2. cbn [Context.locations Context.set_out].
    exact Hloc3. }
  assert (Hk3 : slot_of k (Context.out ctx3) = slot_of k (Context.out ctx)).
  { unfold slot_of. rewrite (Hother3 _ (kind_of_not_txt k)). exact Hslot1. }
  (* the calls between the trashing and the persisting spare the old path *)
  assert (HsE : forallb (spares op) evsE = true).
  { assert (Hmk : spares op (Mkdir (Locations.folder l)) = true).
    { unfold spares. cbn [is_trash keeps_absent negb andb].
      apply (apart_child (Locations.folder l)). }
    destruct HevsE as [-> | ->]; cbn [forallb]; rewrite Hmk; [reflexivity |].
    unfold spares. cbn [is_trash keeps_absent negb andb].
    rewrite <- Hl'. destruct Hfolder as [-> | ->];
      [rewrite path_eqb_refl, orb_true_r | ]; reflexivity. }
  assert (HsT : forallb (spares op) evsT = true).
  { rewrite forallb_forall in *. intros e He. specialize (HpT e He).
    unfold spares. destruct e; cbn [txt_allowed] in HpT; try discriminate;
      [reflexivity |].
    cbn [is_trash keeps_absent negb andb].
    apply path_eqb_eq in HpT. subst p.
    apply negb_true_iff, path_eqb_neq, apart_neq.
    apply (apart_below (Locations.tempdir l)); [exact Htmp_op |].
    unfold Locations.temp_path, joinpath. rewrite Htmp. apply is_under_app. }
  assert (Habsent : fs w3 op = None).
  { rewrite EfT, EfE, Ef1, !replay_app.
    apply spares_absent; [exact HsT |].
    apply spares_absent; [exact HsE |].
    apply spares_absent; [exact Hca |].
    cbn [replay apply_event]. unfold fs_remove.
    rewrite is_under_refl. reflexivity. }
  assert (Ht3 : Locations.file_path (Context.locations ctx3) (name np) "" = t).
  { unfold t. rewrite Hl', Hloc3. reflexivity. }
  destruct (persist_replaced k ctx3 w3 c2 w2 np op) as
    (pb & pa & _ & Etp & Htb & Hta & Hnew & Hfile & Hthere).
  - rewrite Hk3. exact Hnp.
  - exact Habsent.
  - rewrite Ht3. exact Htargets.
  - rewrite Ht3. intros j p Hj Hp.
    apply (apart_below (Locations.tempdir l)); [exact Htmp_t |].
    destruct (ResourceFileKind.eq_dec j ResourceFileKind.TXT) as [-> | Hjt].
    + destruct Htxt3 as [Hsame | Hnewtxt].
      * apply (Hstaged ResourceFileKind.TXT p Hj).
        destruct (Hcl ResourceFileKind.TXT) as (_ & Hn & _).
        rewrite <- Hn, <- Hsame. exact Hp.
      * rewrite Hnewtxt in Hp. injection Hp as <-.
        unfold Locations.temp_path, joinpath. rewrite Htmp. apply is_under_app.
    + apply (Hstaged j p Hj). destruct (Hcl j) as (_ & Hn & _).
      rewrite <- Hn, <- (Hother3 j Hjt). exact Hp.
  - exact Hrun.
  - rewrite Ht3 in *.
    exists (cb ++ [Trash op; Log DEBUG msg] ++ ca ++ evsE ++ evsT ++ pb), pa.
    split.
    { rewrite Etp, EtT, EtE, Et1, <- !app_assoc. reflexivity. }
    split.
    { rewrite !trashed_app. cbn [app]. rewrite Htb.
      rewrite (spares_trashed _ _ Hcb), (spares_trashed _ _ Hca),
        (spares_trashed _ _ HsE), (spares_trashed _ _ HsT).
      change (Rename np t :: pa) with ([Rename np t] ++ pa).
      rewrite trashed_app, Hta.
      unfold trashed. cbn [filter is_trash]. rewrite path_eqb_refl.
      reflexivity. }
    split; [exact Hnew |].
    split.
    { rewrite Hfile, EfT, EfE, Ef1, !replay_app. reflexivity. }
    split; [rewrite Hfile; exact Hthere |].
    intros ext Hext ->. unfold t, Locations.file_path, Locations.temp_path.
    rewrite name_joinpath. f_equal. unfold Locations.generic_name.
    rewrite Hext. cbn [str_truthy String.eqb negb].
    rewrite str_truthy_with_ext, Hl', Hstem. reflexivity.
Qed.

End ReplaceClaim.

(** A song that was loaded before from another audio resource; this time the
    second comment video can be fetched, as audio and as video. *)
Module ReplaceDemo.
Import Demo.

Definition ctx : Context.t :=
  KeepDemo.value KeepDemo.ctx0
    (@SongLoader.download_stage external
       (@Context.__attrs_post_init__ external (fs KeepDemo.library)
          KeepDemo.ctx0)
       KeepDemo.library).

Definition staged_world : World :=
  snd (@SongLoader.download_stage external
         (@Context.__attrs_post_init__ external (fs KeepDemo.library)
            KeepDemo.ctx0)
         KeepDemo.library).

Definition after_commit : (Exn + Context.t) * World :=
  @SongLoader.commit_stage external ctx staged_world.

Definition old_path : Path :=
  ["songs"; "Artist - Title"; "Artist - Title.m4a"].
Definition new_path : Path := ["tmp"; "usdb"; "Artist - Title.m4a"].

End ReplaceDemo.

Lemma replaced_file_trashed_once_and_renamed_witness :
  exists before after,
    trace (snd ReplaceDemo.after_commit)
    = trace ReplaceDemo.staged_world
      ++ before
      ++ Rename ReplaceDemo.new_path ReplaceDemo.old_path :: after
    /\ trashed ReplaceDemo.old_path
         (before ++ Rename ReplaceDemo.new_path ReplaceDemo.old_path :: after)
       = 1
    /\ fs (snd ReplaceDemo.after_commit) ReplaceDemo.old_path
       = replay before (fs ReplaceDemo.staged_world) ReplaceDemo.new_path.
Proof.
  destruct (@replaced_file_trashed_once_and_renamed Demo.external AudioSlot
              ReplaceDemo.ctx ReplaceDemo.staged_world
              (KeepDemo.value ReplaceDemo.ctx ReplaceDemo.after_commit)
              (snd ReplaceDemo.after_commit)
              KeepDemo.sync_meta KeepDemo.old_audio ReplaceDemo.new_path)
    as (before & after & Ht & Hn & _ & Hf & _).
  - vm_compute. reflexivity.
  - reflexivity.
  - vm_compute. reflexivity.
  - vm_compute. reflexivity.
  - vm_compute. reflexivity.
  - intros j q Hj Hin. destruct j; try congruence; vm_compute in Hin;
      try contradiction; destruct Hin as [<- | []]; vm_compute; reflexivity.
  - intros j q Hj Hin. destruct j; try congruence; vm_compute in Hin;
      try discriminate; injection Hin as <-; vm_compute; auto.
  - intros j p Hj Hin. destruct j; try congruence; vm_compute in Hin;
      try discriminate; injection Hin as <-; vm_compute; reflexivity.
  - vm_compute. reflexivity.
  - vm_compute. reflexivity.
  - left. vm_compute. reflexivity.
  - exists before, after. auto.
Defined.

Lemma run_deleted_song_touches_no_file_witness :
  (forall w0, fst (@_get_usdb_data Demo.external 404 w0) = inl UsdbNotFoundError)
  /\ exists song' w',
       @SongLoader.run Demo.external (Demo.song 404) Demo.options Demo.world
       = (inr song', w')
       /\ db w' 404 = None
       /\ posts (trace w')
          = [SongChanged 404; SongDeleted 404; DownloadFinished 404].
Proof.
  split; [intros w0; reflexivity |].
  destruct (@run_deleted_song_touches_no_file Demo.external (Demo.song 404)
              Demo.options Demo.world (fun w0 => eq_refl))
    as (song' & w' & evs & Hrun & _ & Ht & _ & Hp & Hdb & _).
  exists song', w'. split; [exact Hrun |]. split; [exact Hdb |].
  rewrite Ht. exact Hp.
Defined.





(** ** Running again *)

Definition not_fetch (e : Event) : bool := negb (is_fetch e).

Definition fetches (evs : list Event) : list Event := filter is_fetch evs.

Lemma fetches_app a b : fetches (a ++ b) = fetches a ++ fetches b.
Proof. apply filter_app. Qed.

Lemma fetches_not_fetch evs : forallb not_fetch evs = true -> fetches evs = [].
Proof.
  unfold fetches, not_fetch. induction evs as [| e evs IH]; simpl;
    [reflexivity |].
  intros Hn. apply andb_true_iff in Hn. destruct Hn as [He Hn].
  apply negb_true_iff in He. rewrite He. auto.
Qed.

Lemma not_fetch_file_op e : is_file_op e = true -> not_fetch e = true.
Proof. destruct e; simpl; intros; try reflexivity; discriminate. Qed.

(** The candidates that are walked before the one the slot already holds. *)
Fixpoint until_seeded (seeded : option string) (cs : list string)
    : list string :=
  match cs with
  | [] => []
  | c :: rest =>
      if opt_eqb seeded c then [] else c :: until_seeded seeded rest
  end.

Definition fetch_event (k : Slot) (r : string) : Event :=
  match k with
  | AudioSlot => FetchAudio r
  | VideoSlot => FetchVideo r
  | CoverSlot => FetchImage ImageKind.COVER r
  | BackgroundSlot => FetchImage ImageKind.BACKGROUND r
  end.

Section Again.
Context `{External}.

(** Does the download function of the slot get to its candidates? *)
Definition enabled (k : Slot) (ctx : Context.t) : bool :=
  match k with
  | AudioSlot =>
      match Options.audio_options (Context.options ctx) with
      | Some _ => true
      | None => false
      end
  | VideoSlot =>
      match Options.video_options (Context.options ctx) with
      | Some _ => negb (is_audio_only (SongTxt.meta_tags (Context.txt ctx)))
      | None => false
      end
  | CoverSlot =>
      match Options.cover (Context.options ctx) with
      | Some _ => true
      | None => false
      end
  | BackgroundSlot =>
      match Options.background_options (Context.options ctx) with
      | Some options =>
          Options.download_background options
            (truthy (Headers.video (SongTxt.headers (Context.txt ctx))))
      | None => false
      end
  end.

(** The candidates the download stage tries to fetch when every fetch
    fails: those before the one the slot holds. *)
Definition attempts (k : Slot) (ctx : Context.t) : list string :=
  if enabled k ctx then
    until_seeded (TempResourceFile.resource (slot_of k (Context.out ctx)))
      (candidates k ctx)
  else [].

Lemma fetch_audio_none ctx r :
  fetch AudioSlot ctx r = None -> truthy (download_audio r) = false.
Proof.
  unfold fetch. destruct (download_audio r) as [ext |]; [| reflexivity].
  simpl. destruct (str_truthy ext); [discriminate | reflexivity].
Qed.

Lemma fetch_video_none ctx r :
  fetch VideoSlot ctx r = None -> truthy (download_video r) = false.
Proof.
  unfold fetch. destruct (download_video r) as [ext |]; [| reflexivity].
  simpl. destruct (str_truthy ext); [discriminate | reflexivity].
Qed.

Lemma resource_dl_download_audio_events r s w :
  exists w' evs,
    resource_dl_download_audio r s w = (inr (download_audio r), w')
    /\ trace w' = trace w ++ FetchAudio r :: evs
    /\ fetches evs = [].
Proof.
  unfold resource_dl_download_audio, bind, emit, write_file, bind, get_fs,
    set_fs, emit, ret.
  destruct (download_audio r); cbn [fst snd trace fs db].
  - eexists. eexists [_]. rewrite <- app_assoc.
    split; [reflexivity |]. split; reflexivity.
  - eexists. exists []. split; [reflexivity |]. split; reflexivity.
Qed.

Lemma resource_dl_download_video_events r s w :
  exists w' evs,
    resource_dl_download_video r s w = (inr (download_video r), w')
    /\ trace w' = trace w ++ FetchVideo r :: evs
    /\ fetches evs = [].
Proof.
  unfold resource_dl_download_video, bind, emit, write_file, bind, get_fs,
    set_fs, emit, ret.
  destruct (download_video r); cbn [fst snd trace fs db].
  - eexists. eexists [_]. rewrite <- app_assoc.
    split; [reflexivity |]. split; reflexivity.
  - eexists. exists []. split; [reflexivity |]. split; reflexivity.
Qed.

Lemma resource_dl_download_and_process_image_events u s k w :
  exists w' evs,
    resource_dl_download_and_process_image u s k w
    = (inr (download_and_process_image u s k), w')
    /\ trace w' = trace w ++ FetchImage k u :: evs
    /\ fetches evs = [].
Proof.
  unfold resource_dl_download_and_process_image, bind, emit, write_file, bind,
    get_fs, set_fs, emit, ret.
  destruct (download_and_process_image u s k); cbn [fst snd trace fs db].
  - eexists. eexists [_]. rewrite <- app_assoc.
    split; [reflexivity |]. split; reflexivity.
  - eexists. exists []. split; [reflexivity |]. split; reflexivity.
Qed.

(** When the candidates before the held one cannot be fetched, the audio
    loop fetches exactly these and changes nothing. *)
Lemma audio_loop_retries items ctx w :
  effects_ok not_fetch items = true ->
  (forall c,
     In c (until_seeded
             (TempResourceFile.resource
                (TempResourceFiles.audio (Context.out ctx)))
             (yields items)) ->
     fetch AudioSlot ctx c = None) ->
  exists res w' evs,
    audio_loop items ctx w = (inr res, w')
    /\ (res = None \/ res = Some ctx)
    /\ trace w' = trace w ++ evs
    /\ fetches evs
       = map FetchAudio
           (until_seeded
              (TempResourceFile.resource
                 (TempResourceFiles.audio (Context.out ctx)))
              (yields items)).
Proof.
  revert w. induction items as [| [r | e] items IH]; intros w Heff Hfail;
    cbn [audio_loop yields until_seeded].
  - exists None, w, []. rewrite app_nil_r. auto.
  - cbn [yields until_seeded] in Hfail.
    destruct (opt_eqb _ r) eqn:Eq.
    + eexists (Some ctx), _, [_]. split; [reflexivity |].
      split; [auto |]. split; reflexivity.
    + destruct (resource_dl_download_audio_events r
                  (Locations.temp_path (Context.locations ctx) "" "") w)
        as (w1 & evs1 & E1 & Et1 & Ef1).
      rewrite (bind_run _ _ _ _ _ E1).
      rewrite (fetch_audio_none ctx r (Hfail r (in_eq _ _))).
      destruct (IH w1) as (res & w' & evs & E & Hres & Et & Ef).
      * exact Heff.
      * intros c Hc. apply Hfail. right. exact Hc.
      * exists res, w', (FetchAudio r :: evs1 ++ evs).
        split; [exact E |]. split; [exact Hres |].
        split; [rewrite Et, Et1, <- app_assoc; reflexivity |].
        change (FetchAudio r :: evs1 ++ evs)
          with ([FetchAudio r] ++ evs1 ++ evs).
        rewrite !fetches_app, Ef1, Ef. reflexivity.
  - cbn [effects_ok forallb] in Heff.
    apply andb_true_iff in Heff. destruct Heff as [He Heff].
    apply andb_true_iff in He. destruct He as [He _].
    destruct (IH (mkWorld (fs w) (db w) (trace w ++ [e])) Heff Hfail)
      as (res & w' & evs & E & Hres & Et & Ef).
    exists res, w', (e :: evs).
    split; [rewrite (bind_run (emit e) _ w tt
                       (mkWorld (fs w) (db w) (trace w ++ [e])) eq_refl);
            exact E |].
    split; [exact Hres |].
    split; [rewrite Et; cbn [trace]; rewrite <- app_assoc; reflexivity |].
    unfold fetches. cbn [filter]. unfold not_fetch in He.
    apply negb_true_iff in He. rewrite He. exact Ef.
Qed.


Lemma video_loop_retries items ctx w :
  effects_ok not_fetch items = true ->
  (forall c,
     In c (until_seeded
             (TempResourceFile.resource
                (TempResourceFiles.video (Context.out ctx)))
             (yields items)) ->
     fetch VideoSlot ctx c = None) ->
  exists res w' evs,
    video_loop items ctx w = (inr res, w')
    /\ (res = None \/ res = Some ctx)
    /\ trace w' = trace w ++ evs
    /\ fetches evs
       = map FetchVideo
           (until_seeded
              (TempResourceFile.resource
                 (TempResourceFiles.video (Context.out ctx)))
              (yields items)).
Proof.
  revert w. induction items as [| [r | e] items IH]; intros w Heff Hfail;
    cbn [video_loop yields until_seeded].
  - exists None, w, []. rewrite app_nil_r. auto.
  - cbn [yields until_seeded] in Hfail.
    destruct (opt_eqb _ r) eqn:Eq.
    + eexists (Some ctx), _, [_]. split; [reflexivity |].
      split; [auto |]. split; reflexivity.
    + destruct (resource_dl_download_video_events r
                  (Locations.temp_path (Context.locations ctx) "" "") w)
        as (w1 & evs1 & E1 & Et1 & Ef1).
      rewrite (bind_run _ _ _ _ _ E1).
      rewrite (fetch_video_none ctx r (Hfail r (in_eq _ _))).
      destruct (IH w1) as (res & w' & evs & E & Hres & Et & Ef).
      * exact Heff.
      * intros c Hc. apply Hfail. right. exact Hc.
      * exists res, w', (FetchVideo r :: evs1 ++ evs).
        split; [exact E |]. split; [exact Hres |].
        split; [rewrite Et, Et1, <- app_assoc; reflexivity |].
        change (FetchVideo r :: evs1 ++ evs)
          with ([FetchVideo r] ++ evs1 ++ evs).
        rewrite !fetches_app, Ef1, Ef. reflexivity.
  - cbn [effects_ok forallb] in Heff.
    apply andb_true_iff in Heff. destruct Heff as [He Heff].
    apply andb_true_iff in He. destruct He as [He _].
    destruct (IH (mkWorld (fs w) (db w) (trace w ++ [e])) Heff Hfail)
      as (res & w' & evs & E & Hres & Et & Ef).
    exists res, w', (e :: evs).
    split; [rewrite (bind_run (emit e) _ w tt
                       (mkWorld (fs w) (db w) (trace w ++ [e])) eq_refl);
            exact E |].
    split; [exact Hres |].
    split; [rewrite Et; cbn [trace]; rewrite <- app_assoc; reflexivity |].
    unfold fetches. cbn [filter]. unfold not_fetch in He.
    apply negb_true_iff in He. rewrite He. exact Ef.
Qed.


Lemma not_fetch_log l m : not_fetch (Log l m) = true.
Proof. reflexivity. Qed.

Lemma maybe_download_audio_retries ctx w :
  (forall c, In c (attempts AudioSlot ctx) -> fetch AudioSlot ctx c = None) ->
  exists w' evs,
    _maybe_download_audio ctx w = (inr ctx, w')
    /\ trace w' = trace w ++ evs
    /\ fetches evs = map (fetch_event AudioSlot) (attempts AudioSlot ctx).
Proof.
  unfold attempts, enabled, _maybe_download_audio.
  destruct (Options.audio_options _) as [options |].
  - intros Hfail.
    destruct (audio_loop_retries
                (islice (Context.all_audio_resources ctx) 10) ctx w)
      as (res & w1 & evs & E & Hres & Et & Ef).
    + apply effects_ok_islice, effects_ok_audio. exact not_fetch_log.
    + exact Hfail.
    + rewrite (bind_run _ _ _ _ _ E).
      destruct Hres as [-> | ->].
      * eexists. eexists (evs ++ [_]). split; [reflexivity |].
        cbn [trace]. rewrite Et, <- app_assoc. split; [reflexivity |].
        rewrite fetches_app, Ef. cbn [fetches filter is_fetch].
        rewrite app_nil_r. reflexivity.
      * exists w1, evs. auto.
  - intros _. exists w, []. rewrite app_nil_r. auto.
Qed.

Lemma maybe_download_video_retries ctx w :
  (forall c, In c (attempts VideoSlot ctx) -> fetch VideoSlot ctx c = None) ->
  exists w' evs,
    _maybe_download_video ctx w = (inr ctx, w')
    /\ trace w' = trace w ++ evs
    /\ fetches evs = map (fetch_event VideoSlot) (attempts VideoSlot ctx).
Proof.
  unfold attempts, enabled, _maybe_download_video.
  destruct (Options.video_options _) as [options |];
    [| intros _; exists w, []; rewrite app_nil_r; auto].
  destruct (is_audio_only _); cbn [negb];
    [intros _; exists w, []; rewrite app_nil_r; auto |].
  intros Hfail.
  destruct (video_loop_retries
              (islice (Context.all_video_resources ctx) 10) ctx w)
    as (res & w1 & evs & E & Hres & Et & Ef).
  - apply effects_ok_islice, effects_ok_video.
  - exact Hfail.
  - rewrite (bind_run _ _ _ _ _ E).
    destruct Hres as [-> | ->].
    + eexists. eexists (evs ++ [_]). split; [reflexivity |].
      cbn [trace]. rewrite Et, <- app_assoc. split; [reflexivity |].
      rewrite fetches_app, Ef. cbn [fetches filter is_fetch].
      rewrite app_nil_r. reflexivity.
    + exists w1, evs. auto.
Qed.

Lemma declared_not_truthy o : truthy o = false -> declared o = [].
Proof.
  destruct o as [u |]; simpl; [| reflexivity]. intros ->. reflexivity.
Qed.

(** What remains of an image download once its URL is known. *)
Lemma image_retries (k : Slot) (kind : ImageKind.t) ctx url seeded stem w
    (unchanged failed : string) (on_success : Path -> M Context.t) :
  fetch_event k = FetchImage kind ->
  (forall c, In c (until_seeded seeded (declared url)) ->
             download_and_process_image c stem kind = None) ->
  truthy url = true ->
  exists w' evs,
    (if opt_eqb seeded (or_empty url) then
       log INFO unchanged ;; ret ctx
     else
       path <- resource_dl_download_and_process_image (or_empty url) stem kind ;;
       match path with
       | Some path => on_success path
       | None => log ERROR failed ;; ret ctx
       end) w
    = (inr ctx, w')
    /\ trace w' = trace w ++ evs
    /\ fetches evs = map (fetch_event k) (until_seeded seeded (declared url)).
Proof.
  intros Hk Hfail Hu. rewrite (truthy_declared _ Hu) in *.
  cbn [until_seeded] in *.
  destruct (opt_eqb seeded (or_empty url)).
  - eexists. eexists [_]. split; [reflexivity |]. split; reflexivity.
  - destruct (resource_dl_download_and_process_image_events (or_empty url)
                stem kind w) as (w1 & evs1 & E1 & Et1 & Ef1).
    rewrite (bind_run _ _ _ _ _ E1).
    rewrite (Hfail _ (in_eq _ _)).
    eexists. eexists (FetchImage kind (or_empty url) :: evs1 ++ [_]).
    split; [reflexivity |]. cbn [trace]. rewrite Et1, <- app_assoc.
    split; [reflexivity |].
    change (FetchImage kind (or_empty url) :: evs1 ++ [Log ERROR failed])
      with ([FetchImage kind (or_empty url)] ++ evs1 ++ [Log ERROR failed]).
    rewrite !fetches_app, Ef1, Hk. reflexivity.
Qed.


Lemma cover_url_run ctx w :
  exists url w', Context.cover_url ctx w = (inr url, w').
Proof.
  unfold Context.cover_url.
  destruct (MetaTags.cover _); [eexists; eexists; reflexivity |].
  destruct (truthy _); eexists; eexists; reflexivity.
Qed.

Lemma maybe_download_cover_retries ctx w :
  (forall c, In c (attempts CoverSlot ctx) -> fetch CoverSlot ctx c = None) ->
  exists w' evs,
    _maybe_download_cover ctx w = (inr ctx, w')
    /\ trace w' = trace w ++ evs
    /\ fetches evs = map (fetch_event CoverSlot) (attempts CoverSlot ctx).
Proof.
  unfold attempts, enabled, _maybe_download_cover.
  destruct (Options.cover _) as [options |];
    [| intros _; exists w, []; rewrite app_nil_r; auto].
  intros Hfail.
  destruct (cover_url_run ctx w) as (url & w1 & E1).
  pose proof (cover_url_value _ _ _ _ E1) as ->.
  destruct (only_run _ _ _ _ _ (only_cover_url not_fetch not_fetch_log ctx) E1)
    as (evs1 & Et1 & _ & Hn1).
  apply fetches_not_fetch in Hn1.
  rewrite (bind_run _ _ _ _ _ E1).
  cbn [candidates slot_of kind_of TempResourceFiles.get] in *.
  destruct (truthy (cover_candidate ctx)) eqn:Hu; cbn [negb].
  - edestruct (image_retries CoverSlot ImageKind.COVER ctx
                 (cover_candidate ctx)
                 (TempResourceFile.resource
                    (TempResourceFiles.cover (Context.out ctx)))
                 (Locations.temp_path (Context.locations ctx) "" "") w1)
      as (w' & evs & E & Et & Ef); [reflexivity | exact Hfail | exact Hu |].
    exists w', (evs1 ++ evs). split; [exact E |].
    split; [rewrite Et, Et1, <- app_assoc; reflexivity |].
    rewrite fetches_app, Hn1, Ef. reflexivity.
  - rewrite (declared_not_truthy _ Hu). cbn [until_seeded map].
    eexists. eexists (evs1 ++ [_]). split; [reflexivity |].
    cbn [trace]. rewrite Et1, <- app_assoc. split; [reflexivity |].
    rewrite fetches_app, Hn1. reflexivity.
Qed.

Lemma background_url_run ctx w :
  exists url w', Context.background_url ctx w = (inr url, w').
Proof.
  unfold Context.background_url.
  destruct (MetaTags.background _); eexists; eexists; reflexivity.
Qed.

Lemma maybe_download_background_retries ctx w :
  (forall c, In c (attempts BackgroundSlot ctx) ->
             fetch BackgroundSlot ctx c = None) ->
  exists w' evs,
    _maybe_download_background ctx w = (inr ctx, w')
    /\ trace w' = trace w ++ evs
    /\ fetches evs
       = map (fetch_event BackgroundSlot) (attempts BackgroundSlot ctx).
Proof.
  unfold attempts, enabled, _maybe_download_background.
  destruct (Options.background_options _) as [options |];
    [| intros _; exists w, []; rewrite app_nil_r; auto].
  destruct (Options.download_background options _); cbn [negb];
    [| intros _; exists w, []; rewrite app_nil_r; auto].
  intros Hfail.
  destruct (background_url_run ctx w) as (url & w1 & E1).
  pose proof (background_url_value _ _ _ _ E1) as ->.
  destruct (only_run _ _ _ _ _
              (only_background_url not_fetch not_fetch_log ctx) E1)
    as (evs1 & Et1 & _ & Hn1).
  apply fetches_not_fetch in Hn1.
  rewrite (bind_run _ _ _ _ _ E1).
  cbn [candidates slot_of kind_of TempResourceFiles.get] in *.
  destruct (truthy (background_candidate ctx)) eqn:Hu; cbn [negb].
  - edestruct (image_retries BackgroundSlot ImageKind.BACKGROUND ctx
                 (background_candidate ctx)
                 (TempResourceFile.resource
                    (TempResourceFiles.background (Context.out ctx)))
                 (Locations.temp_path (Context.locations ctx) "" "") w1)
      as (w' & evs & E & Et & Ef); [reflexivity | exact Hfail | exact Hu |].
    exists w', (evs1 ++ evs). split; [exact E |].
    split; [rewrite Et, Et1, <- app_assoc; reflexivity |].
    rewrite fetches_app, Hn1, Ef. reflexivity.
  - rewrite (declared_not_truthy _ Hu). cbn [until_seeded map].
    eexists. eexists (evs1 ++ [_]). split; [reflexivity |].
    cbn [trace]. rewrite Et1, <- app_assoc. split; [reflexivity |].
    rewrite fetches_app, Hn1. reflexivity.
Qed.

(** The four slots in the order in which the download stage handles
    them. *)
Definition slots : list Slot := [AudioSlot; VideoSlot; CoverSlot; BackgroundSlot].

(** A download stage in which no attempted fetch succeeds returns the
    context as it was, having fetched exactly the attempted candidates. *)
Lemma download_stage_retries ctx w :
  (forall k c, In c (attempts k ctx) -> fetch k ctx c = None) ->
  exists w' evs,
    SongLoader.download_stage ctx w = (inr ctx, w')
    /\ trace w' = trace w ++ evs
    /\ fetches evs
       = flat_map (fun k => map (fetch_event k) (attempts k ctx)) slots.
Proof.
  intros Hfail. unfold SongLoader.download_stage.
  destruct (maybe_download_audio_retries ctx w (Hfail AudioSlot))
    as (w1 & evs1 & E1 & Et1 & Ef1).
  rewrite (bind_run _ _ _ _ _ E1).
  destruct (maybe_download_video_retries ctx w1 (Hfail VideoSlot))
    as (w2 & evs2 & E2 & Et2 & Ef2).
  rewrite (bind_run _ _ _ _ _ E2).
  destruct (maybe_download_cover_retries ctx w2 (Hfail CoverSlot))
    as (w3 & evs3 & E3 & Et3 & Ef3).
  rewrite (bind_run _ _ _ _ _ E3).
  destruct (maybe_download_background_retries ctx w3 (Hfail BackgroundSlot))
    as (w4 & evs4 & E4 & Et4 & Ef4).
  rewrite (bind_run _ _ _ _ _ E4).
  destruct (maybe_write_audio_tags_run ctx w4) as (w5 & E5).
  destruct (only_run _ _ _ _ _
              (only_maybe_write_audio_tags not_fetch not_fetch_log
                 not_fetch_file_op ctx) E5)
    as (evs5 & Et5 & _ & Hn5).
  apply fetches_not_fetch in Hn5.
  rewrite (bind_run _ _ _ _ _ E5).
  exists w5, (evs1 ++ evs2 ++ evs3 ++ evs4 ++ evs5).
  split; [reflexivity |].
  split; [rewrite Et5, Et4, Et3, Et2, Et1, <- !app_assoc; reflexivity |].
  rewrite !fetches_app, Ef1, Ef2, Ef3, Ef4, Hn5. cbn [slots flat_map].
  rewrite !app_nil_r. reflexivity.
Qed.

End Again.

Section AgainClaim.
Context `{External}.

(** The resource of the txt that a run commits. *)
Definition txt_resource (ctx : Context.t) : option string :=
  match Options.txt_options (Context.options ctx) with
  | Some _ =>
      if str_truthy (usdb_url (UsdbSong.song_id (Context.song ctx)))
      then Some (usdb_url (UsdbSong.song_id (Context.song ctx)))
      else None
  | None => None
  end.

(** The resource committed for a file that was not replaced. *)
Lemma committed_kept l a a' :
  committed l a a' ->
  TempResourceFile.new_path a = None ->
  option_map ResourceFile.resource (TempResourceFile.to_resource_file a')
  = match TempResourceFile.old_path a, TempResourceFile.resource a with
    | Some _, Some r => if str_truthy r then Some r else None
    | _, _ => None
    end.
Proof.
  intros (b & (Hr & Hn & Hnone & Hsome & _) & (Hr' & Ho' & Hn')) Hnew.
  rewrite Hn, Hnew in Hn'.
  unfold TempResourceFile.to_resource_file, TempResourceFile.path_and_resource.
  rewrite Hn', Hr', Hr, Ho'. cbn [or_else].
  destruct (TempResourceFile.old_path a) as [p |].
  - destruct (TempResourceFile.old_path b) as [p' |];
      [| exfalso; apply Hsome; [discriminate | reflexivity]].
    destruct (TempResourceFile.resource a) as [r |]; [| reflexivity].
    destruct (str_truthy r); reflexivity.
  - rewrite (Hnone eq_refl). reflexivity.
Qed.

Lemma maybe_write_txt_txt ctx w ctx' w' :
  _maybe_write_txt ctx w = (inr ctx', w') ->
  match Options.txt_options (Context.options ctx) with
  | Some _ =>
      TempResourceFile.new_path (TempResourceFiles.txt (Context.out ctx'))
      <> None
      /\ TempResourceFile.resource (TempResourceFiles.txt (Context.out ctx'))
         = Some (usdb_url (UsdbSong.song_id (Context.song ctx)))
  | None =>
      TempResourceFiles.txt (Context.out ctx')
      = TempResourceFiles.txt (Context.out ctx)
  end
  /\ Context.song ctx' = Context.song ctx
  /\ Context.options ctx' = Context.options ctx.
Proof.
  unfold _maybe_write_txt.
  destruct (Options.txt_options _).
  - intros E. inv_bind E. inv_bind E. inversion E.
    cbn [Context.out Context.set_out TempResourceFiles.txt
         TempResourceFiles.set_txt TempResourceFile.new_path
         TempResourceFile.resource Context.song Context.options].
    split; [split; [discriminate | reflexivity] |]. split; reflexivity.
  - intros E. inversion E. auto.
Qed.

(** The resource of the txt after the commit stage, for a run that started
    without a staged txt. *)
Lemma commit_stage_txt ctx w c2 w2 :
  TempResourceFiles.txt (Context.out ctx) = TempResourceFile.empty ->
  SongLoader.commit_stage ctx w = (inr c2, w2) ->
  option_map ResourceFile.resource
    (TempResourceFile.to_resource_file (TempResourceFiles.txt (Context.out c2)))
  = txt_resource ctx.
Proof.
  intros Hempty E. unfold SongLoader.commit_stage in E.
  inv_bind_as E ctx1 w1 E1.
  apply cleanup_exisiting_resource_spec in E1. destruct E1 as (o1 & -> & Hcl).
  inv_bind_as E lx wE E2. inv_bind_as E ctx3 w3 E3.
  apply maybe_write_txt_txt in E3. destruct E3 as (Htxt & Hsong & Hopt).
  apply persist_tempfiles_spec in E. destruct E as (o4 & -> & Hp).
  destruct (Hp ResourceFileKind.TXT) as (Hr4 & Ho4 & Hn4).
  destruct (Hcl ResourceFileKind.TXT) as (Hr1 & Hn1 & Ho1 & _).
  cbn [TempResourceFiles.get Context.out Context.set_out Context.set_locations
       Context.options Context.song] in *.
  rewrite Hempty in Hr1, Hn1, Ho1. cbn [TempResourceFile.empty
    TempResourceFile.resource TempResourceFile.new_path
    TempResourceFile.old_path] in Hr1, Hn1, Ho1.
  unfold txt_resource, TempResourceFile.to_resource_file,
    TempResourceFile.path_and_resource.
  rewrite Hn4, Hr4, Ho4.
  destruct (Options.txt_options (Context.options ctx)).
  - destruct Htxt as [Hnew Hres]. rewrite Hres.
    destruct (TempResourceFile.new_path (TempResourceFiles.txt (Context.out ctx3)));
      [| congruence].
    cbn [or_else]. destruct (str_truthy _); reflexivity.
  - rewrite Htxt, Hn1, Hr1, (Ho1 eq_refl). reflexivity.
Qed.

Lemma until_seeded_first c rest :
  until_seeded (Some c) (c :: rest) = [].
Proof. cbn [until_seeded opt_eqb]. rewrite String.eqb_refl. reflexivity. Qed.

(** C2, amended.  Take a run whose context is seeded from the song's sync
    meta, every recorded file being in sync and naming a resource.  If the
    fetches it attempts fail (as they did before), the download stage
    fetches exactly the candidates that come before the recorded resource in
    each slot's candidate list (all of them when the recorded resource is
    not among them or nothing is recorded) and stages nothing; that is no
    fetch at all when every enabled slot with candidates has its first
    candidate recorded.  The record written after the commit stage then has
    the recorded resources again, and the txt resource that depends on
    options and song only. *)
Theorem second_run_fetches_only_failed_candidates f ctx0 m w :
  Context.out ctx0 = TempResourceFiles.empty ->
  UsdbSong.sync_meta (Context.song ctx0) = Some m ->
  (forall k rf,
     file_of k m = Some rf ->
     is_in_sync f rf (Locations.folder (Context.locations ctx0)) = true
     /\ str_truthy (ResourceFile.resource rf) = true) ->
  (forall k c,
     In c (attempts k (Context.__attrs_post_init__ f ctx0)) ->
     fetch k (Context.__attrs_post_init__ f ctx0) c = None) ->
  exists w1 evs,
    SongLoader.download_stage (Context.__attrs_post_init__ f ctx0) w
    = (inr (Context.__attrs_post_init__ f ctx0), w1)
    /\ trace w1 = trace w ++ evs
    /\ fetches evs
       = flat_map
           (fun k =>
              map (fetch_event k)
                (attempts k (Context.__attrs_post_init__ f ctx0)))
           slots
    /\ ((forall k,
           enabled k (Context.__attrs_post_init__ f ctx0) = true ->
           match candidates k (Context.__attrs_post_init__ f ctx0) with
           | [] => True
           | c :: _ =>
               exists rf, file_of k m = Some rf /\ ResourceFile.resource rf = c
           end) ->
        fetches evs = [])
    /\ forall c2 w2 w3 c3 w4,
         SongLoader.commit_stage (Context.__attrs_post_init__ f ctx0) w1
         = (inr c2, w2) ->
         _write_sync_meta c2 w3 = (inr c3, w4) ->
         exists m',
           UsdbSong.sync_meta (Context.song c3) = Some m'
           /\ (forall k,
                 option_map ResourceFile.resource (file_of k m')
                 = option_map ResourceFile.resource (file_of k m))
           /\ option_map ResourceFile.resource (SyncMeta.txt m')
              = txt_resource ctx0.
Proof.
  intros Hempty Hm Hsync Hfail.
  set (ctx := Context.__attrs_post_init__ f ctx0) in *.
  assert (Hslot : forall k,
            slot_of k (Context.out ctx)
            = match file_of k m with
              | Some rf =>
                  TempResourceFile.mk
                    (Some (Locations.file_path (Context.locations ctx0)
                             (ResourceFile.fname rf) ""))
                    None (Some (ResourceFile.resource rf))
              | None => TempResourceFile.empty
              end).
  { intros k. unfold ctx. rewrite (post_init_slot f ctx0 m k Hm).
    unfold Context.seed. rewrite Hempty.
    destruct (file_of k m) as [rf |] eqn:Hf.
    - rewrite (proj1 (Hsync k rf Hf)). destruct k; reflexivity.
    - destruct k; reflexivity. }
  destruct (download_stage_retries ctx w Hfail) as (w1 & evs & E & Et & Ef).
  exists w1, evs. split; [exact E |]. split; [exact Et |].
  split; [exact Ef |]. split.
  - intros Hfirst. rewrite Ef.
    assert (Hnil : forall k, attempts k ctx = []).
    { intros k. unfold attempts. specialize (Hfirst k).
      destruct (enabled k ctx); [| reflexivity].
      specialize (Hfirst eq_refl).
      destruct (candidates k ctx) as [| c rest]; [reflexivity |].
      destruct Hfirst as (rf & Hrf & <-).
      rewrite Hslot, Hrf. apply until_seeded_first. }
    cbn [slots flat_map]. rewrite !Hnil. reflexivity.
  - intros c2 w2 w3 c3 w4 Ec Ew.
    pose proof (commit_stage_txt ctx w1 c2 w2) as Htxt.
    destruct (post_init_frame f ctx0) as (o0 & Hpi & Htxt0).
    fold ctx in Hpi.
    assert (Hctx_txt : TempResourceFiles.txt (Context.out ctx)
                       = TempResourceFile.empty).
    { rewrite Hpi. cbn [Context.out Context.set_out]. rewrite Htxt0, Hempty.
      reflexivity. }
    specialize (Htxt Hctx_txt Ec).
    apply commit_stage_spec in Ec.
    destruct Ec as (l' & x' & o2 & -> & _ & _ & _ & _ & Hc).
    apply write_sync_meta_spec in Ew.
    destruct Ew as (m' & Hm' & _ & Htxt' & Hfiles).
    exists m'. split; [exact Hm' |]. split.
    + intros k. rewrite Hfiles.
      cbn [Context.out Context.set_out].
      rewrite (committed_kept l' _ _ (Hc k)).
      * rewrite Hslot. destruct (file_of k m) as [rf |] eqn:Hf;
          cbn [TempResourceFile.old_path TempResourceFile.resource
               TempResourceFile.empty option_map]; [| reflexivity].
        rewrite (proj2 (Hsync k rf Hf)). reflexivity.
      * rewrite Hslot. destruct (file_of k m); reflexivity.
    + rewrite Htxt'. cbn [Context.out Context.set_out] in Htxt |- *.
      rewrite Htxt. unfold txt_resource. rewrite Hpi. reflexivity.
Qed.

End AgainClaim.

(** ** Two runs in a row *)

Module AgainDemo.
Import Demo.

(** The first run, from an empty library. *)
Definition first : (Exn + UsdbSong.t) * World :=
  @SongLoader.run external (song 1) options world.

(** The song the first run stored. *)
Definition stored : UsdbSong.t :=
  match db (snd first) 1 with
  | Some s => s
  | None => song 1
  end.

Definition sync_meta : SyncMeta.t :=
  match UsdbSong.sync_meta stored with
  | Some m => m
  | None => KeepDemo.sync_meta
  end.

(** The second run, from what the first one left. *)
Definition second : (Exn + UsdbSong.t) * World :=
  @SongLoader.run external stored options (snd first).

Definition stored_again : UsdbSong.t :=
  match db (snd second) 1 with
  | Some s => s
  | None => song 1
  end.

Definition sync_meta_again : SyncMeta.t :=
  match UsdbSong.sync_meta stored_again with
  | Some m => m
  | None => KeepDemo.sync_meta
  end.

(** The context of the second run before it is seeded. *)
Definition ctx0 : Context.t :=
  Context.mk stored details options txt locations TempResourceFiles.empty.

End AgainDemo.

(** The resources a record names, txt first. *)
Definition identifiers (m : SyncMeta.t) : list (option string) :=
  map (fun x => option_map ResourceFile.resource (fst x))
    (SyncMeta.all_resource_files m).

(** C2 as the specification words it: the second of two runs in a row, the
    collaborators and the files being what the first run left, fetches
    nothing and stores a record with the same five identifiers. *)
Definition second_run_is_idempotent `{External} (song : UsdbSong.t)
    (options : Options.t) (w : World) : Prop :=
  forall r1 w1 song1 m1 r2 w2 song2 m2,
    SongLoader.run song options w = (r1, w1) ->
    db w1 (UsdbSong.song_id song) = Some song1 ->
    UsdbSong.sync_meta song1 = Some m1 ->
    SongLoader.run song1 options w1 = (r2, w2) ->
    db w2 (UsdbSong.song_id song) = Some song2 ->
    UsdbSong.sync_meta song2 = Some m2 ->
    fetches (skipn (length (trace w1)) (trace w2)) = []
    /\ identifiers m2 = identifiers m1.

Lemma again_stored :
  db (snd AgainDemo.first) 1 = Some AgainDemo.stored.
Proof. vm_compute. reflexivity. Qed.

Lemma again_sync_meta :
  UsdbSong.sync_meta AgainDemo.stored = Some AgainDemo.sync_meta.
Proof. vm_compute. reflexivity. Qed.

Lemma again_stored_again :
  db (snd AgainDemo.second) 1 = Some AgainDemo.stored_again.
Proof. vm_compute. reflexivity. Qed.

Lemma again_sync_meta_again :
  UsdbSong.sync_meta AgainDemo.stored_again = Some AgainDemo.sync_meta_again.
Proof. vm_compute. reflexivity. Qed.

Lemma again_fetches :
  fetches
    (skipn (length (trace (snd AgainDemo.first)))
       (trace (snd AgainDemo.second)))
  = [FetchAudio "https://audio.example/a";
     FetchAudio "https://video.example/v";
     FetchAudio "https://video.example/c1";
     FetchVideo "https://video.example/v";
     FetchVideo "https://video.example/c1"].
Proof. vm_compute. reflexivity. Qed.

Lemma again_first :
  @SongLoader.run Demo.external (Demo.song 1) Demo.options Demo.world
  = (fst AgainDemo.first, snd AgainDemo.first).
Proof. unfold AgainDemo.first. apply surjective_pairing. Qed.

Lemma again_second :
  @SongLoader.run Demo.external AgainDemo.stored Demo.options
    (snd AgainDemo.first)
  = (fst AgainDemo.second, snd AgainDemo.second).
Proof. unfold AgainDemo.second. apply surjective_pairing. Qed.

(** C2, as stated, fails: the first run of the example gets its audio and
    its video from the last candidate, the ones before it having failed;
    the second run finds that candidate recorded only after it has fetched
    the ones before it again. *)
Lemma second_run_is_idempotent_fails :
  ~ @second_run_is_idempotent Demo.external (Demo.song 1) Demo.options
      Demo.world.
Proof.
  intros Hc.
  destruct (Hc (fst AgainDemo.first) (snd AgainDemo.first) AgainDemo.stored
              AgainDemo.sync_meta (fst AgainDemo.second)
              (snd AgainDemo.second) AgainDemo.stored_again
              AgainDemo.sync_meta_again
              again_first again_stored again_sync_meta again_second
              again_stored_again again_sync_meta_again) as [Hf _].
  rewrite again_fetches in Hf. discriminate Hf.
Qed.

Lemma again_file_of k :
  file_of k AgainDemo.sync_meta
  = Some
      match k with
      | AudioSlot =>
          ResourceFile.mk "Artist - Title.m4a" "https://video.example/c2"
      | VideoSlot =>
          ResourceFile.mk "Artist - Title.mp4" "https://video.example/c2"
      | CoverSlot =>
          ResourceFile.mk "Artist - Title.cover.jpg"
            "https://img.example/cover.jpg"
      | BackgroundSlot =>
          ResourceFile.mk "Artist - Title.background.jpg"
            "https://img.example/bg.jpg"
      end.
Proof. destruct k; vm_compute; reflexivity. Qed.

Lemma again_attempts k :
  @attempts Demo.external k
    (@Context.__attrs_post_init__ Demo.external (fs (snd AgainDemo.first))
       AgainDemo.ctx0)
  = match k with
    | AudioSlot =>
        ["https://audio.example/a"; "https://video.example/v";
         "https://video.example/c1"]
    | VideoSlot => ["https://video.example/v"; "https://video.example/c1"]
    | CoverSlot | BackgroundSlot => []
    end.
Proof. destruct k; vm_compute; reflexivity. Qed.

Lemma second_run_fetches_only_failed_candidates_witness :
  exists w1 evs,
    @SongLoader.download_stage Demo.external
      (@Context.__attrs_post_init__ Demo.external
         (fs (snd AgainDemo.first)) AgainDemo.ctx0)
      (snd AgainDemo.first)
    = (inr (@Context.__attrs_post_init__ Demo.external
              (fs (snd AgainDemo.first)) AgainDemo.ctx0), w1)
    /\ trace w1 = trace (snd AgainDemo.first) ++ evs
    /\ fetches evs
       = [FetchAudio "https://audio.example/a";
          FetchAudio "https://video.example/v";
          FetchAudio "https://video.example/c1";
          FetchVideo "https://video.example/v";
          FetchVideo "https://video.example/c1"].
Proof.
  destruct (@second_run_fetches_only_failed_candidates Demo.external
              (fs (snd AgainDemo.first)) AgainDemo.ctx0 AgainDemo.sync_meta
              (snd AgainDemo.first))
    as (w1 & evs & E & Et & Ef & _).
  - reflexivity.
  - vm_compute. reflexivity.
  - intros k rf Hk. rewrite again_file_of in Hk. injection Hk as <-.
    destruct k; split; vm_compute; reflexivity.
  - intros k c Hin. rewrite again_attempts in Hin.
    destruct k; cbn [In] in Hin;
      repeat (destruct Hin as [<- | Hin]; [vm_compute; reflexivity |]);
      contradiction.
  - exists w1, evs. split; [exact E |]. split; [exact Et |].
    rewrite Ef. cbn [slots flat_map]. rewrite !again_attempts. reflexivity.
Defined.

(** * Further properties of the loader *)

(** ** The library store *)

(** A computation that leaves the library store alone. *)
Definition keeps_db {A : Type} (c : M A) : Prop :=
  forall w, db (snd (c w)) = db w.

Lemma keeps_db_ret {A : Type} (a : A) : keeps_db (ret a).
Proof. intros w. reflexivity. Qed.

Lemma keeps_db_raise {A : Type} (e : Exn) : keeps_db (@raise A e).
Proof. intros w. reflexivity. Qed.

Lemma keeps_db_bind {A B : Type} (c : M A) (k : A -> M B) :
  keeps_db c -> (forall a, keeps_db (k a)) -> keeps_db (bind c k).
Proof.
  intros Hc Hk w. unfold bind. specialize (Hc w).
  destruct (c w) as [[e | a] w1]; cbn [snd] in *; [exact Hc |].
  rewrite (Hk a w1). exact Hc.
Qed.

Lemma keeps_db_emit e : keeps_db (emit e).
Proof. intros w. reflexivity. Qed.

Lemma keeps_db_get_fs : keeps_db get_fs.
Proof. intros w. reflexivity. Qed.

Lemma keeps_db_set_fs f : keeps_db (set_fs f).
Proof. intros w. reflexivity. Qed.

Lemma keeps_db_lift {A : Type} (r : Exn + A) : keeps_db (lift r).
Proof. destruct r; intros w; reflexivity. Qed.

Lemma keeps_db_try {A : Type} (c : M A) : keeps_db c -> keeps_db (try c).
Proof.
  intros Hc w. unfold try. specialize (Hc w). destruct (c w). exact Hc.
Qed.

Lemma keeps_db_for_ {X S : Type} (xs : list X) (body : X -> S -> M S) :
  (forall x s, keeps_db (body x s)) -> forall s, keeps_db (for_ xs body s).
Proof.
  intros Hb. induction xs as [| x xs IH]; intros s; cbn [for_].
  - apply keeps_db_ret.
  - apply keeps_db_bind; [apply Hb | exact IH].
Qed.

Lemma keeps_db_with_TemporaryDirectory `{External} {A : Type}
    (body : Path -> M A) :
  (forall t, keeps_db (body t)) -> keeps_db (with_TemporaryDirectory body).
Proof.
  intros Hb w. unfold with_TemporaryDirectory.
  specialize (Hb (mkdtemp (fs w))
                (mkWorld (fs_write (fs w) (mkdtemp (fs w)) Dir) (db w)
                   (trace w ++ [MkDtemp (mkdtemp (fs w))]))).
  destruct (body _ _) as [r w2]. exact Hb.
Qed.

Ltac db_step :=
  match goal with
  | |- keeps_db (bind _ _) => apply keeps_db_bind; [| intros]
  | |- keeps_db (ret _) => apply keeps_db_ret
  | |- keeps_db (raise _) => apply keeps_db_raise
  | |- keeps_db (emit _) => apply keeps_db_emit
  | |- keeps_db (log _ _) => apply keeps_db_emit
  | |- keeps_db (post _) => apply keeps_db_emit
  | |- keeps_db get_fs => apply keeps_db_get_fs
  | |- keeps_db (set_fs _) => apply keeps_db_set_fs
  | |- keeps_db (lift _) => apply keeps_db_lift
  | |- keeps_db (try _) => apply keeps_db_try
  | |- keeps_db (exists_ _) => unfold exists_
  | |- keeps_db (read_bytes _) => unfold read_bytes
  | |- keeps_db (send2trash _) => unfold send2trash
  | |- keeps_db (rename _ _) => unfold rename
  | |- keeps_db (mkdir _) => unfold mkdir
  | |- keeps_db (write_file _ _) => unfold write_file
  | |- keeps_db (when ?b _) => destruct b; unfold when
  | |- keeps_db (if ?b then _ else _) => destruct b
  | |- keeps_db (match ?x with _ => _ end) => destruct x
  | |- keeps_db (let '(_, _) := ?x in _) => destruct x
  end.

Ltac db_tac := repeat db_step; auto.

Section KeepsDb.
Context `{External}.

Lemma keeps_db_get_usdb_data id : keeps_db (_get_usdb_data id).
Proof. unfold _get_usdb_data. db_tac. Qed.

Lemma keeps_db_Context_new song options tempdir :
  keeps_db (Context.new song options tempdir).
Proof.
  unfold Context.new. apply keeps_db_bind; [apply keeps_db_get_usdb_data |].
  intros [details txt]. db_tac.
Qed.

Lemma keeps_db_resource_dl_download_audio r s :
  keeps_db (resource_dl_download_audio r s).
Proof. unfold resource_dl_download_audio. db_tac. Qed.

Lemma keeps_db_resource_dl_download_video r s :
  keeps_db (resource_dl_download_video r s).
Proof. unfold resource_dl_download_video. db_tac. Qed.

Lemma keeps_db_resource_dl_download_and_process_image u s k :
  keeps_db (resource_dl_download_and_process_image u s k).
Proof. unfold resource_dl_download_and_process_image. db_tac. Qed.

Lemma keeps_db_audio_loop items ctx : keeps_db (audio_loop items ctx).
Proof.
  induction items as [| [r | e] items IH]; cbn [audio_loop].
  - apply keeps_db_ret.
  - destruct (opt_eqb _ r); [db_tac |].
    apply keeps_db_bind; [apply keeps_db_resource_dl_download_audio |].
    intros ext. destruct (truthy ext); [db_tac | exact IH].
  - apply keeps_db_bind; [apply keeps_db_emit | intros; exact IH].
Qed.

Lemma keeps_db_video_loop items ctx : keeps_db (video_loop items ctx).
Proof.
  induction items as [| [r | e] items IH]; cbn [video_loop].
  - apply keeps_db_ret.
  - destruct (opt_eqb _ r); [db_tac |].
    apply keeps_db_bind; [apply keeps_db_resource_dl_download_video |].
    intros ext. destruct (truthy ext); [db_tac | exact IH].
  - apply keeps_db_bind; [apply keeps_db_emit | intros; exact IH].
Qed.

Lemma keeps_db_maybe_download_audio ctx : keeps_db (_maybe_download_audio ctx).
Proof.
  unfold _maybe_download_audio. destruct (Options.audio_options _);
    [| apply keeps_db_ret].
  apply keeps_db_bind; [apply keeps_db_audio_loop |].
  intros [c |]; db_tac.
Qed.

Lemma keeps_db_maybe_download_video ctx : keeps_db (_maybe_download_video ctx).
Proof.
  unfold _maybe_download_video. destruct (Options.video_options _);
    [| apply keeps_db_ret].
  destruct (is_audio_only _); [apply keeps_db_ret |].
  apply keeps_db_bind; [apply keeps_db_video_loop |].
  intros [c |]; db_tac.
Qed.

Lemma keeps_db_maybe_download_cover ctx : keeps_db (_maybe_download_cover ctx).
Proof.
  unfold _maybe_download_cover, Context.cover_url.
  destruct (Options.cover _); [| apply keeps_db_ret].
  apply keeps_db_bind; [db_tac | intros url].
  destruct (negb (truthy url)); [db_tac |].
  destruct (opt_eqb _ _); [db_tac |].
  apply keeps_db_bind;
    [apply keeps_db_resource_dl_download_and_process_image |].
  intros [path |]; db_tac.
Qed.

Lemma keeps_db_maybe_download_background ctx :
  keeps_db (_maybe_download_background ctx).
Proof.
  unfold _maybe_download_background, Context.background_url.
  destruct (Options.background_options _); [| apply keeps_db_ret].
  destruct (negb _); [apply keeps_db_ret |].
  apply keeps_db_bind; [db_tac | intros url].
  destruct (negb (truthy url)); [db_tac |].
  destruct (opt_eqb _ _); [db_tac |].
  apply keeps_db_bind;
    [apply keeps_db_resource_dl_download_and_process_image |].
  intros [path |]; db_tac.
Qed.

Lemma keeps_db_read_images l : keeps_db (read_images l).
Proof. induction l as [| [i |] l IH]; cbn [read_images]; db_tac. Qed.

Lemma keeps_db_save_tags fmt path : keeps_db (save_tags fmt path).
Proof. unfold save_tags. db_tac. Qed.

Lemma keeps_db_maybe_write_audio_tags ctx :
  keeps_db (_maybe_write_audio_tags ctx).
Proof.
  unfold _maybe_write_audio_tags, _write_m4a_tags, _write_mp3_tags,
    _write_ogg_tags.
  db_tac; first [apply keeps_db_read_images | apply keeps_db_save_tags].
Qed.

Lemma keeps_db_download_stage ctx : keeps_db (SongLoader.download_stage ctx).
Proof.
  unfold SongLoader.download_stage.
  apply keeps_db_bind; [apply keeps_db_maybe_download_audio | intros].
  apply keeps_db_bind; [apply keeps_db_maybe_download_video | intros].
  apply keeps_db_bind; [apply keeps_db_maybe_download_cover | intros].
  apply keeps_db_bind; [apply keeps_db_maybe_download_background | intros].
  apply keeps_db_bind; [apply keeps_db_maybe_write_audio_tags | intros].
  apply keeps_db_ret.
Qed.

Lemma keeps_db_cleanup_slot l old out : keeps_db (cleanup_slot l old out).
Proof. unfold cleanup_slot. db_tac. Qed.

Lemma keeps_db_persist_slot l t : keeps_db (persist_slot l t).
Proof. unfold persist_slot. db_tac. Qed.

Lemma keeps_db_commit_stage ctx : keeps_db (SongLoader.commit_stage ctx).
Proof.
  unfold SongLoader.commit_stage, _cleanup_exisiting_resource,
    _ensure_correct_folder_name, _maybe_write_txt, _persist_tempfiles.
  apply keeps_db_bind.
  { destruct (UsdbSong.sync_meta _); [| apply keeps_db_ret].
    apply keeps_db_bind; [| intros; apply keeps_db_ret].
    apply keeps_db_for_. intros [[old kind] k] out.
    apply keeps_db_bind; [apply keeps_db_cleanup_slot |].
    intros; apply keeps_db_ret. }
  intros c1. apply keeps_db_bind; [db_tac | intros l].
  apply keeps_db_bind; [db_tac | intros c3].
  apply keeps_db_bind; [| intros; apply keeps_db_ret].
  apply keeps_db_for_. intros k out.
  apply keeps_db_bind; [apply keeps_db_persist_slot |].
  intros; apply keeps_db_ret.
Qed.

Lemma keeps_db_write_sync_meta ctx : keeps_db (_write_sync_meta ctx).
Proof. unfold _write_sync_meta. db_tac. Qed.

Lemma keeps_db_run_inner song options :
  keeps_db (SongLoader._run_inner song options).
Proof.
  unfold SongLoader._run_inner, SongLoader.in_tempdir.
  apply keeps_db_bind; [apply keeps_db_emit | intros _].
  apply keeps_db_bind.
  - apply keeps_db_with_TemporaryDirectory. intros t.
    apply keeps_db_bind; [apply keeps_db_Context_new | intros].
    apply keeps_db_bind; [apply keeps_db_download_stage | intros].
    apply keeps_db_commit_stage.
  - intros ctx. apply keeps_db_bind; [apply keeps_db_write_sync_meta |].
    intros; apply keeps_db_ret.
Qed.

End KeepsDb.

(** ** What a run knows about the song *)

Section RunSong.
Context `{External}.

(** The song a context starts with: the fields USDB knows are refreshed,
    and a song that was never synchronised gets an empty sync meta in its
    folder. *)
Definition refreshed (f : FS) (song : UsdbSong.t) (options : Options.t)
    (tempdir : Path) (details : SongDetails.t) (txt : SongTxt.t)
    : UsdbSong.t :=
  let song := _update_song_with_usdb_data song details txt in
  match UsdbSong.sync_meta song with
  | Some _ => song
  | None =>
      UsdbSong.set_sync_meta
        (Some (SyncMeta.new (UsdbSong.song_id song)
                 (Locations.folder
                    (Locations.new f song (Options.song_dir options)
                       (SongTxt.headers txt) tempdir))
                 (SongTxt.meta_tags txt)))
        song
  end.

Lemma get_usdb_data_fs id w : fs (snd (_get_usdb_data id w)) = fs w.
Proof.
  destruct (get_usdb_data_world id w) as (evs & Ew & _). rewrite Ew.
  reflexivity.
Qed.

Lemma post_init_song f ctx :
  Context.song (Context.__attrs_post_init__ f ctx) = Context.song ctx.
Proof.
  unfold Context.__attrs_post_init__.
  destruct (UsdbSong.sync_meta _); reflexivity.
Qed.

Lemma Context_new_song song options tempdir w ctx w' :
  Context.new song options tempdir w = (inr ctx, w') ->
  exists details txt,
    usdb_data (UsdbSong.song_id song) = inr (details, txt)
    /\ Context.song ctx
       = refreshed (fs w) song options tempdir details txt.
Proof.
  intros E. unfold Context.new in E.
  pose proof (get_usdb_data_value (UsdbSong.song_id song) w) as Hv.
  pose proof (get_usdb_data_fs (UsdbSong.song_id song) w) as Hf.
  unfold bind at 1 in E.
  destruct (_get_usdb_data (UsdbSong.song_id song) w) as [[e | [d t]] w1];
    [discriminate |].
  cbn [fst snd] in Hv, Hf.
  unfold bind, get_fs, ret in E. injection E as <- <-.
  exists d, t. split; [symmetry; exact Hv |].
  rewrite post_init_song. cbn [Context.song]. rewrite Hf. reflexivity.
Qed.

Lemma refreshed_song_id f song options tempdir details txt :
  UsdbSong.song_id (refreshed f song options tempdir details txt)
  = UsdbSong.song_id song.
Proof.
  unfold refreshed, _update_song_with_usdb_data.
  cbn [UsdbSong.sync_meta]. destruct (UsdbSong.sync_meta song); reflexivity.
Qed.

Lemma refreshed_sync_meta f song options tempdir details txt :
  exists m,
    UsdbSong.sync_meta (refreshed f song options tempdir details txt) = Some m
    /\ match UsdbSong.sync_meta song with
       | Some old => m = old
       | None =>
           SyncMeta.sync_meta_id m = SyncMetaId_new
           /\ SyncMeta.pinned m = false
       end.
Proof.
  unfold refreshed, _update_song_with_usdb_data.
  cbn [UsdbSong.sync_meta]. destruct (UsdbSong.sync_meta song) as [old |].
  - exists old. split; reflexivity.
  - eexists. split; [reflexivity |]. split; reflexivity.
Qed.

(** The stages work on the context's song without replacing it. *)
Lemma download_stage_song ctx w c1 w1 :
  SongLoader.download_stage ctx w = (inr c1, w1) ->
  Context.song c1 = Context.song ctx.
Proof.
  intros E. apply download_stage_spec in E. destruct E as (o1 & -> & _).
  reflexivity.
Qed.

Lemma commit_stage_song ctx w c2 w2 :
  SongLoader.commit_stage ctx w = (inr c2, w2) ->
  Context.song c2 = Context.song ctx.
Proof.
  intros E. apply commit_stage_spec in E.
  destruct E as (l' & x' & o' & -> & _). reflexivity.
Qed.

Lemma write_sync_meta_song ctx w c3 w3 :
  _write_sync_meta ctx w = (inr c3, w3) ->
  UsdbSong.song_id (Context.song c3) = UsdbSong.song_id (Context.song ctx)
  /\ UsdbSong.status (Context.song c3) = UsdbSong.status (Context.song ctx)
  /\ UsdbSong.artist (Context.song c3) = UsdbSong.artist (Context.song ctx)
  /\ UsdbSong.title (Context.song c3) = UsdbSong.title (Context.song ctx).
Proof.
  unfold _write_sync_meta. intros E. inv_bind E. inversion E.
  cbn [Context.song Context.set_song UsdbSong.set_sync_meta UsdbSong.song_id
       UsdbSong.status UsdbSong.artist UsdbSong.title].
  repeat split; reflexivity.
Qed.

(** What [_run_inner] returns: the song as refreshed from USDB, with the
    sync meta written at the end. *)
Lemma run_inner_song song options w song' w' :
  SongLoader._run_inner song options w = (inr song', w') ->
  exists f tempdir details txt m0 m',
    usdb_data (UsdbSong.song_id song) = inr (details, txt)
    /\ UsdbSong.sync_meta
         (refreshed f (UsdbSong.set_status DOWNLOADING song) options tempdir
            details txt) = Some m0
    /\ UsdbSong.sync_meta song' = Some m'
    /\ song' = UsdbSong.set_sync_meta (Some m')
                 (refreshed f (UsdbSong.set_status DOWNLOADING song) options
                    tempdir details txt)
    /\ SyncMeta.sync_meta_id m' = SyncMeta.sync_meta_id m0
    /\ SyncMeta.pinned m' = SyncMeta.pinned m0.
Proof.
  intros E. apply run_inner_inr in E.
  destruct E as (tempdir & w0 & ctx0 & w1 & c1 & w2 & c2 & w3 & w4 & c3
                 & En & Ed & Ec & Ew & ->).
  apply Context_new_song in En. destruct En as (d & t & Hd & Hs).
  apply download_stage_song in Ed. apply commit_stage_song in Ec.
  cbn [UsdbSong.set_status UsdbSong.song_id] in Hd.
  destruct (refreshed_sync_meta (fs w0) (UsdbSong.set_status DOWNLOADING song)
              options tempdir d t) as (m0 & Hm0 & _).
  assert (Hc2 : Context.song c2
                = refreshed (fs w0) (UsdbSong.set_status DOWNLOADING song)
                    options tempdir d t) by congruence.
  unfold _write_sync_meta in Ew. inv_bind Ew. inversion Ew.
  rewrite Hc2, Hm0.
  exists (fs w0), tempdir, d, t, m0. eexists.
  split; [exact Hd |]. split; [exact Hm0 |].
  cbn [Context.song Context.set_song UsdbSong.set_sync_meta
       UsdbSong.sync_meta SyncMeta.sync_meta_id SyncMeta.pinned].
  repeat split; reflexivity.
Qed.

End RunSong.

(** ** How a run ends *)

Module RunDemo.
Import Demo.

(** A first download of song 1. *)
Definition inner : (Exn + UsdbSong.t) * World :=
  @SongLoader._run_inner external (song 1) options world.

Definition updated : UsdbSong.t := KeepDemo.value (song 1) inner.

(** The notes of song 500 do not parse. *)
Definition garbled : (Exn + UsdbSong.t) * World :=
  @SongLoader._run_inner external (song 500) options world.

End RunDemo.

Lemma run_demo_inner :
  @SongLoader._run_inner Demo.external (Demo.song 1) Demo.options Demo.world
  = (inr RunDemo.updated, snd RunDemo.inner).
Proof.
  assert (E1 : @SongLoader._run_inner Demo.external (Demo.song 1)
                 Demo.options Demo.world
               = (fst RunDemo.inner, snd RunDemo.inner)).
  { unfold RunDemo.inner. apply surjective_pairing. }
  assert (E2 : fst RunDemo.inner = inr RunDemo.updated).
  { vm_compute. reflexivity. }
  rewrite E2 in E1. exact E1.
Qed.

Section RunEnds.
Context `{External}.

(** A run whose metadata cannot be had stops before it looks at a file. *)
Lemma run_inner_data_error song options w e :
  usdb_data (UsdbSong.song_id song) = inl e ->
  exists evs,
    SongLoader._run_inner song options w
    = (inl e,
       mkWorld
         (fs_remove (fs_write (fs w) (mkdtemp (fs w)) Dir) (mkdtemp (fs w)))
         (db w)
         (trace w
          ++ Post (SongChanged (UsdbSong.song_id song))
             :: MkDtemp (mkdtemp (fs w)) :: evs ++ [RmTree (mkdtemp (fs w))]))
    /\ forallb is_log evs = true.
Proof.
  intros He.
  unfold SongLoader._run_inner, bind at 1, post, emit.
  unfold bind at 1, with_TemporaryDirectory.
  cbn [fs db trace].
  unfold SongLoader.in_tempdir, bind at 1, Context.new, bind at 1.
  cbn [UsdbSong.song_id UsdbSong.set_status].
  set (w1 := mkWorld _ _ _).
  pose proof (get_usdb_data_value (UsdbSong.song_id song) w1) as Hg.
  rewrite He in Hg.
  destruct (get_usdb_data_world (UsdbSong.song_id song) w1) as (evs & Ew & El).
  destruct (_get_usdb_data (UsdbSong.song_id song) w1) as [r w2].
  cbn [fst snd] in Hg, Ew. subst r w2. exists evs. cbn [fs db trace w1].
  rewrite <- !app_assoc. auto.
Qed.

(** X1. When the details, the notes or their parse fail with anything but
    "not found" (a login error, say), the run marks the song [FAILED],
    leaves every path outside its scratch directory and the library store
    as they were, and makes no file operation and no fetch. *)
Theorem run_metadata_error_touches_no_file song options w e :
  usdb_data (UsdbSong.song_id song) = inl e ->
  e <> UsdbNotFoundError ->
  exists w' evs,
    SongLoader.run song options w
    = (inr (UsdbSong.set_status FAILED song), w')
    /\ (forall p, is_under (mkdtemp (fs w)) p = false -> fs w' p = fs w p)
    /\ trace w' = trace w ++ evs
    /\ forallb (fun e => negb (is_file_op e) && negb (is_fetch e)) evs = true
    /\ db w' = db w.
Proof.
  intros He Hne.
  destruct (run_inner_data_error song options w e He) as (evs & Er & El).
  assert (Hlog : forallb (fun e => negb (is_file_op e) && negb (is_fetch e))
                   evs = true).
  { rewrite forallb_forall in *. intros x Hx. specialize (El x Hx).
    destruct x; cbn in *; congruence. }
  unfold SongLoader.run, bind at 1, try. rewrite Er.
  destruct e as [| | what]; [| congruence |].
  - eexists. eexists. split; [reflexivity |].
    cbn [fs db trace]. split; [| split; [| split]].
    + intros p Hp. unfold fs_remove, fs_write. rewrite Hp.
      unfold path_eqb. destruct (path_eq_dec p (mkdtemp (fs w))) as [-> |];
        [| reflexivity].
      rewrite is_under_refl in Hp. discriminate.
    + rewrite <- !app_assoc. cbn [app]. rewrite <- !app_assoc. reflexivity.
    + cbn [forallb is_file_op is_fetch negb andb]. rewrite forallb_app.
      rewrite Hlog. reflexivity.
    + reflexivity.
  - eexists. eexists. split; [reflexivity |].
    cbn [fs db trace]. split; [| split; [| split]].
    + intros p Hp. unfold fs_remove, fs_write. rewrite Hp.
      unfold path_eqb. destruct (path_eq_dec p (mkdtemp (fs w))) as [-> |];
        [| reflexivity].
      rewrite is_under_refl in Hp. discriminate.
    + rewrite <- !app_assoc. cbn [app]. rewrite <- !app_assoc. reflexivity.
    + cbn [forallb is_file_op is_fetch negb andb]. rewrite forallb_app.
      rewrite Hlog. reflexivity.
    + reflexivity.
Qed.

(** X2. However [_run_inner] fails (other than by finding the song gone), the
    run marks the song [FAILED] and ends with the library store as it was
    and the files as [_run_inner] left them: nothing is stored and nothing
    is rolled back. *)
Theorem run_failure_keeps_store song options w e :
  fst (SongLoader._run_inner song options w) = inl e ->
  e <> UsdbNotFoundError ->
  exists w',
    SongLoader.run song options w
    = (inr (UsdbSong.set_status FAILED song), w')
    /\ db w' = db w
    /\ fs w' = fs (snd (SongLoader._run_inner song options w)).
Proof.
  intros He Hne.
  pose proof (keeps_db_run_inner song options w) as Hdb.
  unfold SongLoader.run, bind at 1, try.
  destruct (SongLoader._run_inner song options w) as [r w1].
  cbn [fst snd] in He, Hdb. subst r.
  destruct e as [| | what]; [| congruence |];
    (eexists; split; [reflexivity |]); cbn [fs db]; auto.
Qed.

(** X3. When [_run_inner] returns, the run stores the song it returned with
    status [NONE] under the song's id, and nothing else; the loader's own
    song is left at [DOWNLOADING], without the refreshed fields. *)
Theorem run_success_stores_updated_song song options w song' w1 :
  SongLoader._run_inner song options w = (inr song', w1) ->
  exists w',
    SongLoader.run song options w
    = (inr (UsdbSong.set_status DOWNLOADING song), w')
    /\ db w' (UsdbSong.song_id song)
       = Some (UsdbSong.set_status NONE song')
    /\ (forall id, id <> UsdbSong.song_id song -> db w' id = db w id)
    /\ fs w' = fs w1.
Proof.
  intros E.
  pose proof (keeps_db_run_inner song options w) as Hdb. rewrite E in Hdb.
  cbn [snd] in Hdb.
  destruct (run_inner_song song options w song' w1 E)
    as (f & t & d & x & m0 & m' & _ & _ & _ & Hs & _).
  assert (Hid : UsdbSong.song_id song' = UsdbSong.song_id song).
  { rewrite Hs. cbn [UsdbSong.set_sync_meta UsdbSong.song_id].
    rewrite refreshed_song_id. reflexivity. }
  unfold SongLoader.run, bind at 1, try. rewrite E.
  eexists. split; [reflexivity |]. cbn [fs db UsdbSong.set_status
    UsdbSong.song_id]. rewrite Hid, Hdb.
  split; [rewrite Nat.eqb_refl; reflexivity |]. split; [| reflexivity].
  intros id Hne. apply Nat.eqb_neq in Hne. rewrite Hne. reflexivity.
Qed.

(** X4. A run returns the song under its own id, refreshed from USDB, with a
    sync meta that has the id and the pinned flag of the one the song
    came with; a song that came without one gets a new id and is not
    pinned. *)
Theorem run_inner_keeps_record_identity song options w song' w' :
  SongLoader._run_inner song options w = (inr song', w') ->
  exists details txt m',
    usdb_data (UsdbSong.song_id song) = inr (details, txt)
    /\ UsdbSong.song_id song' = UsdbSong.song_id song
    /\ UsdbSong.artist song' = SongDetails.artist details
    /\ UsdbSong.title song' = SongDetails.title details
    /\ UsdbSong.status song' = DOWNLOADING
    /\ UsdbSong.sync_meta song' = Some m'
    /\ match UsdbSong.sync_meta song with
       | Some old =>
           SyncMeta.sync_meta_id m' = SyncMeta.sync_meta_id old
           /\ SyncMeta.pinned m' = SyncMeta.pinned old
       | None =>
           SyncMeta.sync_meta_id m' = SyncMetaId_new
           /\ SyncMeta.pinned m' = false
       end.
Proof.
  intros E.
  destruct (run_inner_song song options w song' w' E)
    as (f & t & d & x & m0 & m' & Hd & Hm0 & Hm' & Hs & Hi & Hp).
  exists d, x, m'. split; [exact Hd |].
  destruct (refreshed_sync_meta f (UsdbSong.set_status DOWNLOADING song)
              options t d x) as (m1 & Hm1 & Hold).
  rewrite Hm0 in Hm1. injection Hm1 as <-.
  cbn [UsdbSong.set_status UsdbSong.sync_meta] in Hold.
  rewrite Hs. cbn [UsdbSong.set_sync_meta UsdbSong.song_id UsdbSong.artist
                   UsdbSong.title UsdbSong.status UsdbSong.sync_meta].
  rewrite refreshed_song_id.
  repeat split; try reflexivity.
  - unfold refreshed, _update_song_with_usdb_data. cbn [UsdbSong.sync_meta].
    destruct (UsdbSong.sync_meta (UsdbSong.set_status DOWNLOADING song));
      reflexivity.
  - unfold refreshed, _update_song_with_usdb_data. cbn [UsdbSong.sync_meta].
    destruct (UsdbSong.sync_meta (UsdbSong.set_status DOWNLOADING song));
      reflexivity.
  - unfold refreshed, _update_song_with_usdb_data. cbn [UsdbSong.sync_meta].
    destruct (UsdbSong.sync_meta (UsdbSong.set_status DOWNLOADING song));
      reflexivity.
  - destruct (UsdbSong.sync_meta song) as [old |].
    + subst m0. split; assumption.
    + destruct Hold as [Ha Hb]. split; congruence.
Qed.

End RunEnds.

Lemma run_metadata_error_touches_no_file_witness :
  exists w' evs,
    @SongLoader.run Demo.external (Demo.song 403) Demo.options Demo.world
    = (inr (UsdbSong.set_status FAILED (Demo.song 403)), w')
    /\ (forall p, is_under ["tmp"; "usdb"] p = false ->
                  fs w' p = fs Demo.world p)
    /\ trace w' = trace Demo.world ++ evs
    /\ forallb (fun e => negb (is_file_op e) && negb (is_fetch e)) evs = true
    /\ db w' = db Demo.world.
Proof.
  apply (@run_metadata_error_touches_no_file Demo.external (Demo.song 403)
           Demo.options Demo.world UsdbLoginError).
  - reflexivity.
  - discriminate.
Defined.

Lemma run_failure_keeps_store_witness :
  exists w',
    @SongLoader.run Demo.external (Demo.song 500) Demo.options Demo.world
    = (inr (UsdbSong.set_status FAILED (Demo.song 500)), w')
    /\ db w' = db Demo.world
    /\ fs w' = fs (snd RunDemo.garbled).
Proof.
  apply (@run_failure_keeps_store Demo.external (Demo.song 500) Demo.options
           Demo.world (OtherError "ParseError")).
  - vm_compute. reflexivity.
  - discriminate.
Defined.

Lemma run_success_stores_updated_song_witness :
  exists w',
    @SongLoader.run Demo.external (Demo.song 1) Demo.options Demo.world
    = (inr (UsdbSong.set_status DOWNLOADING (Demo.song 1)), w')
    /\ db w' 1 = Some (UsdbSong.set_status NONE RunDemo.updated)
    /\ (forall id, id <> 1 -> db w' id = db Demo.world id)
    /\ fs w' = fs (snd RunDemo.inner).
Proof.
  apply (@run_success_stores_updated_song Demo.external (Demo.song 1)
           Demo.options Demo.world RunDemo.updated (snd RunDemo.inner)).
  exact run_demo_inner.
Defined.

Lemma run_inner_keeps_record_identity_witness :
  exists details txt m',
    @usdb_data Demo.external 1 = inr (details, txt)
    /\ UsdbSong.song_id RunDemo.updated = 1
    /\ UsdbSong.artist RunDemo.updated = SongDetails.artist details
    /\ UsdbSong.title RunDemo.updated = SongDetails.title details
    /\ UsdbSong.status RunDemo.updated = DOWNLOADING
    /\ UsdbSong.sync_meta RunDemo.updated = Some m'
    /\ SyncMeta.sync_meta_id m' = 7
    /\ SyncMeta.pinned m' = false.
Proof.
  exact (@run_inner_keeps_record_identity Demo.external (Demo.song 1)
           Demo.options Demo.world RunDemo.updated (snd RunDemo.inner)
           run_demo_inner).
Defined.

(** ** The download functions, candidate by candidate *)

(** How the walk over a slot's candidates ends. *)
Inductive Outcome : Type :=
| Unchanged
| Fetched (resource : string) (path : Path)
| Exhausted.

(** The candidates fetched, in order, and the outcome, for a slot that
    holds [seeded] and a fetcher [try_]. *)
Fixpoint walk (seeded : option string) (try_ : string -> option Path)
    (cs : list string) : list string * Outcome :=
  match cs with
  | [] => ([], Exhausted)
  | c :: rest =>
      if opt_eqb seeded c then ([], Unchanged)
      else
        match try_ c with
        | Some p => ([c], Fetched c p)
        | None =>
            let (fetched, o) := walk seeded try_ rest in (c :: fetched, o)
        end
  end.

Lemma walk_length seeded try_ cs :
  length (fst (walk seeded try_ cs)) <= length cs.
Proof.
  induction cs as [| c cs IH]; cbn [walk]; [apply le_n |].
  destruct (opt_eqb seeded c); [apply Nat.le_0_l |].
  destruct (try_ c); [cbn; lia |].
  destruct (walk seeded try_ cs). cbn [fst length] in *. lia.
Qed.

Lemma walk_first_success seeded try_ pre c post p :
  (forall r, In r (pre ++ [c]) -> opt_eqb seeded r = false) ->
  (forall r, In r pre -> try_ r = None) ->
  try_ c = Some p ->
  walk seeded try_ (pre ++ c :: post) = (pre ++ [c], Fetched c p).
Proof.
  intros Hs Hf Hc. induction pre as [| r pre IH]; cbn [walk app].
  - rewrite (Hs c (in_eq _ _)), Hc. reflexivity.
  - rewrite (Hs r (in_eq _ _)), (Hf r (in_eq _ _)).
    rewrite IH; [reflexivity | |].
    + intros x Hx. apply Hs. right. exact Hx.
    + intros x Hx. apply Hf. right. exact Hx.
Qed.

Lemma yields_islice_length items n : length (yields (islice items n)) <= n.
Proof.
  revert n. induction items as [| [r | e] items IH]; intros n.
  - destruct n; cbn; lia.
  - destruct n; cbn [islice yields length]; [lia |].
    specialize (IH n). lia.
  - destruct n; cbn [islice yields length]; [lia |]. apply (IH (S n)).
Qed.

Section Walk.
Context `{External}.

(** The context after the walk over the candidates of slot [k]. *)
Definition after_walk (k : Slot) (ctx : Context.t) (o : Outcome)
    : Context.t :=
  match o with
  | Fetched c p =>
      Context.set_out
        (TempResourceFiles.set (kind_of k)
           (staged c p (slot_of k (Context.out ctx))) (Context.out ctx))
        ctx
  | Unchanged | Exhausted => ctx
  end.

(** The walk of slot [k]: none for a slot that is switched off. *)
Definition walk_of (k : Slot) (ctx : Context.t) : list string * Outcome :=
  if enabled k ctx then
    walk (TempResourceFile.resource (slot_of k (Context.out ctx)))
      (fetch k ctx) (candidates k ctx)
  else ([], Exhausted).

(** The download function of a slot. *)
Definition downloader (k : Slot) : Context.t -> M Context.t :=
  match k with
  | AudioSlot => _maybe_download_audio
  | VideoSlot => _maybe_download_video
  | CoverSlot => _maybe_download_cover
  | BackgroundSlot => _maybe_download_background
  end.

Definition loop_result (k : Slot) (ctx : Context.t) (o : Outcome)
    : option Context.t :=
  match o with
  | Exhausted => None
  | _ => Some (after_walk k ctx o)
  end.

Lemma audio_loop_walk items ctx w :
  effects_ok not_fetch items = true ->
  exists w' evs,
    audio_loop items ctx w
    = (inr (loop_result AudioSlot ctx
              (snd (walk (TempResourceFile.resource
                            (TempResourceFiles.audio (Context.out ctx)))
                      (fetch AudioSlot ctx) (yields items)))), w')
    /\ trace w' = trace w ++ evs
    /\ fetches evs
       = map FetchAudio
           (fst (walk (TempResourceFile.resource
                         (TempResourceFiles.audio (Context.out ctx)))
                   (fetch AudioSlot ctx) (yields items))).
Proof.
  revert w. induction items as [| [r | e] items IH]; intros w Heff;
    cbn [audio_loop yields walk].
  - exists w, []. rewrite app_nil_r. auto.
  - destruct (opt_eqb _ r) eqn:Eq.
    + eexists _, [_]. split; [reflexivity |]. split; reflexivity.
    + destruct (resource_dl_download_audio_events r
                  (Locations.temp_path (Context.locations ctx) "" "") w)
        as (w1 & evs1 & E1 & Et1 & Ef1).
      rewrite (bind_run _ _ _ _ _ E1).
      unfold fetch at 1 3. destruct (download_audio r) as [ext |];
        cbn [truthy or_empty].
      * destruct (str_truthy ext).
        -- eexists _, (FetchAudio r :: evs1 ++ [_]).
           split; [reflexivity |]. cbn [trace fst snd].
           split; [rewrite Et1, <- app_assoc; reflexivity |].
           change (FetchAudio r :: evs1 ++ [Log INFO "Success! Downloaded audio."])
             with ([FetchAudio r] ++ evs1
                   ++ [Log INFO "Success! Downloaded audio."]).
           rewrite !fetches_app, Ef1. reflexivity.
        -- destruct (IH w1 Heff) as (w' & evs & E & Et & Ef).
           destruct (walk _ _ (yields items)) as [fetched o].
           cbn [fst snd] in *.
           exists w', (FetchAudio r :: evs1 ++ evs).
           split; [exact E |].
           split; [rewrite Et, Et1, <- app_assoc; reflexivity |].
           change (FetchAudio r :: evs1 ++ evs)
             with ([FetchAudio r] ++ evs1 ++ evs).
           rewrite !fetches_app, Ef1, Ef. reflexivity.
      * destruct (IH w1 Heff) as (w' & evs & E & Et & Ef).
        destruct (walk _ _ (yields items)) as [fetched o].
        cbn [fst snd] in *.
        exists w', (FetchAudio r :: evs1 ++ evs).
        split; [exact E |].
        split; [rewrite Et, Et1, <- app_assoc; reflexivity |].
        change (FetchAudio r :: evs1 ++ evs)
          with ([FetchAudio r] ++ evs1 ++ evs).
        rewrite !fetches_app, Ef1, Ef. reflexivity.
  - cbn [effects_ok forallb] in Heff.
    apply andb_true_iff in Heff. destruct Heff as [He Heff].
    apply andb_true_iff in He. destruct He as [He _].
    destruct (IH (mkWorld (fs w) (db w) (trace w ++ [e])) Heff)
      as (w' & evs & E & Et & Ef).
    exists w', (e :: evs).
    split; [rewrite (bind_run (emit e) _ w tt
                       (mkWorld (fs w) (db w) (trace w ++ [e])) eq_refl);
            exact E |].
    split; [rewrite Et; cbn [trace]; rewrite <- app_assoc; reflexivity |].
    unfold fetches at 1. cbn [filter]. unfold not_fetch in He.
    apply negb_true_iff in He. rewrite He. exact Ef.
Qed.

Lemma video_loop_walk items ctx w :
  effects_ok not_fetch items = true ->
  exists w' evs,
    video_loop items ctx w
    = (inr (loop_result VideoSlot ctx
              (snd (walk (TempResourceFile.resource
                            (TempResourceFiles.video (Context.out ctx)))
                      (fetch VideoSlot ctx) (yields items)))), w')
    /\ trace w' = trace w ++ evs
    /\ fetches evs
       = map FetchVideo
           (fst (walk (TempResourceFile.resource
                         (TempResourceFiles.video (Context.out ctx)))
                   (fetch VideoSlot ctx) (yields items))).
Proof.
  revert w. induction items as [| [r | e] items IH]; intros w Heff;
    cbn [video_loop yields walk].
  - exists w, []. rewrite app_nil_r. auto.
  - destruct (opt_eqb _ r) eqn:Eq.
    + eexists _, [_]. split; [reflexivity |]. split; reflexivity.
    + destruct (resource_dl_download_video_events r
                  (Locations.temp_path (Context.locations ctx) "" "") w)
        as (w1 & evs1 & E1 & Et1 & Ef1).
      rewrite (bind_run _ _ _ _ _ E1).
      unfold fetch at 1 3. destruct (download_video r) as [ext |];
        cbn [truthy or_empty].
      * destruct (str_truthy ext).
        -- eexists _, (FetchVideo r :: evs1 ++ [_]).
           split; [reflexivity |]. cbn [trace fst snd].
           split; [rewrite Et1, <- app_assoc; reflexivity |].
           change (FetchVideo r :: evs1 ++ [Log INFO "Success! Downloaded video."])
             with ([FetchVideo r] ++ evs1
                   ++ [Log INFO "Success! Downloaded video."]).
           rewrite !fetches_app, Ef1. reflexivity.
        -- destruct (IH w1 Heff) as (w' & evs & E & Et & Ef).
           destruct (walk _ _ (yields items)) as [fetched o].
           cbn [fst snd] in *.
           exists w', (FetchVideo r :: evs1 ++ evs).
           split; [exact E |].
           split; [rewrite Et, Et1, <- app_assoc; reflexivity |].
           change (FetchVideo r :: evs1 ++ evs)
             with ([FetchVideo r] ++ evs1 ++ evs).
           rewrite !fetches_app, Ef1, Ef. reflexivity.
      * destruct (IH w1 Heff) as (w' & evs & E & Et & Ef).
        destruct (walk _ _ (yields items)) as [fetched o].
        cbn [fst snd] in *.
        exists w', (FetchVideo r :: evs1 ++ evs).
        split; [exact E |].
        split; [rewrite Et, Et1, <- app_assoc; reflexivity |].
        change (FetchVideo r :: evs1 ++ evs)
          with ([FetchVideo r] ++ evs1 ++ evs).
        rewrite !fetches_app, Ef1, Ef. reflexivity.
  - cbn [effects_ok forallb] in Heff.
    apply andb_true_iff in Heff. destruct Heff as [He Heff].
    apply andb_true_iff in He. destruct He as [He _].
    destruct (IH (mkWorld (fs w) (db w) (trace w ++ [e])) Heff)
      as (w' & evs & E & Et & Ef).
    exists w', (e :: evs).
    split; [rewrite (bind_run (emit e) _ w tt
                       (mkWorld (fs w) (db w) (trace w ++ [e])) eq_refl);
            exact E |].
    split; [rewrite Et; cbn [trace]; rewrite <- app_assoc; reflexivity |].
    unfold fetches at 1. cbn [filter]. unfold not_fetch in He.
    apply negb_true_iff in He. rewrite He. exact Ef.
Qed.

Lemma maybe_download_audio_walk ctx w :
  exists w' evs,
    _maybe_download_audio ctx w
    = (inr (after_walk AudioSlot ctx (snd (walk_of AudioSlot ctx))), w')
    /\ trace w' = trace w ++ evs
    /\ fetches evs
       = map (fetch_event AudioSlot) (fst (walk_of AudioSlot ctx)).
Proof.
  unfold walk_of, enabled, _maybe_download_audio.
  destruct (Options.audio_options _) as [options |];
    [| exists w, []; rewrite app_nil_r; auto].
  destruct (audio_loop_walk (islice (Context.all_audio_resources ctx) 10)
              ctx w) as (w1 & evs & E & Et & Ef).
  { apply effects_ok_islice, effects_ok_audio. exact not_fetch_log. }
  rewrite (bind_run _ _ _ _ _ E).
  cbn [candidates slot_of kind_of TempResourceFiles.get].
  destruct (walk _ _ _) as [fetched o]. cbn [fst snd] in *.
  destruct o; cbn [loop_result after_walk].
  - exists w1, evs. auto.
  - exists w1, evs. auto.
  - eexists. eexists (evs ++ [_]). split; [reflexivity |].
    cbn [trace]. rewrite Et, <- app_assoc. split; [reflexivity |].
    rewrite fetches_app, Ef. cbn [fetches filter is_fetch].
    rewrite app_nil_r. reflexivity.
Qed.

Lemma maybe_download_video_walk ctx w :
  exists w' evs,
    _maybe_download_video ctx w
    = (inr (after_walk VideoSlot ctx (snd (walk_of VideoSlot ctx))), w')
    /\ trace w' = trace w ++ evs
    /\ fetches evs
       = map (fetch_event VideoSlot) (fst (walk_of VideoSlot ctx)).
Proof.
  unfold walk_of, enabled, _maybe_download_video.
  destruct (Options.video_options _) as [options |];
    [| exists w, []; rewrite app_nil_r; auto].
  destruct (is_audio_only _); cbn [negb];
    [exists w, []; rewrite app_nil_r; auto |].
  destruct (video_loop_walk (islice (Context.all_video_resources ctx) 10)
              ctx w) as (w1 & evs & E & Et & Ef).
  { apply effects_ok_islice, effects_ok_video. }
  rewrite (bind_run _ _ _ _ _ E).
  cbn [candidates slot_of kind_of TempResourceFiles.get].
  destruct (walk _ _ _) as [fetched o]. cbn [fst snd] in *.
  destruct o; cbn [loop_result after_walk].
  - exists w1, evs. auto.
  - exists w1, evs. auto.
  - eexists. eexists (evs ++ [_]). split; [reflexivity |].
    cbn [trace]. rewrite Et, <- app_assoc. split; [reflexivity |].
    rewrite fetches_app, Ef. cbn [fetches filter is_fetch].
    rewrite app_nil_r. reflexivity.
Qed.

(** The shared tail of the two image functions. *)
Lemma image_walk (k : Slot) (kind : ImageKind.t) ctx url seeded stem w
    (unchanged failed success : string) :
  fetch_event k = FetchImage kind ->
  truthy url = true ->
  let r := walk seeded (fun c => download_and_process_image c stem kind)
             (declared url) in
  exists w' evs,
    (if opt_eqb seeded (or_empty url) then
       log INFO unchanged ;; ret ctx
     else
       path <- resource_dl_download_and_process_image (or_empty url) stem kind ;;
       match path with
       | Some path =>
           log INFO success ;;
           ret (Context.set_out
                  (TempResourceFiles.set (kind_of k)
                     (staged (or_empty url) path
                        (slot_of k (Context.out ctx))) (Context.out ctx))
                  ctx)
       | None => log ERROR failed ;; ret ctx
       end) w
    = (inr (after_walk k ctx (snd r)), w')
    /\ trace w' = trace w ++ evs
    /\ fetches evs = map (fetch_event k) (fst r).
Proof.
  intros Hk Hu. rewrite (truthy_declared _ Hu). cbn [walk].
  destruct (opt_eqb seeded (or_empty url)); cbn [fst snd].
  - eexists. eexists [_]. split; [reflexivity |]. split; reflexivity.
  - destruct (resource_dl_download_and_process_image_events (or_empty url)
                stem kind w) as (w1 & evs1 & E1 & Et1 & Ef1).
    rewrite (bind_run _ _ _ _ _ E1).
    destruct (download_and_process_image (or_empty url) stem kind) as [p |];
      cbn [fst snd after_walk].
    + eexists. eexists (FetchImage kind (or_empty url) :: evs1 ++ [_]).
      split; [reflexivity |]. cbn [trace]. rewrite Et1, <- app_assoc.
      split; [reflexivity |].
      change (FetchImage kind (or_empty url) :: evs1 ++ [Log INFO success])
        with ([FetchImage kind (or_empty url)] ++ evs1 ++ [Log INFO success]).
      rewrite !fetches_app, Ef1, Hk. reflexivity.
    + eexists. eexists (FetchImage kind (or_empty url) :: evs1 ++ [_]).
      split; [reflexivity |]. cbn [trace]. rewrite Et1, <- app_assoc.
      split; [reflexivity |].
      change (FetchImage kind (or_empty url) :: evs1 ++ [Log ERROR failed])
        with ([FetchImage kind (or_empty url)] ++ evs1 ++ [Log ERROR failed]).
      rewrite !fetches_app, Ef1, Hk. reflexivity.
Qed.

Lemma maybe_download_cover_walk ctx w :
  exists w' evs,
    _maybe_download_cover ctx w
    = (inr (after_walk CoverSlot ctx (snd (walk_of CoverSlot ctx))), w')
    /\ trace w' = trace w ++ evs
    /\ fetches evs
       = map (fetch_event CoverSlot) (fst (walk_of CoverSlot ctx)).
Proof.
  unfold walk_of, enabled, _maybe_download_cover.
  destruct (Options.cover _) as [options |];
    [| exists w, []; rewrite app_nil_r; auto].
  destruct (cover_url_run ctx w) as (url & w1 & E1).
  pose proof (cover_url_value _ _ _ _ E1) as ->.
  destruct (only_run _ _ _ _ _ (only_cover_url not_fetch not_fetch_log ctx) E1)
    as (evs1 & Et1 & _ & Hn1).
  apply fetches_not_fetch in Hn1.
  rewrite (bind_run _ _ _ _ _ E1).
  cbn [candidates].
  destruct (truthy (cover_candidate ctx)) eqn:Hu; cbn [negb].
  - edestruct (image_walk CoverSlot ImageKind.COVER ctx
                 (cover_candidate ctx)
                 (TempResourceFile.resource
                    (TempResourceFiles.cover (Context.out ctx)))
                 (Locations.temp_path (Context.locations ctx) "" "") w1)
      as (w' & evs & E & Et & Ef); [reflexivity | exact Hu |].
    exists w', (evs1 ++ evs). split; [exact E |].
    split; [rewrite Et, Et1, <- app_assoc; reflexivity |].
    rewrite fetches_app, Hn1, Ef. reflexivity.
  - rewrite (declared_not_truthy _ Hu). cbn [walk fst snd map after_walk].
    eexists. eexists (evs1 ++ [_]). split; [reflexivity |].
    cbn [trace]. rewrite Et1, <- app_assoc. split; [reflexivity |].
    rewrite fetches_app, Hn1. reflexivity.
Qed.

Lemma maybe_download_background_walk ctx w :
  exists w' evs,
    _maybe_download_background ctx w
    = (inr (after_walk BackgroundSlot ctx
              (snd (walk_of BackgroundSlot ctx))), w')
    /\ trace w' = trace w ++ evs
    /\ fetches evs
       = map (fetch_event BackgroundSlot) (fst (walk_of BackgroundSlot ctx)).
Proof.
  unfold walk_of, enabled, _maybe_download_background.
  destruct (Options.background_options _) as [options |];
    [| exists w, []; rewrite app_nil_r; auto].
  destruct (Options.download_background options _); cbn [negb];
    [| exists w, []; rewrite app_nil_r; auto].
  destruct (background_url_run ctx w) as (url & w1 & E1).
  pose proof (background_url_value _ _ _ _ E1) as ->.
  destruct (only_run _ _ _ _ _
              (only_background_url not_fetch not_fetch_log ctx) E1)
    as (evs1 & Et1 & _ & Hn1).
  apply fetches_not_fetch in Hn1.
  rewrite (bind_run _ _ _ _ _ E1).
  cbn [candidates].
  destruct (truthy (background_candidate ctx)) eqn:Hu; cbn [negb].
  - edestruct (image_walk BackgroundSlot ImageKind.BACKGROUND ctx
                 (background_candidate ctx)
                 (TempResourceFile.resource
                    (TempResourceFiles.background (Context.out ctx)))
                 (Locations.temp_path (Context.locations ctx) "" "") w1)
      as (w' & evs & E & Et & Ef); [reflexivity | exact Hu |].
    exists w', (evs1 ++ evs). split; [exact E |].
    split; [rewrite Et, Et1, <- app_assoc; reflexivity |].
    rewrite fetches_app, Hn1, Ef. reflexivity.
  - rewrite (declared_not_truthy _ Hu). cbn [walk fst snd map after_walk].
    eexists. eexists (evs1 ++ [_]). split; [reflexivity |].
    cbn [trace]. rewrite Et1, <- app_assoc. split; [reflexivity |].
    rewrite fetches_app, Hn1. reflexivity.
Qed.

(** Each download function walks its slot's candidates. *)
Lemma downloader_walk k ctx w :
  exists w' evs,
    downloader k ctx w
    = (inr (after_walk k ctx (snd (walk_of k ctx))), w')
    /\ trace w' = trace w ++ evs
    /\ fetches evs = map (fetch_event k) (fst (walk_of k ctx)).
Proof.
  destruct k; cbn [downloader].
  - apply maybe_download_audio_walk.
  - apply maybe_download_video_walk.
  - apply maybe_download_cover_walk.
  - apply maybe_download_background_walk.
Qed.

End Walk.

(** ** What the download functions fetch *)

(** The events a computation added to the trace. *)
Definition new_events {A : Type} (w : World) (r : A * World) : list Event :=
  skipn (length (trace w)) (trace (snd r)).

Lemma new_events_app {A : Type} (w : World) (a : A) (w' : World) evs :
  trace w' = trace w ++ evs -> new_events w (a, w') = evs.
Proof.
  intros E. unfold new_events. cbn [snd]. rewrite E.
  rewrite skipn_app, skipn_all, Nat.sub_diag. reflexivity.
Qed.

Section Fetching.
Context `{External}.

Lemma candidates_length k ctx : length (candidates k ctx) <= 10.
Proof.
  destruct k; cbn [candidates].
  - apply yields_islice_length.
  - apply yields_islice_length.
  - unfold declared. destruct (cover_candidate ctx) as [u |]; cbn; [| lia].
    destruct (str_truthy u); cbn; lia.
  - unfold declared. destruct (background_candidate ctx) as [u |]; cbn; [| lia].
    destruct (str_truthy u); cbn; lia.
Qed.

Lemma image_candidates_length k ctx :
  k = CoverSlot \/ k = BackgroundSlot -> length (candidates k ctx) <= 1.
Proof.
  intros [-> | ->]; cbn [candidates]; unfold declared.
  - destruct (cover_candidate ctx) as [u |]; cbn; [| lia].
    destruct (str_truthy u); cbn; lia.
  - destruct (background_candidate ctx) as [u |]; cbn; [| lia].
    destruct (str_truthy u); cbn; lia.
Qed.

Lemma walk_of_length k ctx :
  length (fst (walk_of k ctx)) <= length (candidates k ctx).
Proof.
  unfold walk_of. destruct (enabled k ctx); [apply walk_length |].
  cbn. lia.
Qed.

(** X5. However many candidates a song has, the audio and the video function
    fetch at most ten each, the cover and the background function at most
    one each. *)
Theorem download_attempts_bounded k ctx w :
  length (fetches (new_events w (downloader k ctx w)))
  <= match k with
     | AudioSlot | VideoSlot => 10
     | CoverSlot | BackgroundSlot => 1
     end.
Proof.
  destruct (downloader_walk k ctx w) as (w' & evs & E & Et & Ef).
  rewrite E. rewrite (new_events_app w _ w' evs Et), Ef, length_map.
  pose proof (walk_of_length k ctx) as Hw.
  destruct k.
  - pose proof (candidates_length AudioSlot ctx). lia.
  - pose proof (candidates_length VideoSlot ctx). lia.
  - pose proof (image_candidates_length CoverSlot ctx (or_introl eq_refl)). lia.
  - pose proof (image_candidates_length BackgroundSlot ctx
                  (or_intror eq_refl)). lia.
Qed.

(** X6. The first candidate that can be fetched wins: when the candidates
    before [c] fail, neither they nor [c] are what the slot holds, and [c]
    is fetched to [p], the download function fetches exactly the candidates
    up to [c], stages [p] with resource [c] in its slot, and leaves the
    slot's old path and the other slots as they were; the candidates after
    [c] are not fetched. *)
Theorem first_fetched_candidate_is_staged k ctx w pre c post p :
  enabled k ctx = true ->
  candidates k ctx = pre ++ c :: post ->
  (forall r, In r (pre ++ [c]) ->
     opt_eqb (TempResourceFile.resource (slot_of k (Context.out ctx))) r
     = false) ->
  (forall r, In r pre -> fetch k ctx r = None) ->
  fetch k ctx c = Some p ->
  exists w',
    downloader k ctx w
    = (inr (Context.set_out
              (TempResourceFiles.set (kind_of k)
                 (TempResourceFile.mk
                    (TempResourceFile.old_path
                       (slot_of k (Context.out ctx)))
                    (Some p) (Some c))
                 (Context.out ctx))
              ctx), w')
    /\ fetches (new_events w (downloader k ctx w))
       = map (fetch_event k) (pre ++ [c]).
Proof.
  intros Hen Hc Hs Hf Hp.
  destruct (downloader_walk k ctx w) as (w' & evs & E & Et & Ef).
  assert (Hw : walk_of k ctx = (pre ++ [c], Fetched c p)).
  { unfold walk_of. rewrite Hen, Hc.
    apply walk_first_success; assumption. }
  rewrite Hw in E, Ef. cbn [fst snd after_walk] in E, Ef.
  exists w'. split; [exact E |].
  rewrite E. rewrite (new_events_app w _ w' evs Et). exact Ef.
Qed.

End Fetching.

Module FetchDemo.
Import Demo.

(** The first download of song 1: only the second comment video can be
    fetched. *)
Definition after_audio : (Exn + Context.t) * World :=
  @_maybe_download_audio external ctx world.

End FetchDemo.

Lemma first_fetched_candidate_is_staged_witness :
  exists w',
    @_maybe_download_audio Demo.external Demo.ctx Demo.world
    = (inr (Context.set_out
              (TempResourceFiles.set ResourceFileKind.AUDIO
                 (TempResourceFile.mk None
                    (Some ["tmp"; "usdb"; "Artist - Title.m4a"])
                    (Some "https://video.example/c2"))
                 TempResourceFiles.empty)
              Demo.ctx), w')
    /\ fetches (new_events Demo.world FetchDemo.after_audio)
       = [FetchAudio "https://audio.example/a";
          FetchAudio "https://video.example/v";
          FetchAudio "https://video.example/c1";
          FetchAudio "https://video.example/c2"].
Proof.
  apply (@first_fetched_candidate_is_staged Demo.external AudioSlot Demo.ctx
           Demo.world
           ["https://audio.example/a"; "https://video.example/v";
            "https://video.example/c1"]
           "https://video.example/c2" []
           ["tmp"; "usdb"; "Artist - Title.m4a"]).
  - reflexivity.
  - reflexivity.
  - intros r _. reflexivity.
  - intros r Hr. cbn [In] in Hr.
    destruct Hr as [<- | [<- | [<- | []]]]; reflexivity.
  - reflexivity.
Defined.

(** ** Downloads come before anything in the library is touched *)

(** Events that leave the files that exist where they are: logging,
    fetching, writing a file, tagging. *)
Definition is_gentle (e : Event) : bool :=
  match e with
  | Log _ _ | FetchAudio _ | FetchVideo _ | FetchImage _ _
  | WriteFile _ _ | WriteTags _ _ => true
  | _ => false
  end.

Section Gentle.
Context `{External}.
Variable p : Event -> bool.
Hypothesis p_log : forall l m, p (Log l m) = true.
Hypothesis p_fetch : forall e, is_fetch e = true -> p e = true.
Hypothesis p_write : forall q c, p (WriteFile q c) = true.
Hypothesis p_tags : forall f q, p (WriteTags f q) = true.

Lemma gentle_effects_video ctx :
  effects_ok p (Context.all_video_resources ctx) = true.
Proof.
  unfold Context.all_video_resources. rewrite effects_ok_app, effects_ok_yields.
  destruct (MetaTags.video _) as [v |]; [destruct (str_truthy v) |]; reflexivity.
Qed.

Lemma gentle_effects_audio ctx :
  effects_ok p (Context.all_audio_resources ctx) = true.
Proof.
  unfold Context.all_audio_resources.
  rewrite !effects_ok_app, gentle_effects_video.
  destruct (MetaTags.audio _) as [a |]; [destruct (str_truthy a) |];
    destruct (truthy _); simpl; rewrite ?p_log; reflexivity.
Qed.

Lemma gentle_Context_new song options tempdir :
  only p (Context.new song options tempdir).
Proof.
  unfold Context.new, _get_usdb_data. apply only_bind; [only_tac |].
  intros [details txt]. only_tac.
Qed.

Lemma gentle_resource_dl_download_audio r s :
  only p (resource_dl_download_audio r s).
Proof. unfold resource_dl_download_audio. only_tac. Qed.

Lemma gentle_resource_dl_download_video r s :
  only p (resource_dl_download_video r s).
Proof. unfold resource_dl_download_video. only_tac. Qed.

Lemma gentle_resource_dl_download_and_process_image u s k :
  only p (resource_dl_download_and_process_image u s k).
Proof. unfold resource_dl_download_and_process_image. only_tac. Qed.

Lemma gentle_audio_loop items ctx :
  effects_ok p items = true -> only p (audio_loop items ctx).
Proof.
  induction items as [| [r | e] items IH]; simpl; intros Hi.
  - apply only_ret.
  - destruct (opt_eqb _ r); [only_tac |].
    apply only_bind; [apply gentle_resource_dl_download_audio | intros ext].
    destruct (truthy ext); [only_tac | auto].
  - apply andb_true_iff in Hi. destruct Hi as [He Hi].
    apply andb_true_iff in He. destruct He as [He Hn].
    apply only_bind; [apply only_emit; assumption | auto].
Qed.

Lemma gentle_video_loop items ctx :
  effects_ok p items = true -> only p (video_loop items ctx).
Proof.
  induction items as [| [r | e] items IH]; simpl; intros Hi.
  - apply only_ret.
  - destruct (opt_eqb _ r); [only_tac |].
    apply only_bind; [apply gentle_resource_dl_download_video | intros ext].
    destruct (truthy ext); [only_tac | auto].
  - apply andb_true_iff in Hi. destruct Hi as [He Hi].
    apply andb_true_iff in He. destruct He as [He Hn].
    apply only_bind; [apply only_emit; assumption | auto].
Qed.

Lemma gentle_maybe_download_audio ctx : only p (_maybe_download_audio ctx).
Proof.
  unfold _maybe_download_audio. destruct (Options.audio_options _);
    [| apply only_ret].
  apply only_bind.
  - apply gentle_audio_loop, effects_ok_islice, gentle_effects_audio.
  - intros [c |]; only_tac.
Qed.

Lemma gentle_maybe_download_video ctx : only p (_maybe_download_video ctx).
Proof.
  unfold _maybe_download_video. destruct (Options.video_options _);
    [| apply only_ret].
  destruct (is_audio_only _); [apply only_ret |].
  apply only_bind.
  - apply gentle_video_loop, effects_ok_islice, gentle_effects_video.
  - intros [c |]; only_tac.
Qed.

Lemma gentle_maybe_download_cover ctx : only p (_maybe_download_cover ctx).
Proof.
  unfold _maybe_download_cover, Context.cover_url.
  destruct (Options.cover _); [| apply only_ret].
  apply only_bind; [only_tac | intros url].
  destruct (negb (truthy url)); [only_tac |].
  destruct (opt_eqb _ _); [only_tac |].
  apply only_bind; [apply gentle_resource_dl_download_and_process_image |].
  intros [path |]; only_tac.
Qed.

Lemma gentle_maybe_download_background ctx :
  only p (_maybe_download_background ctx).
Proof.
  unfold _maybe_download_background, Context.background_url.
  destruct (Options.background_options _); [| apply only_ret].
  destruct (negb _); [apply only_ret |].
  apply only_bind; [only_tac | intros url].
  destruct (negb (truthy url)); [only_tac |].
  destruct (opt_eqb _ _); [only_tac |].
  apply only_bind; [apply gentle_resource_dl_download_and_process_image |].
  intros [path |]; only_tac.
Qed.

Lemma gentle_read_images l : only p (read_images l).
Proof. induction l as [| [i |] l IH]; simpl; only_tac. Qed.

Lemma gentle_save_tags fmt path : only p (save_tags fmt path).
Proof. unfold save_tags. only_tac. Qed.

Lemma gentle_maybe_write_audio_tags ctx :
  only p (_maybe_write_audio_tags ctx).
Proof.
  unfold _maybe_write_audio_tags, _write_m4a_tags, _write_mp3_tags,
    _write_ogg_tags.
  only_tac; first [apply gentle_read_images | apply gentle_save_tags].
Qed.

Lemma gentle_download_stage ctx : only p (SongLoader.download_stage ctx).
Proof.
  unfold SongLoader.download_stage.
  apply only_bind; [apply gentle_maybe_download_audio | intros].
  apply only_bind; [apply gentle_maybe_download_video | intros].
  apply only_bind; [apply gentle_maybe_download_cover | intros].
  apply only_bind; [apply gentle_maybe_download_background | intros].
  apply only_bind; [apply gentle_maybe_write_audio_tags | intros].
  apply only_ret.
Qed.

End Gentle.

Section Phases.
Context `{External}.

(** X8. The download stage, tag writing included, trashes nothing, renames
    nothing, makes no directory and posts nothing: whatever it does to the
    file system is writing the files it fetched. *)
Theorem download_stage_is_gentle ctx w :
  exists evs,
    trace (snd (SongLoader.download_stage ctx w)) = trace w ++ evs
    /\ fs (snd (SongLoader.download_stage ctx w)) = replay evs (fs w)
    /\ forallb is_gentle evs = true.
Proof.
  apply (gentle_download_stage is_gentle); try reflexivity.
  intros e He. destruct e; cbn in *; congruence.
Qed.

(** The commit stage and the writing of the sync meta fetch nothing. *)
Lemma commit_fetches_nothing ctx w :
  fetches (new_events w (SongLoader.commit_stage ctx w)) = []
  /\ fetches (new_events w (_write_sync_meta ctx w)) = [].
Proof.
  split.
  - destruct (only_commit_stage not_fetch not_fetch_log not_fetch_file_op
                ctx w) as (evs & Et & _ & Hn).
    destruct (SongLoader.commit_stage ctx w) as [r w'] eqn:E. cbn [snd] in Et.
    rewrite (new_events_app w r w' evs Et).
    apply fetches_not_fetch. exact Hn.
  - destruct (only_write_sync_meta not_fetch not_fetch_file_op
                ctx w) as (evs & Et & _ & Hn).
    destruct (_write_sync_meta ctx w) as [r w'] eqn:E. cbn [snd] in Et.
    rewrite (new_events_app w r w' evs Et).
    apply fetches_not_fetch. exact Hn.
Qed.

(** Events that are gentle, or belong to the start of a run. *)
Definition is_early (e : Event) : bool :=
  match e with
  | Post _ | MkDtemp _ => true
  | _ => is_gentle e
  end.

(** X9. In a run, every fetch comes before every event that trashes, renames
    or creates something in the library: the events of [_run_inner] are
    early ones (the notification, the scratch directory, logging, fetching,
    writing fetched files, tagging) followed by events that are no
    fetches. *)
Theorem run_fetches_before_it_commits song options w :
  exists early late,
    trace (snd (SongLoader._run_inner song options w))
    = trace w ++ early ++ late
    /\ forallb is_early early = true
    /\ fetches late = [].
Proof.
  assert (Hearly : forall e, is_gentle e = true -> is_early e = true).
  { intros e He. destruct e; cbn in *; congruence. }
  assert (Hfetch : forall e, is_fetch e = true -> is_gentle e = true).
  { intros e He. destruct e; cbn in *; congruence. }
  unfold SongLoader._run_inner, bind at 1, post, emit.
  unfold bind at 1, with_TemporaryDirectory. cbn [fs db trace].
  set (t := mkdtemp (fs w)).
  set (w0 := mkWorld _ _ _).
  unfold SongLoader.in_tempdir, bind at 1.
  destruct (gentle_Context_new is_gentle (fun _ _ => eq_refl)
              (UsdbSong.set_status DOWNLOADING song) options t w0)
    as (evs1 & Et1 & _ & Hg1).
  destruct (Context.new _ options t w0) as [[e | ctx0] w1]; cbn [snd] in Et1.
  - exists (Post (SongChanged (UsdbSong.song_id song)) :: MkDtemp t :: evs1),
      [RmTree t].
    cbn [snd trace]. rewrite Et1. unfold w0. cbn [trace].
    split; [rewrite <- !app_assoc; reflexivity |].
    split; [| reflexivity].
    cbn [forallb is_early andb]. rewrite forallb_forall in *.
    intros x Hx. apply Hearly, Hg1, Hx.
  - unfold bind at 1.
    destruct (gentle_download_stage is_gentle (fun _ _ => eq_refl) Hfetch
                (fun _ _ => eq_refl) (fun _ _ => eq_refl) ctx0 w1)
      as (evs2 & Et2 & _ & Hg2).
    destruct (SongLoader.download_stage ctx0 w1) as [[e | c1] w2];
      cbn [snd] in Et2.
    + exists (Post (SongChanged (UsdbSong.song_id song)) :: MkDtemp t
              :: evs1 ++ evs2), [RmTree t].
      cbn [snd trace]. rewrite Et2, Et1. unfold w0. cbn [trace].
      split; [rewrite <- !app_assoc; cbn [app]; rewrite <- !app_assoc;
              reflexivity |].
      split; [| reflexivity].
      cbn [forallb is_early andb]. rewrite forallb_app, andb_true_iff.
      split; rewrite forallb_forall in *; intros x Hx; apply Hearly; auto.
    + destruct (only_commit_stage not_fetch not_fetch_log not_fetch_file_op
                  c1 w2) as (evs3 & Et3 & _ & Hn3).
      destruct (SongLoader.commit_stage c1 w2) as [[e | c2] w3];
        cbn [snd] in Et3.
      * exists (Post (SongChanged (UsdbSong.song_id song)) :: MkDtemp t
                :: evs1 ++ evs2), (evs3 ++ [RmTree t]).
        cbn [snd trace]. rewrite Et3, Et2, Et1. unfold w0. cbn [trace].
        split; [rewrite <- !app_assoc; cbn [app]; rewrite <- !app_assoc;
                reflexivity |].
        split.
        -- cbn [forallb is_early andb]. rewrite forallb_app, andb_true_iff.
           split; rewrite forallb_forall in *; intros x Hx; apply Hearly; auto.
        -- rewrite fetches_app, (fetches_not_fetch _ Hn3). reflexivity.
      * set (w4 := mkWorld _ _ _).
        destruct (only_write_sync_meta not_fetch not_fetch_file_op c2 w4) as (evs4 & Et4 & _ & Hn4).
        unfold bind at 1.
        destruct (_write_sync_meta c2 w4) as [[e | c3] w5];
          cbn [snd] in Et4;
          (exists (Post (SongChanged (UsdbSong.song_id song)) :: MkDtemp t
                   :: evs1 ++ evs2), (evs3 ++ [RmTree t] ++ evs4));
          cbn [snd trace ret]; rewrite Et4; unfold w4; cbn [trace];
          rewrite Et3, Et2, Et1; unfold w0; cbn [trace];
          (split; [rewrite <- !app_assoc; cbn [app]; rewrite <- !app_assoc;
                   reflexivity |]);
          (split;
           [cbn [forallb is_early andb]; rewrite forallb_app, andb_true_iff;
            split; rewrite forallb_forall in *; intros x Hx; apply Hearly;
            auto
           | rewrite !fetches_app, (fetches_not_fetch _ Hn3),
               (fetches_not_fetch _ Hn4); reflexivity]).
Qed.

End Phases.

(** ** Persisting never overwrites a file *)

(** No rename in [evs], replayed from [f], lands on a path that exists. *)
Fixpoint no_clobber (f : FS) (evs : list Event) : bool :=
  match evs with
  | [] => true
  | e :: rest =>
      match e with
      | Rename _ dst => negb (fs_exists f dst)
      | _ => true
      end
      && no_clobber (apply_event e f) rest
  end.

Lemma no_clobber_app f a b :
  no_clobber f (a ++ b) = no_clobber f a && no_clobber (replay a f) b.
Proof.
  revert f. induction a as [| e a IH]; intros f; cbn [app no_clobber replay];
    [reflexivity |].
  rewrite IH, andb_assoc. reflexivity.
Qed.

(** A computation that keeps the journal and never renames onto an
    existing path. *)
Definition careful {A : Type} (c : M A) : Prop :=
  forall w, exists evs,
    trace (snd (c w)) = trace w ++ evs
    /\ fs (snd (c w)) = replay evs (fs w)
    /\ no_clobber (fs w) evs = true.

Lemma careful_ret {A : Type} (a : A) : careful (ret a).
Proof. intros w. exists []. rewrite app_nil_r. auto. Qed.

Lemma careful_bind {A B : Type} (c : M A) (k : A -> M B) :
  careful c -> (forall a, careful (k a)) -> careful (bind c k).
Proof.
  intros Hc Hk w. unfold bind. destruct (Hc w) as (evs1 & Et1 & Ef1 & Hn1).
  destruct (c w) as [[e | a] w1]; cbn [snd] in *.
  - exists evs1. auto.
  - destruct (Hk a w1) as (evs2 & Et2 & Ef2 & Hn2).
    exists (evs1 ++ evs2). rewrite Et2, Et1, Ef2, Ef1, <- app_assoc.
    rewrite replay_app, no_clobber_app, Hn1. rewrite Ef1 in Hn2.
    rewrite Hn2. auto.
Qed.

Lemma careful_for_ {X S : Type} (xs : list X) (body : X -> S -> M S) :
  (forall x s, careful (body x s)) -> forall s, careful (for_ xs body s).
Proof.
  intros Hb. induction xs as [| x xs IH]; intros s; cbn [for_].
  - apply careful_ret.
  - apply careful_bind; [apply Hb | exact IH].
Qed.

Lemma fs_exists_removed f p : fs_exists (fs_remove f p) p = false.
Proof. unfold fs_exists, fs_remove. rewrite is_under_refl. reflexivity. Qed.

Section Careful.
Context `{External}.

Lemma rename_run_ok a b w :
  fs_exists (fs w) a = true ->
  rename a b w
  = (inr tt, mkWorld (fs_rename (fs w) a b) (db w) (trace w ++ [Rename a b])).
Proof. intros Ha. unfold rename, bind, get_fs. rewrite Ha. reflexivity. Qed.

Lemma rename_run_missing a b w :
  fs_exists (fs w) a = false ->
  rename a b w = (inl (OtherError "FileNotFoundError"), w).
Proof. intros Ha. unfold rename, bind, get_fs. rewrite Ha. reflexivity. Qed.

Lemma bind_raise {A B : Type} (c : M A) (k : A -> M B) w e w1 :
  c w = (inl e, w1) -> bind c k w = (inl e, w1).
Proof. intros E. unfold bind. rewrite E. reflexivity. Qed.

Lemma careful_persist_slot l a : careful (persist_slot l a).
Proof.
  intros w. unfold persist_slot.
  destruct (TempResourceFile.new_path a) as [np |];
    [| exists []; rewrite app_nil_r; auto].
  remember (Locations.file_path l (name np) "") as target eqn:Ht.
  rewrite (bind_run _ _ _ _ _ (exists_run target w)).
  destruct (fs_exists (fs w) target) eqn:Hex; cbn [when].
  - remember ("Trashed existing file: '" ^^ path_str target ^^ "'.") as msg.
    rewrite (bind_run (send2trash target ;; log DEBUG msg) _ w tt
               (mkWorld (fs_remove (fs w) target) (db w)
                  (trace w ++ [Trash target; Log DEBUG msg]))).
    2:{ rewrite (bind_run _ _ _ _ _ (send2trash_run target w)).
        rewrite log_run. cbn [fs db trace]. rewrite <- app_assoc.
        reflexivity. }
    set (w1 := mkWorld _ _ _).
    destruct (fs_exists (fs w1) np) eqn:Hnp.
    + rewrite (bind_run _ _ _ _ _ (rename_run_ok np target w1 Hnp)).
      exists [Trash target; Log DEBUG msg; Rename np target].
      cbn [ret snd fs db trace replay apply_event no_clobber w1].
      rewrite <- !app_assoc. rewrite fs_exists_removed. auto.
    + rewrite (bind_raise _ _ _ _ _ (rename_run_missing np target w1 Hnp)).
      exists [Trash target; Log DEBUG msg].
      cbn [snd fs db trace replay apply_event no_clobber w1]. auto.
  - rewrite (bind_run (ret tt) _ w tt w eq_refl).
    destruct (fs_exists (fs w) np) eqn:Hnp.
    + rewrite (bind_run _ _ _ _ _ (rename_run_ok np target w Hnp)).
      exists [Rename np target].
      cbn [ret snd fs db trace replay apply_event no_clobber].
      rewrite Hex. auto.
    + rewrite (bind_raise _ _ _ _ _ (rename_run_missing np target w Hnp)).
      exists []. cbn [snd]. rewrite app_nil_r. auto.
Qed.

Lemma careful_persist_tempfiles ctx : careful (_persist_tempfiles ctx).
Proof.
  unfold _persist_tempfiles.
  apply careful_bind; [| intros; apply careful_ret].
  apply careful_for_. intros k out.
  apply careful_bind; [apply careful_persist_slot | intros; apply careful_ret].
Qed.

(** X10. [_persist_tempfiles] never moves a staged file onto a path where
    something is: whatever occupies the target has been trashed first.  So
    it is while it runs, and when it stops halfway because a staged file is
    missing. *)
Theorem persist_never_overwrites ctx w :
  no_clobber (fs w) (new_events w (_persist_tempfiles ctx w)) = true.
Proof.
  destruct (careful_persist_tempfiles ctx w) as (evs & Et & _ & Hn).
  destruct (_persist_tempfiles ctx w) as [r w']. cbn [snd] in Et.
  rewrite (new_events_app w r w' evs Et). exact Hn.
Qed.

End Careful.

(** ** The txt in the commit stage *)

(** The header of the txt that names the file of a slot. *)
Definition header_of (k : Slot) (h : Headers.t) : option string :=
  match k with
  | AudioSlot => Headers.mp3 h
  | VideoSlot => Headers.video h
  | CoverSlot => Headers.cover h
  | BackgroundSlot => Headers.background h
  end.

Lemma in_new_events {A : Type} (w : World) (a : A) (w' : World) evs e :
  trace w' = trace w ++ evs -> In e evs -> In e (new_events w (a, w')).
Proof. intros Et Hin. rewrite (new_events_app w a w' evs Et). exact Hin. Qed.

Section CommitTxt.
Context `{External}.

Lemma for_cons {X S : Type} (x : X) (xs : list X) (body : X -> S -> M S) s w :
  for_ (x :: xs) body s w = bind (body x s) (for_ xs body) w.
Proof. reflexivity. Qed.

Lemma commit_stage_steps ctx w c2 w2 :
  SongLoader.commit_stage ctx w = (inr c2, w2) ->
  exists c1 w1 l' w1' c3 w3,
    _cleanup_exisiting_resource ctx w = (inr c1, w1)
    /\ _ensure_correct_folder_name (Context.locations c1) w1 = (inr l', w1')
    /\ _maybe_write_txt (Context.set_locations l' c1) w1' = (inr c3, w3)
    /\ _persist_tempfiles c3 w3 = (inr c2, w2).
Proof.
  intros E. unfold SongLoader.commit_stage in E.
  inv_bind_as E c1 w1 E1. inv_bind_as E l' w1' E2. inv_bind_as E c3 w3 E3.
  exists c1, w1, l', w1', c3, w3. auto.
Qed.

Lemma trace_grows {A : Type} (c : M A) w r w' :
  only (fun _ => true) c -> c w = (r, w') ->
  exists evs, trace w' = trace w ++ evs.
Proof.
  intros Ho E. destruct (only_run _ _ _ _ _ Ho E) as (evs & Et & _).
  exists evs. exact Et.
Qed.

Lemma cleanup_grows ctx w r w' :
  _cleanup_exisiting_resource ctx w = (r, w') ->
  exists evs, trace w' = trace w ++ evs.
Proof.
  apply trace_grows. apply only_cleanup_exisiting_resource; intros; reflexivity.
Qed.

Lemma ensure_grows l w r w' :
  _ensure_correct_folder_name l w = (r, w') ->
  exists evs, trace w' = trace w ++ evs.
Proof.
  apply trace_grows. apply only_ensure_correct_folder_name; intros; reflexivity.
Qed.

Lemma write_txt_grows ctx w r w' :
  _maybe_write_txt ctx w = (r, w') ->
  exists evs, trace w' = trace w ++ evs.
Proof.
  apply trace_grows. apply only_maybe_write_txt; intros; reflexivity.
Qed.

Lemma persist_grows ctx w r w' :
  _persist_tempfiles ctx w = (r, w') ->
  exists evs, trace w' = trace w ++ evs.
Proof.
  apply trace_grows. apply only_persist_tempfiles; intros; reflexivity.
Qed.

Lemma write_headers_header k ctx :
  header_of k (SongTxt.headers (Context.txt (_write_headers ctx)))
  = header_name (TempResourceFile.path (slot_of k (Context.out ctx)))
      (header_of k (SongTxt.headers (Context.txt ctx))).
Proof. destruct k; reflexivity. Qed.

Lemma maybe_write_txt_enabled ctx w options :
  Options.txt_options (Context.options ctx) = Some options ->
  _maybe_write_txt ctx w
  = (inr (Context.set_out
            (TempResourceFiles.set_txt
               (TempResourceFile.mk
                  (TempResourceFile.old_path
                     (TempResourceFiles.txt (Context.out ctx)))
                  (Some (Locations.temp_path (Context.locations ctx) "" "txt"))
                  (Some (usdb_url (UsdbSong.song_id (Context.song ctx)))))
               (Context.out ctx))
            (_write_headers ctx)),
     mkWorld
       (fs_write (fs w) (Locations.temp_path (Context.locations ctx) "" "txt")
          (File (WrittenTxt
                   (SongTxt.headers (Context.txt (_write_headers ctx))))))
       (db w)
       (trace w
        ++ [WriteFile (Locations.temp_path (Context.locations ctx) "" "txt")
              (WrittenTxt (SongTxt.headers (Context.txt (_write_headers ctx))));
            Log INFO "Success! Created song txt."])).
Proof.
  intros Ho. unfold _maybe_write_txt. rewrite Ho.
  cbv beta iota zeta delta [bind emit get_fs set_fs ret write_file log fs db
                            trace].
  rewrite <- app_assoc. reflexivity.
Qed.

Lemma generic_name_of_name l n :
  str_truthy n = true -> Locations.generic_name l n "" = n.
Proof. intros Hn. unfold Locations.generic_name. rewrite Hn. reflexivity. Qed.

(** X11. With txt output on, the headers of the txt that the commit stage
    writes name the files as the sync meta will record them: for each of
    audio, video, cover and background, the header holds the name of the
    file that [to_resource_file] gives for the slot after the commit. *)
Theorem txt_headers_name_recorded_files (k : Slot) ctx w c2 w2 rf :
  Options.txt_options (Context.options ctx) <> None ->
  (forall np,
     TempResourceFile.new_path (slot_of k (Context.out ctx)) = Some np ->
     str_truthy (name np) = true) ->
  SongLoader.commit_stage ctx w = (inr c2, w2) ->
  TempResourceFile.to_resource_file (slot_of k (Context.out c2)) = Some rf ->
  header_of k (SongTxt.headers (Context.txt c2))
  = Some (ResourceFile.fname rf)
  /\ exists p,
       In (WriteFile p (WrittenTxt (SongTxt.headers (Context.txt c2))))
         (new_events w (SongLoader.commit_stage ctx w)).
Proof.
  intros Hopt Hname E Hrf.
  destruct (commit_stage_steps ctx w c2 w2 E)
    as (c1 & w1 & l' & w1' & c3 & w3 & E1 & E2 & E3 & E4).
  destruct (cleanup_grows _ _ _ _ E1) as (evs1 & Et1).
  destruct (ensure_grows _ _ _ _ E2) as (evs2 & Et2).
  destruct (persist_grows _ _ _ _ E4) as (evs4 & Et4).
  apply cleanup_exisiting_resource_spec in E1.
  destruct E1 as (o1 & -> & Hcl).
  destruct (Options.txt_options (Context.options ctx)) as [options |] eqn:Ho;
    [| congruence].
  rewrite (maybe_write_txt_enabled
             (Context.set_locations l' (Context.set_out o1 ctx)) w1' options
             Ho) in E3.
  injection E3 as <- <-.
  apply persist_tempfiles_spec in E4. destruct E4 as (o4 & -> & Hp).
  cbn [Context.out Context.set_out Context.txt Context.locations
       Context.set_locations trace] in *.
  split.
  - rewrite write_headers_header.
    cbn [Context.out Context.set_out Context.set_locations].
    destruct (Hcl (kind_of k)) as (Hr1 & Hn1 & _).
    destruct (Hp (kind_of k)) as (Hr4 & Ho4 & Hn4).
    assert (Hget : TempResourceFiles.get (kind_of k)
                     (TempResourceFiles.set_txt
                        (TempResourceFile.mk
                           (TempResourceFile.old_path (TempResourceFiles.txt o1))
                           (Some (Locations.temp_path l' "" "txt"))
                           (Some (usdb_url (UsdbSong.song_id (Context.song ctx)))))
                        o1)
                   = TempResourceFiles.get (kind_of k) o1).
    { destruct k; reflexivity. }
    rewrite Hget in Hr4, Ho4, Hn4.
    unfold slot_of in *.
    unfold TempResourceFile.to_resource_file,
      TempResourceFile.path_and_resource in Hrf.
    unfold TempResourceFile.path.
    rewrite Hn4, Ho4, Hr4 in Hrf.
    destruct (TempResourceFile.new_path (TempResourceFiles.get (kind_of k) o1))
      as [np |] eqn:Hnp; cbn [or_else] in *.
    + destruct (TempResourceFile.resource _) as [r |]; [| discriminate].
      destruct (str_truthy r); [| discriminate].
      injection Hrf as <-. cbn [header_name ResourceFile.new ResourceFile.fname].
      unfold Locations.file_path. rewrite name_joinpath.
      rewrite generic_name_of_name; [reflexivity |].
      apply Hname. symmetry. exact Hn1.
    + destruct (TempResourceFile.old_path _) as [op |]; [| discriminate].
      destruct (TempResourceFile.resource _) as [r |]; [| discriminate].
      destruct (str_truthy r); [| discriminate].
      injection Hrf as <-. reflexivity.
  - exists (Locations.temp_path l' "" "txt"). rewrite E.
    eapply in_new_events.
    + rewrite Et4. cbn [trace]. rewrite Et2, Et1.
      rewrite <- !app_assoc. reflexivity.
    + apply in_or_app. right. apply in_or_app. right. left. reflexivity.
Qed.

(** X12. A song that has a txt on record loses it to the trash in every commit
    stage of a later run, where the txt slot starts empty: the file is
    trashed first of all, whether txt output is on or not, and with txt
    output off the new record has no txt. *)
Theorem rerun_trashes_recorded_txt ctx w c2 w2 m rf :
  UsdbSong.sync_meta (Context.song ctx) = Some m ->
  SyncMeta.txt m = Some rf ->
  TempResourceFiles.txt (Context.out ctx) = TempResourceFile.empty ->
  fs_exists (fs w)
    (Locations.file_path (Context.locations ctx) (ResourceFile.fname rf) "")
  = true ->
  SongLoader.commit_stage ctx w = (inr c2, w2) ->
  (exists msg rest,
     new_events w (SongLoader.commit_stage ctx w)
     = Trash (Locations.file_path (Context.locations ctx)
                (ResourceFile.fname rf) "")
       :: Log DEBUG msg :: rest)
  /\ (Options.txt_options (Context.options ctx) = None ->
      TempResourceFile.to_resource_file
        (TempResourceFiles.txt (Context.out c2)) = None).
Proof.
  intros Hm Htxt Hempty Hex E. split.
  - destruct (commit_stage_steps ctx w c2 w2 E)
      as (c1 & w1 & l' & w1' & c3 & w3 & E1 & E2 & E3 & E4).
    destruct (ensure_grows _ _ _ _ E2) as (evs2 & Et2).
    destruct (write_txt_grows _ _ _ _ E3) as (evs3 & Et3).
    destruct (persist_grows _ _ _ _ E4) as (evs4 & Et4).
    unfold _cleanup_exisiting_resource in E1. rewrite Hm in E1.
    cbn [SyncMeta.all_resource_files TempResourceFiles.iter combine] in E1.
    rewrite Htxt in E1.
    remember (Locations.file_path (Context.locations ctx)
                (ResourceFile.fname rf) "") as path eqn:Hpath.
    remember ("Trashed untracked file: '" ^^ path_str path ^^ "'.") as msg.
    inv_bind_as E1 o1 wa Ea.
    rewrite for_cons in Ea. cbv beta iota in Ea.
    inv_bind_as Ea s1 wb Eb.
    cbn [TempResourceFiles.get] in Eb. rewrite Hempty in Eb.
    unfold cleanup_slot in Eb.
    cbn [TempResourceFile.empty TempResourceFile.old_path] in Eb.
    rewrite <- Hpath, <- Heqmsg in Eb.
    inv_bind_as Eb t1 wc Ec.
    rewrite (bind_run _ _ _ _ _ (exists_run path w)) in Ec.
    rewrite Hex in Ec. cbn [when] in Ec.
    rewrite (bind_run (send2trash path ;; log DEBUG msg) _ w tt
               (mkWorld (fs_remove (fs w) path) (db w)
                  (trace w ++ [Trash path; Log DEBUG msg]))) in Ec.
    2:{ rewrite (bind_run _ _ _ _ _ (send2trash_run path w)).
        rewrite log_run. cbn [fs db trace]. rewrite <- app_assoc.
        reflexivity. }
    injection Ec as <- <-. injection Eb as <- <-.
    assert (Hrest : exists evsa, trace wa = trace w ++ [Trash path; Log DEBUG msg] ++ evsa).
    { match type of Ea with
      | ?c _ = _ => assert (Ho : only (fun _ => true) c)
      end.
      { apply only_for_. intros [[old kind] j] s'.
        apply only_bind; [| intros; apply only_ret].
        apply only_cleanup_slot; intros; reflexivity. }
      destruct (trace_grows _ _ _ _ Ho Ea) as (evsa & Eta).
      exists evsa. rewrite Eta. cbn [trace]. rewrite <- app_assoc.
      reflexivity. }
    destruct Hrest as (evsa & Eta).
    injection E1 as <- <-.
    exists msg, (evsa ++ evs2 ++ evs3 ++ evs4).
    rewrite E. apply new_events_app.
    rewrite Et4, Et3, Et2, Eta.
    rewrite <- !app_assoc. reflexivity.
  - intros Ho. pose proof (commit_stage_txt ctx w c2 w2 Hempty E) as Hr.
    unfold txt_resource in Hr. rewrite Ho in Hr.
    destruct (TempResourceFile.to_resource_file _); [discriminate |].
    reflexivity.
Qed.

End CommitTxt.

(** A song on record with its txt, loaded again with txt output off. *)
Module TxtDemo.
Import Demo.

Definition old_txt : ResourceFile.t :=
  ResourceFile.mk "Artist - Title.txt" "https://usdb.example/song".

Definition sync_meta : SyncMeta.t :=
  SyncMeta.mk 7 1 ["songs"; "Artist - Title"; "meta.usdb"] 0 meta_tags true
    (Some old_txt) None None None None.

Definition no_txt : Options.t :=
  Options.mk ["songs"] None None None None None.

Definition ctx : Context.t :=
  Context.mk (UsdbSong.set_sync_meta (Some sync_meta) (song 1)) details
    no_txt txt locations TempResourceFiles.empty.

Definition library : World :=
  mkWorld
    (fun p =>
       if path_eqb p ["songs"] then Some Dir
       else if path_eqb p ["songs"; "Artist - Title"] then Some Dir
       else if path_eqb p ["songs"; "Artist - Title"; "Artist - Title.txt"]
       then Some (File (UserData 1))
       else None)
    (fun _ => None) [].

Definition after_commit : (Exn + Context.t) * World :=
  @SongLoader.commit_stage offline ctx library.

End TxtDemo.

Lemma txt_demo_commit :
  @SongLoader.commit_stage Demo.offline TxtDemo.ctx TxtDemo.library
  = (inr (KeepDemo.value TxtDemo.ctx TxtDemo.after_commit),
     snd TxtDemo.after_commit).
Proof.
  assert (E1 : @SongLoader.commit_stage Demo.offline TxtDemo.ctx
                 TxtDemo.library
               = (fst TxtDemo.after_commit, snd TxtDemo.after_commit)).
  { unfold TxtDemo.after_commit. apply surjective_pairing. }
  assert (E2 : fst TxtDemo.after_commit
               = inr (KeepDemo.value TxtDemo.ctx TxtDemo.after_commit)).
  { vm_compute. reflexivity. }
  rewrite E2 in E1. exact E1.
Qed.

Lemma rerun_trashes_recorded_txt_witness :
  (exists msg rest,
     new_events TxtDemo.library TxtDemo.after_commit
     = Trash ["songs"; "Artist - Title"; "Artist - Title.txt"]
       :: Log DEBUG msg :: rest)
  /\ TempResourceFile.to_resource_file
       (TempResourceFiles.txt
          (Context.out (KeepDemo.value TxtDemo.ctx TxtDemo.after_commit)))
     = None.
Proof.
  destruct (@rerun_trashes_recorded_txt Demo.offline TxtDemo.ctx
              TxtDemo.library
              (KeepDemo.value TxtDemo.ctx TxtDemo.after_commit)
              (snd TxtDemo.after_commit) TxtDemo.sync_meta TxtDemo.old_txt)
    as [Htrash Hnone].
  - reflexivity.
  - reflexivity.
  - reflexivity.
  - reflexivity.
  - exact txt_demo_commit.
  - split; [exact Htrash | apply Hnone; reflexivity].
Defined.

Lemma replace_demo_commit :
  @SongLoader.commit_stage Demo.external ReplaceDemo.ctx
    ReplaceDemo.staged_world
  = (inr (KeepDemo.value ReplaceDemo.ctx ReplaceDemo.after_commit),
     snd ReplaceDemo.after_commit).
Proof.
  assert (E1 : @SongLoader.commit_stage Demo.external ReplaceDemo.ctx
                 ReplaceDemo.staged_world
               = (fst ReplaceDemo.after_commit, snd ReplaceDemo.after_commit)).
  { unfold ReplaceDemo.after_commit. apply surjective_pairing. }
  assert (E2 : fst ReplaceDemo.after_commit
               = inr (KeepDemo.value ReplaceDemo.ctx ReplaceDemo.after_commit)).
  { vm_compute. reflexivity. }
  rewrite E2 in E1. exact E1.
Qed.

Lemma replace_demo_audio :
  slot_of AudioSlot (Context.out ReplaceDemo.ctx)
  = TempResourceFile.mk
      (Some ["songs"; "Artist - Title"; "Artist - Title.m4a"])
      (Some ["tmp"; "usdb"; "Artist - Title.m4a"])
      (Some "https://video.example/c2").
Proof. vm_compute. reflexivity. Qed.

Lemma txt_headers_name_recorded_files_witness :
  Headers.mp3
    (SongTxt.headers
       (Context.txt (KeepDemo.value ReplaceDemo.ctx ReplaceDemo.after_commit)))
  = Some "Artist - Title.m4a"
  /\ exists p,
       In (WriteFile p
             (WrittenTxt
                (SongTxt.headers
                   (Context.txt
                      (KeepDemo.value ReplaceDemo.ctx
                         ReplaceDemo.after_commit)))))
         (new_events ReplaceDemo.staged_world ReplaceDemo.after_commit).
Proof.
  apply (@txt_headers_name_recorded_files Demo.external AudioSlot
           ReplaceDemo.ctx ReplaceDemo.staged_world
           (KeepDemo.value ReplaceDemo.ctx ReplaceDemo.after_commit)
           (snd ReplaceDemo.after_commit)
           (ResourceFile.mk "Artist - Title.m4a" "https://video.example/c2")).
  - assert (Ho : Options.txt_options (Context.options ReplaceDemo.ctx)
                 = Some Options.Build_TxtOptions)
      by (vm_compute; reflexivity).
    rewrite Ho. discriminate.
  - intros np Hnp. rewrite replace_demo_audio in Hnp.
    injection Hnp as <-. reflexivity.
  - exact replace_demo_commit.
  - vm_compute. reflexivity.
Defined.

(** ** Kept files *)

Section Kept.
Context `{External}.

(** X13. A file that is kept (in sync, nothing staged for its slot) leaves
    [_cleanup_exisiting_resource] under the canonical name for its ending:
    if it is not there already it is renamed, and the slot follows it. *)
Theorem kept_file_gets_canonical_name (k : Slot) ctx w c1 w1 m old op :
  let canon :=
    Locations.file_path (Context.locations ctx) ""
      (resource_file_ending (ResourceFile.fname old)) in
  UsdbSong.sync_meta (Context.song ctx) = Some m ->
  file_of k m = Some old ->
  TempResourceFile.old_path (slot_of k (Context.out ctx)) = Some op ->
  TempResourceFile.new_path (slot_of k (Context.out ctx)) = None ->
  _cleanup_exisiting_resource ctx w = (inr c1, w1) ->
  slot_of k (Context.out c1)
  = TempResourceFile.mk (Some canon) None
      (TempResourceFile.resource (slot_of k (Context.out ctx)))
  /\ (op <> canon ->
      In (Rename op canon)
        (new_events w (_cleanup_exisiting_resource ctx w))).
Proof.
  intros canon Hm Hold Hop Hnp E.
  pose proof (cleanup_exisiting_resource_spec _ _ _ _ E) as (o0 & Hc0 & Hcl).
  pose proof E as E0.
  unfold _cleanup_exisiting_resource in E. rewrite Hm in E.
  inv_bind_as E o1 w1' Eloop. rewrite Hc0 in E. injection E as Heq Hw.
  subst w1' c1 o0.
  rewrite (for_ext _ _
             (on_slot (fun x => cleanup_slot (Context.locations ctx) (fst (fst x)))
                snd))
    in Eloop by (intros [[o kind] j] s w0; reflexivity).
  destruct (cleanup_list_split m (kind_of k)) as (pre & post & Hsplit & Hrest).
  assert (Hnd : NoDup (map snd (pre ++ (resource_file (kind_of k) m, kind_of k,
                                        kind_of k) :: post))).
  { rewrite <- Hsplit. exact iter_NoDup. }
  rewrite Hsplit in Eloop.
  destruct (on_slots_focus _ _
              (fun x a => cleanup_allowed (Context.locations ctx) (fst (fst x)) a)
              (fun x a => only_cleanup_slot_allowed _ _ _)
              _ _ _ _ _ _ _ Hnd Eloop)
    as (wa & a & wb & before & after & Estep & Hget & Etb & Efb & Epb
        & Eta & Efa & Epa).
  cbn [fst snd] in Estep, Hget.
  rewrite resource_file_kind_of, Hold in Estep.
  unfold cleanup_slot in Estep. unfold slot_of in Hop, Hnp.
  rewrite Hop, Hnp in Estep. fold canon in Estep.
  cbn [Context.out Context.set_out]. unfold slot_of. rewrite Hget.
  destruct (path_eqb op canon) eqn:Heq.
  - injection Estep as <- <-. apply path_eqb_eq in Heq.
    split; [| congruence].
    destruct (TempResourceFiles.get (kind_of k) (Context.out ctx)) as [o n r].
    cbn in *. congruence.
  - inv_bind_as Estep u wc Er. injection Estep as <- <-.
    apply rename_inr in Er. destruct Er as [_ ->].
    split; [reflexivity |].
    intros _. rewrite E0. eapply in_new_events.
    + rewrite Eta. cbn [trace]. rewrite Etb, <- !app_assoc. reflexivity.
    + apply in_or_app. right. left. reflexivity.
Qed.

End Kept.

(** A song whose audio is on record under another name. *)
Module KeptDemo.
Import Demo.

Definition old_audio : ResourceFile.t :=
  ResourceFile.mk "Old Name.m4a" "https://video.example/c2".

Definition sync_meta : SyncMeta.t :=
  SyncMeta.mk 7 1 ["songs"; "Artist - Title"; "meta.usdb"] 0 meta_tags true
    None (Some old_audio) None None None.

Definition ctx : Context.t :=
  Context.mk (UsdbSong.set_sync_meta (Some sync_meta) (song 1)) details
    options txt locations
    (TempResourceFiles.set_audio
       (TempResourceFile.mk (Some ["songs"; "Artist - Title"; "Old Name.m4a"])
          None (Some "https://video.example/c2"))
       TempResourceFiles.empty).

Definition library : World :=
  mkWorld
    (fun p =>
       if path_eqb p ["songs"] then Some Dir
       else if path_eqb p ["songs"; "Artist - Title"] then Some Dir
       else if path_eqb p ["songs"; "Artist - Title"; "Old Name.m4a"]
       then Some (File (Downloaded "https://video.example/c2"))
       else None)
    (fun _ => None) [].

Definition after_cleanup : (Exn + Context.t) * World :=
  @_cleanup_exisiting_resource external ctx library.

End KeptDemo.

Lemma kept_demo_cleanup :
  @_cleanup_exisiting_resource Demo.external KeptDemo.ctx KeptDemo.library
  = (inr (KeepDemo.value KeptDemo.ctx KeptDemo.after_cleanup),
     snd KeptDemo.after_cleanup).
Proof.
  assert (E1 : @_cleanup_exisiting_resource Demo.external KeptDemo.ctx
                 KeptDemo.library
               = (fst KeptDemo.after_cleanup, snd KeptDemo.after_cleanup)).
  { unfold KeptDemo.after_cleanup. apply surjective_pairing. }
  assert (E2 : fst KeptDemo.after_cleanup
               = inr (KeepDemo.value KeptDemo.ctx KeptDemo.after_cleanup)).
  { vm_compute. reflexivity. }
  rewrite E2 in E1. exact E1.
Qed.

Lemma kept_file_gets_canonical_name_witness :
  slot_of AudioSlot
    (Context.out (KeepDemo.value KeptDemo.ctx KeptDemo.after_cleanup))
  = TempResourceFile.mk
      (Some ["songs"; "Artist - Title"; "Artist - Title.m4a"]) None
      (Some "https://video.example/c2")
  /\ In (Rename ["songs"; "Artist - Title"; "Old Name.m4a"]
           ["songs"; "Artist - Title"; "Artist - Title.m4a"])
       (new_events KeptDemo.library KeptDemo.after_cleanup).
Proof.
  destruct (@kept_file_gets_canonical_name Demo.external AudioSlot
              KeptDemo.ctx KeptDemo.library
              (KeepDemo.value KeptDemo.ctx KeptDemo.after_cleanup)
              (snd KeptDemo.after_cleanup) KeptDemo.sync_meta
              KeptDemo.old_audio
              ["songs"; "Artist - Title"; "Old Name.m4a"])
    as [Hslot Hrename].
  - reflexivity.
  - reflexivity.
  - reflexivity.
  - reflexivity.
  - exact kept_demo_cleanup.
  - split; [exact Hslot | apply Hrename; discriminate].
Defined.

(** ** Paths and the sync meta *)




Section SyncMetaPath.
Context `{External}.


(** X16. The creator header after [_get_usdb_data] is the parsed one if it is
    not empty, else the uploader if that is not empty, else nothing: it is
    never an empty string.  The notes are those of the id in the details;
    nothing but the log changes. *)
Theorem fetched_creator_is_never_empty id w details txt w' :
  _get_usdb_data id w = (inr (details, txt), w') ->
  exists notes parsed,
    get_usdb_details id = inr details
    /\ get_notes (SongDetails.song_id details) = inr notes
    /\ SongTxt_parse notes = inr parsed
    /\ SongTxt.meta_tags txt = SongTxt.meta_tags parsed
    /\ Headers.creator (SongTxt.headers txt)
       = (if truthy (Headers.creator (SongTxt.headers parsed))
          then Headers.creator (SongTxt.headers parsed)
          else if truthy (SongDetails.uploader details)
               then SongDetails.uploader details
               else None)
    /\ Headers.creator (SongTxt.headers txt) <> Some ""
    /\ fs w' = fs w /\ db w' = db w.
Proof.
  unfold _get_usdb_data. intros E.
  destruct (get_usdb_details id) as [e | d] eqn:Hd;
    [cbn in E; discriminate |].
  unfold lift at 1 in E. rewrite (bind_run (ret d) _ w d w eq_refl) in E.
  rewrite (bind_run _ _ _ _ _ (log_run _ _ w)) in E.
  destruct (get_notes (SongDetails.song_id d)) as [e | notes] eqn:Hn;
    [cbn in E; discriminate |].
  unfold lift at 1 in E.
  rewrite (bind_run (ret notes) _ _ notes _ eq_refl) in E.
  destruct (SongTxt_parse notes) as [e | parsed] eqn:Hp;
    [cbn in E; discriminate |].
  unfold lift in E. rewrite (bind_run (ret parsed) _ _ parsed _ eq_refl) in E.
  unfold ret in E. injection E as <- <- <-.
  exists notes, parsed. split; [reflexivity |]. split; [exact Hn |].
  split; [exact Hp |]. split; [reflexivity |].
  cbn [SongTxt.headers SongTxt.set_headers Headers.creator
       Headers.set_creator fs db].
  unfold str_or.
  destruct (truthy (Headers.creator (SongTxt.headers parsed))) eqn:Hc.
  - rewrite Hc. split; [reflexivity |]. split; [| auto].
    intros Heq. rewrite Heq in Hc. discriminate.
  - destruct (truthy (SongDetails.uploader d)) eqn:Hu.
    + split; [reflexivity |]. split; [| auto].
      intros Heq. rewrite Heq in Hu. discriminate.
    + split; [reflexivity |]. split; [discriminate | auto].
Qed.

End SyncMetaPath.

Lemma fetched_creator_is_never_empty_witness :
  exists notes parsed,
    @get_usdb_details Demo.external 1 = inr Demo.details
    /\ @get_notes Demo.external 1 = inr notes
    /\ @SongTxt_parse Demo.external notes = inr parsed
    /\ Headers.creator
         (SongTxt.headers
            (snd (KeepDemo.value (Demo.details, Demo.txt)
                    (@_get_usdb_data Demo.external 1 Demo.world))))
       = Some "uploader".
Proof.
  destruct (@fetched_creator_is_never_empty Demo.external 1 Demo.world
              Demo.details
              (snd (KeepDemo.value (Demo.details, Demo.txt)
                      (@_get_usdb_data Demo.external 1 Demo.world)))
              (snd (@_get_usdb_data Demo.external 1 Demo.world)))
    as (notes & parsed & Hd & Hn & Hp & _ & Hc & _).
  - reflexivity.
  - exists notes, parsed. split; [exact Hd |]. split; [exact Hn |].
    split; [exact Hp |]. vm_compute. reflexivity.
Defined.

(** ** Audio tags *)

(** One of the three tag writers. *)
Definition tag_writer `{External} (fmt : TagFormat) (path : Path)
    (resource : string) (ctx : Context.t) (embed_artwork : bool) : M unit :=
  match fmt with
  | M4A => _write_m4a_tags path resource ctx embed_artwork
  | MP3 => _write_mp3_tags path resource ctx embed_artwork
  | OGG => _write_ogg_tags path ctx embed_artwork
  end.

(** Is [e] a log entry or the saving of tags to [path]? *)
Definition logs_or_tags (path : option Path) (e : Event) : bool :=
  match e with
  | Log _ _ => true
  | WriteTags _ p =>
      match path with
      | Some q => path_eqb p q
      | None => false
      end
  | _ => false
  end.

Section Tags.
Context `{External}.

Lemma read_bytes_missing p w :
  (forall c, fs w p <> Some (File c)) ->
  read_bytes p w = (inl (OtherError "FileNotFoundError"), w).
Proof.
  intros Hp. unfold read_bytes, bind, get_fs.
  destruct (fs w p) as [[| c] |]; try reflexivity.
  exfalso. apply (Hp c). reflexivity.
Qed.

(** X17. With artwork to embed, a cover that cannot be read costs the audio file
    all its tags: each of the three writers raises before it saves
    anything, and leaves the world as it was. *)
Theorem unreadable_cover_blocks_tags fmt path resource ctx w p r :
  TempResourceFile.path_and_resource (TempResourceFiles.cover (Context.out ctx))
  = Some (p, r) ->
  (forall c, fs w p <> Some (File c)) ->
  tag_writer fmt path resource ctx true w
  = (inl (OtherError "FileNotFoundError"), w).
Proof.
  intros Hcover Hp.
  assert (Hpath : TempResourceFile.path
                    (TempResourceFiles.cover (Context.out ctx)) = Some p).
  { unfold TempResourceFile.path_and_resource in Hcover.
    unfold TempResourceFile.path.
    destruct (or_else _ _) as [q |]; [| discriminate].
    destruct (TempResourceFile.resource _) as [s |]; [| discriminate].
    destruct (str_truthy s); [| discriminate]. congruence. }
  destruct fmt; cbn [tag_writer].
  - unfold _write_m4a_tags. cbn [when]. rewrite Hpath. cbn [read_images].
    apply bind_raise. apply bind_raise. apply read_bytes_missing, Hp.
  - unfold _write_mp3_tags. rewrite Hcover. cbn [fst].
    apply bind_raise. apply read_bytes_missing, Hp.
  - unfold _write_ogg_tags. rewrite Hpath.
    unfold bind at 1. unfold read_bytes at 1, bind at 1, get_fs.
    destruct (fs w path) as [[| c] |]; try reflexivity.
    cbn [ret]. apply bind_raise. apply read_bytes_missing, Hp.
Qed.

Lemma tags_only_save_tags p fmt path :
  p (WriteTags fmt path) = true -> only p (save_tags fmt path).
Proof.
  intros Hp. unfold save_tags. destruct (tags_save fmt path);
    [apply only_emit; [exact Hp | reflexivity] | apply only_raise].
Qed.

(** X18. [_maybe_write_audio_tags] never raises, whatever the tag writers do,
    and all it does is log and save tags to the audio file of the slot
    (the staged one, else the kept one); without audio options or without
    an audio file with a resource it does nothing at all. *)
Theorem audio_tags_never_fail_the_run ctx w :
  exists w',
    _maybe_write_audio_tags ctx w = (inr tt, w')
    /\ db w' = db w
    /\ forallb
         (logs_or_tags
            (TempResourceFile.path (TempResourceFiles.audio (Context.out ctx))))
         (new_events w (_maybe_write_audio_tags ctx w)) = true
    /\ (Options.audio_options (Context.options ctx) = None
        \/ TempResourceFile.path_and_resource
             (TempResourceFiles.audio (Context.out ctx)) = None ->
        w' = w).
Proof.
  destruct (maybe_write_audio_tags_run ctx w) as (w' & E).
  exists w'. split; [exact E |].
  pose proof (keeps_db_maybe_write_audio_tags ctx w) as Hdb.
  rewrite E in Hdb. cbn [snd] in Hdb.
  assert (Ho : only (logs_or_tags
                       (TempResourceFile.path
                          (TempResourceFiles.audio (Context.out ctx))))
                 (_maybe_write_audio_tags ctx)).
  { unfold _maybe_write_audio_tags.
    destruct (Options.audio_options _) as [options |]; [| apply only_ret].
    destruct (TempResourceFile.path_and_resource _) as [[path r] |] eqn:Hpr;
      [| apply only_ret].
    assert (Hpath : TempResourceFile.path
                      (TempResourceFiles.audio (Context.out ctx)) = Some path).
    { unfold TempResourceFile.path_and_resource in Hpr.
      unfold TempResourceFile.path.
      destruct (or_else _ _) as [q |]; [| discriminate].
      destruct (TempResourceFile.resource _) as [s |]; [| discriminate].
      destruct (str_truthy s); [| discriminate]. congruence. }
    rewrite Hpath.
    assert (Hsave : forall fmt,
              only (logs_or_tags (Some path)) (save_tags fmt path)).
    { intros fmt. apply (tags_only_save_tags _ fmt path).
      cbn [logs_or_tags]. apply path_eqb_refl. }
    assert (Hread : forall l, only (logs_or_tags (Some path)) (read_images l)).
    { intros l. induction l as [| [i |] l IH]; cbn [read_images];
        only_tac. }
    cbn [snd].
    apply only_bind.
    - apply only_try.
      unfold _write_m4a_tags, _write_mp3_tags, _write_ogg_tags.
      only_tac; first [apply Hread | apply Hsave]. 
    - intros [e | u]; only_tac. }
  destruct (only_run _ _ _ _ _ Ho E) as (evs & Et & Ef & Hp).
  split; [exact Hdb |]. split.
  - rewrite E, (new_events_app w _ w' evs Et). exact Hp.
  - intros Hoff. unfold _maybe_write_audio_tags in E.
    destruct Hoff as [Hoff | Hoff].
    + rewrite Hoff in E. injection E as <-. reflexivity.
    + destruct (Options.audio_options _); rewrite ?Hoff in E;
        injection E as <-; reflexivity.
Qed.

End Tags.

(** A cover that was staged but is not in the scratch directory. *)
Module TagDemo.
Import Demo.

Definition cover_path : Path := ["tmp"; "usdb"; "Artist - Title.cover.jpg"].

Definition ctx : Context.t :=
  Context.set_out
    (TempResourceFiles.set_cover
       (TempResourceFile.mk None (Some cover_path)
          (Some "https://img.example/cover.jpg"))
       TempResourceFiles.empty)
    Demo.ctx.

End TagDemo.

Lemma unreadable_cover_blocks_tags_witness :
  @tag_writer Demo.external MP3 ["tmp"; "usdb"; "Artist - Title.mp3"]
    "https://video.example/c2" TagDemo.ctx true Demo.world
  = (inl (OtherError "FileNotFoundError"), Demo.world).
Proof.
  apply (@unreadable_cover_blocks_tags Demo.external MP3
           ["tmp"; "usdb"; "Artist - Title.mp3"] "https://video.example/c2"
           TagDemo.ctx Demo.world TagDemo.cover_path
           "https://img.example/cover.jpg").
  - reflexivity.
  - intros c. cbv. discriminate.
Defined.

(** ** Candidates are tried in order *)


Section InOrder.
Context `{External}.


End InOrder.

(** * The filter tree ([gui/search_tree/item.py]) *)

From Stdlib Require Import ZArith.

Module SearchTree.

(** [SongData] of [song_data.py] is not among the sources at hand; these
    are the attributes [item.py] reads: [song.data.artist] and so on,
    [song.local_files.usdb_path] and [song.status].  Python's [int] is
    [Z]. *)
Module SongData.
Record Data : Type := mkData {
  artist : string;
  title : string;
  edition : string;
  language : string;
  golden_notes : bool;
  rating : Z;
  views : Z
}.

Record LocalFiles : Type := mkLocalFiles {
  usdb_path : option Path
}.

Record t : Type := mk {
  data : Data;
  local_files : LocalFiles;
  status : DownloadStatus
}.
End SongData.

(** ** Objects that can be matched against a song *)

(** [SongMatch]: the interface. *)
Class SongMatch (A : Type) : Type := {
  matches_song : A -> SongData.t -> bool
}.

Module SongValueMatch.
Record t : Type := mk {
  val : string;
  count : Z
}.
End SongValueMatch.

(** [SongValueMatch] and its four subclasses share the fields and differ
    in which attribute of the song they compare [val] with. *)
Inductive SongValueMatchClass : Type :=
| SongValueMatch_
| SongArtistMatch
| SongTitleMatch
| SongEditionMatch
| SongLanguageMatch.

#[export] Instance SongValueMatch_matches
    : SongMatch (SongValueMatchClass * SongValueMatch.t) := {
  matches_song self song :=
    let v := SongValueMatch.val (snd self) in
    match fst self with
    | SongValueMatch_ | SongArtistMatch =>
        String.eqb v (SongData.artist (SongData.data song))
    | SongTitleMatch => String.eqb v (SongData.title (SongData.data song))
    | SongEditionMatch => String.eqb v (SongData.edition (SongData.data song))
    | SongLanguageMatch =>
        String.eqb v (SongData.language (SongData.data song))
    end
}.

Module StatusVariant.
Inductive t : Type :=
| NONE
| DOWNLOADED
| IN_PROGRESS
| FAILED.

Definition all : list t := [NONE; DOWNLOADED; IN_PROGRESS; FAILED].

Definition __str__ (self : t) : string :=
  match self with
  | NONE => "Not downloaded"
  | DOWNLOADED => "Downloaded"
  | IN_PROGRESS => "In progress"
  | FAILED => "Download failed"
  end.
End StatusVariant.

(** [bool(path)] for a [Path | None]: a path is always truthy. *)
Definition path_truthy (p : option Path) : bool :=
  match p with
  | Some _ => true
  | None => false
  end.

#[export] Instance StatusVariant_matches : SongMatch StatusVariant.t := {
  matches_song self song :=
    match self with
    | StatusVariant.NONE =>
        negb (path_truthy
                (SongData.usdb_path (SongData.local_files song)))
        && match SongData.status song with
           | NONE => true
           | _ => false
           end
    | StatusVariant.DOWNLOADED =>
        path_truthy (SongData.usdb_path (SongData.local_files song))
    | StatusVariant.IN_PROGRESS =>
        match SongData.status song with
        | PENDING | DOWNLOADING => true
        | _ => false
        end
    | StatusVariant.FAILED =>
        match SongData.status song with
        | FAILED => true
        | _ => false
        end
    end
}.

Module RatingVariant.
Inductive t : Type :=
| R_NONE
| R_1
| R_2
| R_3
| R_4
| R_5.

Definition all : list t := [R_NONE; R_1; R_2; R_3; R_4; R_5].

Definition value (self : t) : option Z :=
  match self with
  | R_NONE => None
  | R_1 => Some 1%Z
  | R_2 => Some 2%Z
  | R_3 => Some 3%Z
  | R_4 => Some 4%Z
  | R_5 => Some 5%Z
  end.
End RatingVariant.

(** [v or 0] for an [int | None]. *)
Definition int_or_zero (v : option Z) : Z :=
  match v with
  | Some n => if Z.eqb n 0 then 0%Z else n
  | None => 0%Z
  end.

#[export] Instance RatingVariant_matches : SongMatch RatingVariant.t := {
  matches_song self song :=
    Z.eqb (int_or_zero (RatingVariant.value self))
      (SongData.rating (SongData.data song))
}.

Module GoldenNotesVariant.
Inductive t : Type :=
| NO
| YES.

Definition all : list t := [NO; YES].

Definition value (self : t) : bool :=
  match self with
  | NO => false
  | YES => true
  end.

Definition __str__ (self : t) : string :=
  match self with
  | NO => "No"
  | YES => "Yes"
  end.
End GoldenNotesVariant.

#[export] Instance GoldenNotesVariant_matches
    : SongMatch GoldenNotesVariant.t := {
  matches_song self song :=
    Bool.eqb (GoldenNotesVariant.value self)
      (SongData.golden_notes (SongData.data song))
}.

Module ViewsVariant.
Inductive t : Type :=
| V_0
| V_100
| V_200
| V_300
| V_400
| V_500.

Definition all : list t := [V_0; V_100; V_200; V_300; V_400; V_500].

Definition value (self : t) : Z * option Z :=
  match self with
  | V_0 => (0, Some 100)%Z
  | V_100 => (100, Some 200)%Z
  | V_200 => (200, Some 300)%Z
  | V_300 => (300, Some 400)%Z
  | V_400 => (400, Some 500)%Z
  | V_500 => (500%Z, None)
  end.
End ViewsVariant.

#[export] Instance ViewsVariant_matches : SongMatch ViewsVariant.t := {
  matches_song self song :=
    let views := SongData.views (SongData.data song) in
    Z.leb (fst (ViewsVariant.value self)) views
    && match snd (ViewsVariant.value self) with
       | None => true
       | Some upper => Z.ltb views upper
       end
}.

(** ** Kinds of filters *)

Module Filter.
Inductive t : Type :=
| STATUS
| ARTIST
| TITLE
| EDITION
| LANGUAGE
| GOLDEN_NOTES
| RATING
| VIEWS.

Definition __str__ (self : t) : string :=
  match self with
  | STATUS => "Status"
  | ARTIST => "Artist"
  | TITLE => "Title"
  | EDITION => "Edition"
  | LANGUAGE => "Language"
  | GOLDEN_NOTES => "Golden Notes"
  | RATING => "Rating"
  | VIEWS => "Views"
  end.

(** [static_variants]: the members of the variant class, in the order
    of their definition, each as what it accepts. *)
Definition static_variants (self : t) : list (SongData.t -> bool) :=
  match self with
  | ARTIST | TITLE | EDITION | LANGUAGE => []
  | STATUS => map matches_song StatusVariant.all
  | GOLDEN_NOTES => map matches_song GoldenNotesVariant.all
  | RATING => map matches_song RatingVariant.all
  | VIEWS => map matches_song ViewsVariant.all
  end.
End Filter.

(** ** Rows of the tree *)

(** What indexing and the set operations raise. *)
Inductive PyErr : Type :=
| IndexError
| KeyError.

(** [VariantItem]: a row for one variant of a filter.  [accepts] is
    [data.matches_song] of the [SongMatch] the row holds. *)
Module VariantItem.
Record t : Type := mk {
  accepts : SongData.t -> bool;
  row_in_parent : nat;
  checked : bool
}.

(** A new row: not checked, row 0 until a parent adopts it. *)
Definition new {A : Type} `{SongMatch A} (data : A) : t :=
  mk (matches_song data) 0 false.

Definition accepts_song (self : t) (song : SongData.t) : bool :=
  accepts self song.

Definition is_checkable (self : t) : bool := true.

Definition set_checked (b : bool) (self : t) : t :=
  mk (accepts self) (row_in_parent self) b.
Definition set_row_in_parent (row : nat) (self : t) : t :=
  mk (accepts self) row (checked self).
End VariantItem.

(** A row that a method reports as changed: the filter row itself or the
    child in a row. *)
Inductive Changed : Type :=
| Self
| Child (row : nat).

(** [FilterItem]: a top-level row for a kind of filter, with its variant
    rows.  [children[i]] is [nth_error children i]; rows are counted from
    0 (the methods are only called with rows that are not negative).
    [checked_children], a [set] of rows, is a list without duplicates; a
    loop over it goes through the list in order. *)
Module FilterItem.
Record t : Type := mk {
  data : Filter.t;
  children : list VariantItem.t;
  checked_children : list nat;
  checked : bool;
  checkable : bool
}.

Definition new (data : Filter.t) : t := mk data [] [] false false.

(** [set.add] and [set.remove]. *)
Definition set_add (x : nat) (s : list nat) : list nat :=
  if existsb (Nat.eqb x) s then s else s ++ [x].

Definition set_remove (x : nat) (s : list nat) : PyErr + list nat :=
  if existsb (Nat.eqb x) s then inr (filter (fun y => negb (Nat.eqb x y)) s)
  else inl KeyError.

(** [bool(s)] for a set. *)
Definition set_truthy (s : list nat) : bool :=
  match s with
  | [] => false
  | _ :: _ => true
  end.

(** [children[row].checked = b]. *)
Fixpoint set_child (row : nat) (b : bool) (children : list VariantItem.t)
    : list VariantItem.t :=
  match children, row with
  | [], _ => []
  | c :: rest, 0 => VariantItem.set_checked b c :: rest
  | c :: rest, S row' => c :: set_child row' b rest
  end.

Definition add_child (child : VariantItem.t) (self : t) : t :=
  mk (data self)
     (children self
      ++ [VariantItem.set_row_in_parent (length (children self)) child])
     (checked_children self) (checked self) (checkable self).

(** [enumerate(children)], from row [row] on. *)
Fixpoint number (row : nat) (children : list VariantItem.t)
    : list VariantItem.t :=
  match children with
  | [] => []
  | c :: rest => VariantItem.set_row_in_parent row c :: number (S row) rest
  end.

Definition set_children (children : list VariantItem.t) (self : t) : t :=
  mk (data self) (number 0 children) (checked_children self) (checked self)
     (checkable self).

(** [any(self.children[i].accepts_song(song) for i in rows)]: stops at
    the first row that accepts. *)
Fixpoint any_accepts (children : list VariantItem.t) (song : SongData.t)
    (rows : list nat) : PyErr + bool :=
  match rows with
  | [] => inr false
  | i :: rest =>
      match nth_error children i with
      | None => inl IndexError
      | Some c =>
          if VariantItem.accepts_song c song then inr true
          else any_accepts children song rest
      end
  end.

Definition accepts_song (self : t) (song : SongData.t) : PyErr + bool :=
  if negb (set_truthy (checked_children self)) then inr true
  else any_accepts (children self) song (checked_children self).

Definition is_checkable (self : t) : bool :=
  set_truthy (checked_children self).

(** [[self.children[row] for row in rows]] *)
Fixpoint rows_of (children : list VariantItem.t) (rows : list nat)
    : PyErr + list Changed :=
  match rows with
  | [] => inr []
  | row :: rest =>
      match nth_error children row with
      | None => inl IndexError
      | Some _ =>
          match rows_of children rest with
          | inl e => inl e
          | inr more => inr (Child row :: more)
          end
      end
  end.

(** [for child in changed: child.checked = False] *)
Fixpoint uncheck (rows : list nat) (children : list VariantItem.t)
    : list VariantItem.t :=
  match rows with
  | [] => children
  | row :: rest => uncheck rest (set_child row false children)
  end.

(** The methods that change the row return what they raised or returned,
    and the row as they left it. *)
Definition uncheck_children (self : t) : (PyErr + list Changed) * t :=
  match rows_of (children self) (checked_children self) with
  | inl e => (inl e, self)
  | inr changed =>
      (inr (changed ++ [Self]),
       mk (data self) (uncheck (checked_children self) (children self)) []
          false false)
  end.

Definition set_child_checked (child : nat) (checked_ keep_siblings : bool)
    (self : t) : (PyErr + list Changed) * t :=
  match nth_error (children self) child with
  | None => (inl IndexError, self)
  | Some _ =>
      let changed := [Self; Child child] in
      let r :=
        if checked_ then
          let r :=
            if negb keep_siblings then
              match uncheck_children self with
              | (inl e, self) => (inl e, self)
              | (inr more, self) => (inr (changed ++ more), self)
              end
            else (inr changed, self) in
          match r with
          | (inl e, self) => (inl e, self)
          | (inr changed, self) =>
              (inr changed,
               mk (data self) (children self)
                  (set_add child (checked_children self)) (checked self)
                  (checkable self))
          end
        else
          match set_remove child (checked_children self) with
          | inl e => (inl e, self)
          | inr s =>
              (inr changed,
               mk (data self) (children self) s (checked self)
                  (checkable self))
          end in
      match r with
      | (inl e, self) => (inl e, self)
      | (inr changed, self) =>
          (inr changed,
           mk (data self) (set_child child checked_ (children self))
              (checked_children self)
              (set_truthy (checked_children self))
              (set_truthy (checked_children self)))
      end
  end.

Definition toggle_checked (_keep_siblings : bool) (self : t)
    : (PyErr + list Changed) * t :=
  if checked self then uncheck_children self else (inr [], self).
End FilterItem.

(** [VariantItem.toggle_checked], for a row [self] of the filter row
    [parent]. *)
Definition VariantItem_toggle_checked (self : VariantItem.t)
    (keep_siblings : bool) (parent : FilterItem.t)
    : (PyErr + list Changed) * FilterItem.t :=
  FilterItem.set_child_checked (VariantItem.row_in_parent self)
    (negb (VariantItem.checked self)) keep_siblings parent.

End SearchTree.

(** ** Properties of the filter tree *)

Import SearchTree.

(** The number of members of a list that accept the song. *)
Definition accepting (song : SongData.t)
    (variants : list (SongData.t -> bool)) : nat :=
  length (filter (fun accepts => accepts song) variants).

(** X19. The golden notes, the rating and the views filter sort the songs into
    classes: a song with a rating from 0 to 5 and a view count that is not
    negative is accepted by exactly one variant of each (no rating counts
    as rating 0). *)
Theorem static_variants_partition (song : SongData.t) :
  (0 <= SongData.rating (SongData.data song) <= 5)%Z ->
  (0 <= SongData.views (SongData.data song))%Z ->
  accepting song (Filter.static_variants Filter.GOLDEN_NOTES) = 1
  /\ accepting song (Filter.static_variants Filter.RATING) = 1
  /\ accepting song (Filter.static_variants Filter.VIEWS) = 1.
Proof.
  intros Hr Hv. destruct song as [[a t e l g r v] lf st].
  cbn [SongData.rating SongData.views SongData.data] in Hr, Hv.
  unfold accepting;
    cbn [Filter.static_variants map GoldenNotesVariant.all RatingVariant.all
         ViewsVariant.all filter matches_song GoldenNotesVariant_matches
         RatingVariant_matches ViewsVariant_matches SongData.data
         SongData.golden_notes SongData.rating SongData.views
         GoldenNotesVariant.value RatingVariant.value ViewsVariant.value
         int_or_zero fst snd].
  split; [| split].
  - destruct g; reflexivity.
  - assert (Hcases : (r = 0 \/ r = 1 \/ r = 2 \/ r = 3 \/ r = 4 \/ r = 5)%Z)
      by lia.
    destruct Hcases as [-> | [-> | [-> | [-> | [-> | ->]]]]]; reflexivity.
  - assert (Hcases : (v < 100 \/ 100 <= v < 200 \/ 200 <= v < 300
                      \/ 300 <= v < 400 \/ 400 <= v < 500 \/ 500 <= v)%Z)
      by lia.
    destruct Hcases as [Hc | [Hc | [Hc | [Hc | [Hc | Hc]]]]];
      repeat match goal with
             | |- context [Z.leb ?x ?y] =>
                 first [rewrite (proj2 (Z.leb_le x y)) by lia
                       | rewrite (proj2 (Z.leb_gt x y)) by lia]
             | |- context [Z.ltb ?x ?y] =>
                 first [rewrite (proj2 (Z.ltb_lt x y)) by lia
                       | rewrite (proj2 (Z.ltb_ge x y)) by lia]
             end; reflexivity.
Qed.

(** X20. The status filter does not sort the songs into classes, but "not
    downloaded" stands apart: a song it accepts is accepted by no other
    status variant; and with the four download statuses there are, every
    song is accepted by at least one status variant. *)
Theorem status_variants_cover (song : SongData.t) :
  (matches_song StatusVariant.NONE song = true ->
   forall v, v <> StatusVariant.NONE -> matches_song v song = false)
  /\ 1 <= accepting song (Filter.static_variants Filter.STATUS).
Proof.
  destruct song as [d [p] st]. split.
  - cbn [matches_song StatusVariant_matches SongData.local_files
         SongData.usdb_path SongData.status].
    intros Hn v Hv. apply andb_true_iff in Hn. destruct Hn as [Hp Hs].
    apply negb_true_iff in Hp. destruct v; try congruence;
      destruct st; try discriminate; auto.
  - unfold accepting.
    cbn [Filter.static_variants map StatusVariant.all filter matches_song
         StatusVariant_matches SongData.local_files SongData.usdb_path
         SongData.status].
    destruct p; destruct st; cbn; lia.
Qed.

(** A song with three stars and 250 views. *)
Definition demo_song : SongData.t :=
  SongData.mk (SongData.mkData "Artist" "Title" "" "English" false 3 250)
    (SongData.mkLocalFiles None) NONE.

Lemma static_variants_partition_witness :
  accepting demo_song (Filter.static_variants Filter.GOLDEN_NOTES) = 1
  /\ accepting demo_song (Filter.static_variants Filter.RATING) = 1
  /\ accepting demo_song (Filter.static_variants Filter.VIEWS) = 1.
Proof.
  apply (static_variants_partition demo_song).
  - cbn. lia.
  - cbn. lia.
Defined.


(** ** Checking and unchecking the rows of a filter *)


(** The row's books agree: the set of checked rows has no duplicates and
    stays within the children, a child is checked exactly if its row is in
    the set, and the filter row is checked and checkable exactly if the set
    is not empty. *)
Definition consistent (self : FilterItem.t) : Prop :=
  NoDup (FilterItem.checked_children self)
  /\ (forall i c,
        nth_error (FilterItem.children self) i = Some c ->
        (VariantItem.checked c = true
         <-> In i (FilterItem.checked_children self)))
  /\ (forall i, In i (FilterItem.checked_children self) ->
                i < length (FilterItem.children self))
  /\ FilterItem.checked self
     = FilterItem.set_truthy (FilterItem.checked_children self)
  /\ FilterItem.checkable self
     = FilterItem.set_truthy (FilterItem.checked_children self).

(** Every child knows its row. *)
Definition numbered (self : FilterItem.t) : Prop :=
  forall i c,
    nth_error (FilterItem.children self) i = Some c ->
    VariantItem.row_in_parent c = i.

Lemma existsb_eqb_In x s : existsb (Nat.eqb x) s = true <-> In x s.
Proof.
  rewrite existsb_exists. split.
  - intros (y & Hy & He). apply Nat.eqb_eq in He. subst. exact Hy.
  - intros Hx. exists x. split; [exact Hx | apply Nat.eqb_refl].
Qed.

Lemma existsb_eqb_not_In x s : existsb (Nat.eqb x) s = false <-> ~ In x s.
Proof.
  rewrite <- existsb_eqb_In. destruct (existsb (Nat.eqb x) s); split;
    intros; congruence.
Qed.

Lemma set_add_In x s i : In i (FilterItem.set_add x s) <-> i = x \/ In i s.
Proof.
  unfold FilterItem.set_add. destruct (existsb (Nat.eqb x) s) eqn:He.
  - apply existsb_eqb_In in He. split; [auto |].
    intros [-> | Hi]; assumption.
  - rewrite in_app_iff. cbn [In]. split.
    + intros [Hi | [<- | []]]; auto.
    + intros [-> | Hi]; auto.
Qed.

Lemma set_add_NoDup x s : NoDup s -> NoDup (FilterItem.set_add x s).
Proof.
  intros Hs. unfold FilterItem.set_add.
  destruct (existsb (Nat.eqb x) s) eqn:He; [exact Hs |].
  apply existsb_eqb_not_In in He.
  apply NoDup_rev in Hs. rewrite <- (rev_involutive (s ++ [x])).
  apply NoDup_rev. rewrite rev_app_distr. cbn [rev app].
  constructor; [rewrite <- in_rev; exact He | exact Hs].
Qed.

Lemma set_remove_In x s s' i :
  FilterItem.set_remove x s = inr s' -> (In i s' <-> In i s /\ i <> x).
Proof.
  unfold FilterItem.set_remove. destruct (existsb (Nat.eqb x) s);
    [| discriminate].
  intros E. injection E as <-. rewrite filter_In, negb_true_iff, Nat.eqb_neq.
  split; intros [Ha Hb]; split; auto.
Qed.

Lemma set_remove_NoDup x s s' :
  FilterItem.set_remove x s = inr s' -> NoDup s -> NoDup s'.
Proof.
  unfold FilterItem.set_remove. destruct (existsb (Nat.eqb x) s);
    [| discriminate].
  intros E Hs. injection E as <-. apply NoDup_filter. exact Hs.
Qed.

Lemma set_truthy_In s : FilterItem.set_truthy s = true <-> exists i, In i s.
Proof.
  destruct s as [| x s]; cbn; split.
  - discriminate.
  - intros (i & []).
  - intros _. exists x. auto.
  - reflexivity.
Qed.

Lemma set_child_length row b cs :
  length (FilterItem.set_child row b cs) = length cs.
Proof.
  revert row. induction cs as [| c cs IH]; intros row;
    [destruct row; reflexivity |].
  destruct row; cbn [FilterItem.set_child length]; [reflexivity |].
  rewrite IH. reflexivity.
Qed.

Lemma set_child_nth row b cs i :
  nth_error (FilterItem.set_child row b cs) i
  = if Nat.eqb i row
    then option_map (VariantItem.set_checked b) (nth_error cs i)
    else nth_error cs i.
Proof.
  revert row i. induction cs as [| c cs IH]; intros row i.
  - destruct row; cbn [FilterItem.set_child]; destruct i;
      cbn [Nat.eqb nth_error option_map]; try reflexivity;
      destruct (Nat.eqb _ _); reflexivity.
  - destruct row; destruct i; cbn [FilterItem.set_child nth_error Nat.eqb];
      try reflexivity.
    apply IH.
Qed.

Lemma uncheck_length rows cs : length (FilterItem.uncheck rows cs) = length cs.
Proof.
  revert cs. induction rows as [| r rows IH]; intros cs; [reflexivity |].
  cbn [FilterItem.uncheck]. rewrite IH. apply set_child_length.
Qed.

Lemma set_checked_again b c :
  VariantItem.set_checked b (VariantItem.set_checked b c)
  = VariantItem.set_checked b c.
Proof. reflexivity. Qed.

Lemma uncheck_nth rows cs i :
  nth_error (FilterItem.uncheck rows cs) i
  = if existsb (Nat.eqb i) rows
    then option_map (VariantItem.set_checked false) (nth_error cs i)
    else nth_error cs i.
Proof.
  revert cs. induction rows as [| r rows IH]; intros cs; [reflexivity |].
  cbn [FilterItem.uncheck existsb]. rewrite IH, set_child_nth.
  destruct (Nat.eqb i r); cbn [orb].
  - destruct (existsb (Nat.eqb i) rows); [| reflexivity].
    destruct (nth_error cs i); reflexivity.
  - reflexivity.
Qed.

Lemma rows_of_ok cs rows :
  (forall i, In i rows -> i < length cs) ->
  FilterItem.rows_of cs rows = inr (map Child rows).
Proof.
  induction rows as [| r rows IH]; intros Hr; [reflexivity |].
  cbn [FilterItem.rows_of map].
  destruct (nth_error cs r) eqn:Hn.
  - rewrite IH; [reflexivity |]. intros i Hi. apply Hr. right. exact Hi.
  - apply nth_error_None in Hn. specialize (Hr r (in_eq _ _)). lia.
Qed.

(** Unchecking everything. *)
Lemma uncheck_children_ok self :
  consistent self ->
  FilterItem.uncheck_children self
  = (inr (map Child (FilterItem.checked_children self) ++ [Self]),
     FilterItem.mk (FilterItem.data self)
       (FilterItem.uncheck (FilterItem.checked_children self)
          (FilterItem.children self)) [] false false).
Proof.
  intros (_ & _ & Hin & _). unfold FilterItem.uncheck_children.
  rewrite (rows_of_ok _ _ Hin). reflexivity.
Qed.

Lemma unchecked_consistent self :
  consistent self ->
  consistent
    (FilterItem.mk (FilterItem.data self)
       (FilterItem.uncheck (FilterItem.checked_children self)
          (FilterItem.children self)) [] false false).
Proof.
  intros (Hnd & Hck & Hin & Hc & Hb). unfold consistent.
  cbn [FilterItem.checked_children FilterItem.children FilterItem.checked
       FilterItem.checkable FilterItem.set_truthy].
  split; [constructor |]. split; [| split; [intros i [] | auto]].
  intros i c Hn. rewrite uncheck_nth in Hn. cbn [In].
  destruct (existsb (Nat.eqb i) (FilterItem.checked_children self)) eqn:He.
  - destruct (nth_error (FilterItem.children self) i); [| discriminate].
    injection Hn as <-. cbn. split; [discriminate | tauto].
  - apply existsb_eqb_not_In in He. rewrite (Hck i c Hn). tauto.
Qed.

(** Writing the flag of a child and the flags of the row. *)
Lemma flagged_consistent d cs s child b :
  NoDup s ->
  (forall i, In i s -> i < length cs) ->
  (forall i c, i <> child -> nth_error cs i = Some c ->
               (VariantItem.checked c = true <-> In i s)) ->
  (b = true <-> In child s) ->
  consistent
    (FilterItem.mk d (FilterItem.set_child child b cs) s
       (FilterItem.set_truthy s) (FilterItem.set_truthy s)).
Proof.
  intros Hnd Hin Hck Hb. unfold consistent.
  cbn [FilterItem.checked_children FilterItem.children FilterItem.checked
       FilterItem.checkable].
  split; [exact Hnd |]. split; [| split; [| auto]].
  - intros i c Hn. rewrite set_child_nth in Hn.
    destruct (Nat.eqb i child) eqn:He.
    + apply Nat.eqb_eq in He. subst i.
      destruct (nth_error cs child); [| discriminate].
      injection Hn as <-. cbn. exact Hb.
    + apply Nat.eqb_neq in He. apply Hck; assumption.
  - intros i Hi. rewrite set_child_length. apply Hin, Hi.
Qed.

(** X21. [set_child_checked] on a consistent row: it returns unless the child is
    not there or is to be unchecked while it is not checked; it leaves the
    row consistent; afterwards the checked rows are the child alone
    ([checked], not [keep_siblings]), the child and those that were
    ([checked], [keep_siblings]), or those that were without the child
    (not [checked]). *)
Theorem set_child_checked_keeps_consistent child checked_ keep self :
  consistent self ->
  child < length (FilterItem.children self) ->
  (checked_ = false -> In child (FilterItem.checked_children self)) ->
  exists changed self',
    FilterItem.set_child_checked child checked_ keep self
    = (inr changed, self')
    /\ consistent self'
    /\ length (FilterItem.children self')
       = length (FilterItem.children self)
    /\ forall i,
         In i (FilterItem.checked_children self')
         <-> if checked_ then
               i = child
               \/ (keep = true /\ In i (FilterItem.checked_children self))
             else In i (FilterItem.checked_children self) /\ i <> child.
Proof.
  intros Hwf Hlt Hun. pose proof Hwf as (Hnd & Hck & Hin & Hc & Hb).
  unfold FilterItem.set_child_checked.
  destruct (nth_error (FilterItem.children self) child) as [c |] eqn:Hn;
    [| apply nth_error_None in Hn; lia].
  destruct checked_.
  - destruct keep; cbn [negb].
    + eexists. eexists. split; [reflexivity |].
      cbn [FilterItem.data FilterItem.children FilterItem.checked_children].
      split; [| split; [apply set_child_length |]].
      * apply flagged_consistent.
        -- apply set_add_NoDup, Hnd.
        -- intros i Hi. apply set_add_In in Hi. destruct Hi as [-> | Hi];
             [exact Hlt | apply Hin, Hi].
        -- intros i x Hne Hx. rewrite (Hck i x Hx), set_add_In. tauto.
        -- rewrite set_add_In. tauto.
      * intros i. rewrite set_add_In. tauto.
    + rewrite (uncheck_children_ok self Hwf).
      eexists. eexists. split; [reflexivity |].
      cbn [FilterItem.data FilterItem.children FilterItem.checked_children].
      split; [| split; [rewrite set_child_length; apply uncheck_length |]].
      * pose proof (unchecked_consistent self Hwf) as (_ & Hck' & _).
        cbn [FilterItem.children FilterItem.checked_children] in Hck'.
        apply flagged_consistent.
        -- apply set_add_NoDup. constructor.
        -- intros i Hi. apply set_add_In in Hi. destruct Hi as [-> | []].
           rewrite uncheck_length. exact Hlt.
        -- intros i x Hne Hx. rewrite (Hck' i x Hx), set_add_In.
           cbn [In]. tauto.
        -- rewrite set_add_In. tauto.
      * intros i. rewrite set_add_In. cbn [In]. split; [| intros [-> | [Hf _]]];
          [tauto | auto | discriminate].
  - destruct (FilterItem.set_remove child (FilterItem.checked_children self))
      as [e | s] eqn:Hr.
    + unfold FilterItem.set_remove in Hr.
      rewrite (proj2 (existsb_eqb_In _ _) (Hun eq_refl)) in Hr. discriminate.
    + eexists. eexists. split; [reflexivity |].
      cbn [FilterItem.data FilterItem.children FilterItem.checked_children].
      split; [| split; [apply set_child_length |]].
      * apply flagged_consistent.
        -- apply (set_remove_NoDup _ _ _ Hr Hnd).
        -- intros i Hi. apply (set_remove_In _ _ _ i Hr) in Hi.
           apply Hin, Hi.
        -- intros i x Hne Hx. rewrite (Hck i x Hx), (set_remove_In _ _ _ i Hr).
           tauto.
        -- rewrite (set_remove_In _ _ _ child Hr). split;
             [discriminate | tauto].
      * intros i. apply (set_remove_In _ _ _ i Hr).
Qed.

Lemma uncheck_children_failed self e self' :
  FilterItem.uncheck_children self = (inl e, self') -> self' = self.
Proof.
  unfold FilterItem.uncheck_children.
  destruct (FilterItem.rows_of _ _); intros E; inversion E; reflexivity.
Qed.

(** X22. A method of the filter row that raises leaves the row as it was. *)
Theorem failed_check_changes_nothing child checked_ keep self e self' :
  (FilterItem.set_child_checked child checked_ keep self = (inl e, self')
   \/ FilterItem.uncheck_children self = (inl e, self')
   \/ FilterItem.toggle_checked keep self = (inl e, self')) ->
  self' = self.
Proof.
  intros [E | [E | E]].
  - unfold FilterItem.set_child_checked in E.
    destruct (nth_error _ child); [| inversion E; reflexivity].
    destruct checked_.
    + destruct keep; cbn [negb] in E; [discriminate |].
      destruct (FilterItem.uncheck_children self) as [[x | more] y] eqn:Eu;
        [| discriminate].
      inversion E. subst. apply (uncheck_children_failed _ _ _ Eu).
    + destruct (FilterItem.set_remove child _); [| discriminate].
      inversion E. reflexivity.
  - apply (uncheck_children_failed _ _ _ E).
  - unfold FilterItem.toggle_checked in E.
    destruct (FilterItem.checked self);
      [apply (uncheck_children_failed _ _ _ E) | discriminate].
Qed.



Lemma bool_iff (a b : bool) : (a = true <-> b = true) -> a = b.
Proof. destruct a, b; intros [H1 H2]; auto; symmetry; auto. Qed.

(** *** Building the rows *)

Lemma new_consistent d : consistent (FilterItem.new d).
Proof.
  unfold consistent, FilterItem.new. cbn.
  split; [constructor |]. split; [| split; [intros i [] | auto]].
  intros i c Hn. destruct i; discriminate.
Qed.

Lemma new_numbered d : numbered (FilterItem.new d).
Proof. intros i c Hn. destruct i; discriminate. Qed.

Lemma number_nth row cs i :
  nth_error (FilterItem.number row cs) i
  = option_map (VariantItem.set_row_in_parent (row + i)) (nth_error cs i).
Proof.
  revert row i. induction cs as [| c cs IH]; intros row i.
  - destruct i; reflexivity.
  - destruct i; cbn [FilterItem.number nth_error option_map].
    + rewrite Nat.add_0_r. reflexivity.
    + rewrite IH. rewrite Nat.add_succ_comm. reflexivity.
Qed.

Lemma add_child_numbered child self :
  numbered self -> numbered (FilterItem.add_child child self).
Proof.
  intros Hnum i c Hn. unfold FilterItem.add_child in Hn.
  cbn [FilterItem.children] in Hn.
  destruct (Nat.lt_ge_cases i (length (FilterItem.children self)))
    as [Hlt | Hge].
  - rewrite nth_error_app1 in Hn by exact Hlt. apply Hnum, Hn.
  - rewrite nth_error_app2 in Hn by exact Hge.
    destruct (i - length (FilterItem.children self)) as [| k] eqn:Hk.
    + cbn in Hn. injection Hn as <-. cbn. lia.
    + destruct k; discriminate.
Qed.

Lemma add_child_consistent child self :
  consistent self -> VariantItem.checked child = false ->
  consistent (FilterItem.add_child child self).
Proof.
  intros (Hnd & Hck & Hin & Hc & Hb) Hchild. unfold consistent.
  unfold FilterItem.add_child.
  cbn [FilterItem.children FilterItem.checked_children FilterItem.checked
       FilterItem.checkable].
  split; [exact Hnd |]. split; [| split; [| auto]].
  - intros i c Hn.
    destruct (Nat.lt_ge_cases i (length (FilterItem.children self)))
      as [Hlt | Hge].
    + rewrite nth_error_app1 in Hn by exact Hlt. apply Hck, Hn.
    + rewrite nth_error_app2 in Hn by exact Hge.
      destruct (i - length (FilterItem.children self)) as [| k] eqn:Hk;
        [| destruct k; discriminate].
      cbn in Hn. injection Hn as <-. cbn. rewrite Hchild.
      split; [discriminate |]. intros Hi. apply Hin in Hi. lia.
  - intros i Hi. rewrite length_app. cbn. apply Hin in Hi. lia.
Qed.

(** X23. Children are numbered by the row they get: a row that [add_child]
    appends gets the next row number whatever it had before, one that
    [set_children] installs gets its position; the rows that were there
    keep theirs, and a row that comes unchecked leaves the books of the
    filter row consistent. *)
Theorem children_know_their_rows self child children :
  numbered self ->
  numbered (FilterItem.add_child child self)
  /\ numbered (FilterItem.set_children children self)
  /\ nth_error (FilterItem.children (FilterItem.add_child child self))
       (length (FilterItem.children self))
     = Some (VariantItem.set_row_in_parent
               (length (FilterItem.children self)) child)
  /\ (consistent self -> VariantItem.checked child = false ->
      consistent (FilterItem.add_child child self)).
Proof.
  intros Hnum. split; [| split; [| split]].
  - apply add_child_numbered, Hnum.
  - intros i c Hn. unfold FilterItem.set_children in Hn.
    cbn [FilterItem.children] in Hn. rewrite number_nth in Hn.
    destruct (nth_error children i); [| discriminate].
    injection Hn as <-. reflexivity.
  - unfold FilterItem.add_child. cbn [FilterItem.children].
    rewrite nth_error_app2 by apply le_n. rewrite Nat.sub_diag. reflexivity.
  - apply add_child_consistent.
Qed.

(** *** Which songs a filter row accepts *)

Lemma any_accepts_ok cs song rows :
  (forall i, In i rows -> i < length cs) ->
  FilterItem.any_accepts cs song rows
  = inr (existsb
           (fun i =>
              match nth_error cs i with
              | Some c => VariantItem.accepts_song c song
              | None => false
              end) rows).
Proof.
  induction rows as [| r rows IH]; intros Hr; [reflexivity |].
  cbn [FilterItem.any_accepts existsb].
  destruct (nth_error cs r) eqn:Hn.
  - destruct (VariantItem.accepts_song t song); [reflexivity |].
    apply IH. intros i Hi. apply Hr. right. exact Hi.
  - apply nth_error_None in Hn. specialize (Hr r (in_eq _ _)). lia.
Qed.

(** X24. On a consistent row [accepts_song] does not raise, and says: nothing
    is checked, or some checked child accepts the song. *)
Theorem filter_accepts_what_a_checked_child_accepts self song :
  consistent self ->
  FilterItem.accepts_song self song
  = inr (negb (existsb VariantItem.checked (FilterItem.children self))
         || existsb
              (fun c => VariantItem.checked c && VariantItem.accepts c song)
              (FilterItem.children self)).
Proof.
  intros (Hnd & Hck & Hin & Hc & Hb). unfold FilterItem.accepts_song.
  assert (Hany : FilterItem.set_truthy (FilterItem.checked_children self)
                 = existsb VariantItem.checked (FilterItem.children self)).
  { apply bool_iff. rewrite set_truthy_In, existsb_exists. split.
    - intros (i & Hi). pose proof (Hin i Hi) as Hlt.
      destruct (nth_error (FilterItem.children self) i) as [c |] eqn:Hn;
        [| apply nth_error_None in Hn; lia].
      exists c. split; [apply (nth_error_In _ _ Hn) |].
      apply (Hck i c Hn). exact Hi.
    - intros (c & Hc' & Hchecked). apply In_nth_error in Hc'.
      destruct Hc' as (i & Hn). exists i. apply (Hck i c Hn). exact Hchecked. }
  rewrite Hany.
  destruct (existsb VariantItem.checked (FilterItem.children self)) eqn:He;
    cbn [negb orb]; [| reflexivity].
  rewrite (any_accepts_ok _ _ _ Hin). f_equal.
  apply bool_iff. rewrite !existsb_exists. split.
  - intros (i & Hi & Hacc).
    destruct (nth_error (FilterItem.children self) i) as [c |] eqn:Hn;
      [| discriminate].
    exists c. split; [apply (nth_error_In _ _ Hn) |].
    rewrite (proj2 (Hck i c Hn) Hi). exact Hacc.
  - intros (c & Hc' & Hacc). apply andb_true_iff in Hacc.
    destruct Hacc as [Hchecked Hacc]. apply In_nth_error in Hc'.
    destruct Hc' as (i & Hn). exists i.
    split; [apply (Hck i c Hn); exact Hchecked |]. rewrite Hn. exact Hacc.
Qed.

(** *** Toggling a row twice *)

Lemma set_child_restore i b b' cs v :
  nth_error cs i = Some v ->
  VariantItem.checked v = b ->
  FilterItem.set_child i b (FilterItem.set_child i b' cs) = cs.
Proof.
  revert i. induction cs as [| c cs IH]; intros i Hn Hv.
  - destruct i; discriminate.
  - destruct i; cbn [FilterItem.set_child nth_error] in *.
    + injection Hn as ->. destruct v as [a r ch]. cbn in *. subst.
      reflexivity.
    + rewrite (IH i Hn Hv). reflexivity.
Qed.

Lemma filter_out_absent x s :
  ~ In x s -> filter (fun y => negb (Nat.eqb x y)) s = s.
Proof.
  induction s as [| y s IH]; intros Hx; [reflexivity |].
  cbn [filter]. destruct (Nat.eqb x y) eqn:He.
  - apply Nat.eqb_eq in He. subst. exfalso. apply Hx. left. reflexivity.
  - cbn [negb]. rewrite IH; [reflexivity |]. intros Hi. apply Hx. right.
    exact Hi.
Qed.

(** X25. Toggling a variant row twice while keeping its siblings brings a
    consistent filter row back: neither toggle raises, the first flips the
    row's check mark, and after the second the children, the set of
    checked rows and the filter row's own marks are as at the start. *)
Theorem toggling_twice_restores i v self :
  consistent self ->
  numbered self ->
  nth_error (FilterItem.children self) i = Some v ->
  exists changed1 self1 v1 changed2 self2,
    VariantItem_toggle_checked v true self = (inr changed1, self1)
    /\ nth_error (FilterItem.children self1) i = Some v1
    /\ VariantItem.checked v1 = negb (VariantItem.checked v)
    /\ VariantItem_toggle_checked v1 true self1 = (inr changed2, self2)
    /\ FilterItem.children self2 = FilterItem.children self
    /\ (forall j, In j (FilterItem.checked_children self2)
                  <-> In j (FilterItem.checked_children self))
    /\ FilterItem.checked self2 = FilterItem.checked self
    /\ FilterItem.checkable self2 = FilterItem.checkable self.
Proof.
  intros Hwf Hnum Hn. pose proof Hwf as (Hnd & Hck & Hin & Hc & Hb).
  pose proof (Hnum i v Hn) as Hrow.
  unfold VariantItem_toggle_checked. rewrite Hrow.
  unfold FilterItem.set_child_checked at 1. rewrite Hn.
  destruct (VariantItem.checked v) eqn:Hv; cbn [negb].
  - (* checked: uncheck, then check again *)
    pose proof (proj1 (Hck i v Hn) Hv) as Hi.
    unfold FilterItem.set_remove.
    rewrite (proj2 (existsb_eqb_In _ _) Hi).
    eexists. eexists. exists (VariantItem.set_checked false v).
    eexists. eexists.
    split; [reflexivity |].
    cbn [FilterItem.children FilterItem.checked_children FilterItem.data].
    split; [rewrite set_child_nth, Nat.eqb_refl, Hn; reflexivity |].
    split; [reflexivity |].
    cbn [VariantItem.set_checked VariantItem.row_in_parent
         VariantItem.checked negb].
    rewrite Hrow. unfold FilterItem.set_child_checked.
    cbn [FilterItem.children FilterItem.checked_children FilterItem.data
         FilterItem.checked FilterItem.checkable negb].
    rewrite set_child_nth, Nat.eqb_refl, Hn. cbn [option_map].
    split; [reflexivity |].
    cbn [FilterItem.children FilterItem.checked_children FilterItem.checked
         FilterItem.checkable].
    assert (Hmem : forall j,
              In j (FilterItem.set_add i
                      (filter (fun y => negb (Nat.eqb i y))
                         (FilterItem.checked_children self)))
              <-> In j (FilterItem.checked_children self)).
    { intros j. rewrite set_add_In, filter_In, negb_true_iff, Nat.eqb_neq.
      destruct (Nat.eq_dec j i) as [-> | Hne]; [tauto |].
      split; [intros [He | [Hj _]]; [contradiction | exact Hj] |].
      intros Hj. right. split; [exact Hj | auto]. }
    assert (Htruthy : FilterItem.set_truthy
                        (FilterItem.set_add i
                           (filter (fun y => negb (Nat.eqb i y))
                              (FilterItem.checked_children self)))
                      = FilterItem.set_truthy
                          (FilterItem.checked_children self)).
    { apply bool_iff. rewrite !set_truthy_In. split; intros (j & Hj);
        exists j; apply Hmem; exact Hj. }
    split; [apply (set_child_restore i true false _ v Hn Hv) |].
    split; [exact Hmem |]. rewrite Htruthy. auto.
  - (* not checked: check, then uncheck again *)
    assert (Hi : ~ In i (FilterItem.checked_children self)).
    { intros Hi. apply (Hck i v Hn) in Hi. congruence. }
    eexists. eexists. exists (VariantItem.set_checked true v).
    eexists. eexists.
    split; [reflexivity |].
    cbn [FilterItem.children FilterItem.checked_children FilterItem.data].
    split; [rewrite set_child_nth, Nat.eqb_refl, Hn; reflexivity |].
    split; [reflexivity |].
    cbn [VariantItem.set_checked VariantItem.row_in_parent
         VariantItem.checked negb].
    rewrite Hrow. unfold FilterItem.set_child_checked.
    cbn [FilterItem.children FilterItem.checked_children FilterItem.data
         FilterItem.checked FilterItem.checkable].
    rewrite set_child_nth, Nat.eqb_refl, Hn. cbn [option_map].
    unfold FilterItem.set_add.
    rewrite (proj2 (existsb_eqb_not_In _ _) Hi).
    unfold FilterItem.set_remove.
    assert (Hin' : In i (FilterItem.checked_children self ++ [i])).
    { apply in_or_app. right. left. reflexivity. }
    rewrite (proj2 (existsb_eqb_In _ _) Hin').
    split; [reflexivity |].
    cbn [FilterItem.children FilterItem.checked_children FilterItem.checked
         FilterItem.checkable].
    assert (Hs : filter (fun y => negb (Nat.eqb i y))
                   (FilterItem.checked_children self ++ [i])
                 = FilterItem.checked_children self).
    { rewrite filter_app, (filter_out_absent _ _ Hi). cbn [filter].
      rewrite Nat.eqb_refl. cbn [negb]. apply app_nil_r. }
    rewrite Hs.
    split; [apply (set_child_restore i false true _ v Hn Hv) |].
    split; [tauto |]. auto.
Qed.

(** *** A views filter with three rows *)

Definition three_rows : FilterItem.t :=
  FilterItem.add_child (VariantItem.new ViewsVariant.V_200)
    (FilterItem.add_child (VariantItem.new ViewsVariant.V_100)
       (FilterItem.add_child (VariantItem.new ViewsVariant.V_0)
          (FilterItem.new Filter.VIEWS))).

Lemma three_rows_consistent : consistent three_rows.
Proof.
  unfold three_rows.
  repeat (apply add_child_consistent; [| reflexivity]).
  apply new_consistent.
Qed.

Lemma three_rows_numbered : numbered three_rows.
Proof.
  unfold three_rows. repeat apply add_child_numbered. apply new_numbered.
Qed.

(** The second row. *)
Definition second_row : VariantItem.t :=
  VariantItem.mk (matches_song ViewsVariant.V_100) 1 false.


Lemma children_know_their_rows_witness :
  numbered
    (FilterItem.add_child
       (VariantItem.new ViewsVariant.V_300)
       three_rows)
  /\ nth_error
       (FilterItem.children
          (FilterItem.add_child
             (VariantItem.mk
                (matches_song ViewsVariant.V_300) 7
                false)
             three_rows)) 3
     = Some (VariantItem.mk
               (matches_song ViewsVariant.V_300) 3
               false).
Proof.
  split.
  - apply (children_know_their_rows three_rows
             (VariantItem.new ViewsVariant.V_300) []).
    exact three_rows_numbered.
  - apply (children_know_their_rows three_rows
             (VariantItem.mk
                (matches_song ViewsVariant.V_300) 7
                false) []).
    exact three_rows_numbered.
Defined.

Lemma set_child_checked_keeps_consistent_witness :
  exists changed self',
    FilterItem.set_child_checked 1 true false
      three_rows
    = (inr changed, self')
    /\ consistent self'
    /\ forall i,
         In i (FilterItem.checked_children self') <-> i = 1.
Proof.
  destruct (set_child_checked_keeps_consistent 1 true false
              three_rows
              three_rows_consistent)
    as (changed & self' & E & Hwf & _ & Hmem).
  - cbn. lia.
  - discriminate.
  - exists changed, self'. split; [exact E |]. split; [exact Hwf |].
    intros i. rewrite Hmem. split; [intros [Hi | [Hf _]] | auto];
      [exact Hi | discriminate].
Defined.

Lemma failed_check_changes_nothing_witness :
  snd (FilterItem.set_child_checked 1 false true
         three_rows)
  = three_rows.
Proof.
  apply (failed_check_changes_nothing 1 false true
           three_rows KeyError).
  left. reflexivity.
Defined.

Lemma filter_accepts_what_a_checked_child_accepts_witness :
  FilterItem.accepts_song three_rows
    demo_song
  = inr true.
Proof.
  rewrite (filter_accepts_what_a_checked_child_accepts
             three_rows demo_song
             three_rows_consistent).
  reflexivity.
Defined.

Lemma toggling_twice_restores_witness :
  exists changed1 self1 v1 changed2 self2,
    VariantItem_toggle_checked second_row true
      three_rows
    = (inr changed1, self1)
    /\ nth_error (FilterItem.children self1) 1 = Some v1
    /\ VariantItem.checked v1 = true
    /\ VariantItem_toggle_checked v1 true self1
       = (inr changed2, self2)
    /\ FilterItem.children self2
       = FilterItem.children three_rows.
Proof.
  destruct (toggling_twice_restores 1
              second_row three_rows
              three_rows_consistent
              three_rows_numbered eq_refl)
    as (c1 & s1 & v1 & c2 & s2 & E1 & Hn & Hv & E2 & Hc & _).
  exists c1, s1, v1, c2, s2. auto.
Defined.


(** * The columns of the song table ([gui/song_table/column.py]) *)

Module Column.
Inductive t : Type :=
| SONG_ID
| ARTIST
| TITLE
| LANGUAGE
| EDITION
| GOLDEN_NOTES
| RATING
| VIEWS
| PINNED
| TXT
| AUDIO
| VIDEO
| COVER
| BACKGROUND
| DOWNLOAD_STATUS.

(** The members in the order of their definition. *)
Definition all : list t :=
  [SONG_ID; ARTIST; TITLE; LANGUAGE; EDITION; GOLDEN_NOTES; RATING; VIEWS;
   PINNED; TXT; AUDIO; VIDEO; COVER; BACKGROUND; DOWNLOAD_STATUS].

(** The value of the [IntEnum] member: 0 for the first, and [enum.auto()]
    gives each of the others one more than the one before it. *)
Definition value (self : t) : Z :=
  match self with
  | SONG_ID => 0
  | ARTIST => 1
  | TITLE => 2
  | LANGUAGE => 3
  | EDITION => 4
  | GOLDEN_NOTES => 5
  | RATING => 6
  | VIEWS => 7
  | PINNED => 8
  | TXT => 9
  | AUDIO => 10
  | VIDEO => 11
  | COVER => 12
  | BACKGROUND => 13
  | DOWNLOAD_STATUS => 14
  end%Z.

Definition display_data (self : t) : option string :=
  match self with
  | ARTIST => Some "Artist"
  | TITLE => Some "Title"
  | LANGUAGE => Some "Language"
  | EDITION => Some "Edition"
  | DOWNLOAD_STATUS => Some "Status"
  | SONG_ID | GOLDEN_NOTES | RATING | VIEWS | TXT | AUDIO | VIDEO | COVER
  | BACKGROUND | PINNED => None
  end.

(** [decoration_data]: the resource path the [QIcon] is made from. *)
Definition decoration_data (self : t) : string :=
  match self with
  | SONG_ID => ":/icons/id.png"
  | ARTIST => ":/icons/artist.png"
  | TITLE => ":/icons/title.png"
  | LANGUAGE => ":/icons/language.png"
  | EDITION => ":/icons/edition.png"
  | GOLDEN_NOTES => ":/icons/golden_notes.png"
  | RATING => ":/icons/rating.png"
  | VIEWS => ":/icons/views.png"
  | TXT => ":/icons/text.png"
  | AUDIO => ":/icons/audio.png"
  | VIDEO => ":/icons/video.png"
  | COVER => ":/icons/cover.png"
  | BACKGROUND => ":/icons/background.png"
  | DOWNLOAD_STATUS => ":/icons/status.png"
  | PINNED => ":/icons/pin.png"
  end.

Definition fixed_size (self : t) : option Z :=
  match self with
  | ARTIST | TITLE | LANGUAGE | EDITION | DOWNLOAD_STATUS | SONG_ID | VIEWS
  | RATING | GOLDEN_NOTES => None
  | TXT | AUDIO | VIDEO | COVER | BACKGROUND | PINNED => Some 24%Z
  end.
End Column.

(** X26. A column of fixed size has no header text, so the icon is all its
    header shows, and no two columns have the same icon or the same
    value. *)
Theorem fixed_columns_show_their_icon_only :
  (forall c, Column.fixed_size c <> None -> Column.display_data c = None)
  /\ (forall c d, Column.decoration_data c = Column.decoration_data d ->
                  c = d)
  /\ (forall c d, Column.value c = Column.value d -> c = d).
Proof.
  split; [| split].
  - intros c Hc. destruct c; try reflexivity; cbn in Hc; congruence.
  - intros c d H. destruct c; destruct d; try reflexivity; discriminate H.
  - intros c d H. destruct c; destruct d; try reflexivity; discriminate H.
Qed.
